(** * Markdown diagnostics, merge editor and loader bundle: a shallow embedding

    The development follows three areas of the repository:

    - [extensions/markdown-language-features/src/languageFeatures/diagnostics.ts]:
      the in-flight request table, the link watcher, the diagnostics reporter,
      the diagnostics manager and the diagnostics computer;
    - the merge editor view (three code editor panes and the conflict gutter);
    - [build/lib/optimize.js]: the [loader] bundle.

    Host services (documents, tabs, file system, table of contents, glob
    matching) are calls into the editor; they appear here as section
    variables or as explicit pieces of state. *)

From Stdlib Require Import Ascii String Sorted.
From stdpp Require Import base option list gmap sets strings sorting.

#[local] Set Warnings "-clear-no-such-hyp,-register-all".

(** ** Resources

    A [vscode.Uri] is an object.  A JavaScript [Set<Uri>] compares its members
    by object identity, while the repository's [ResourceMap] keys its entries
    by [uri.toString()].  Both views are kept: [uri_obj] names the object and
    [uri_str] is its string form. *)

Record Uri : Type := mkUri { uri_obj : nat; uri_str : string }.

#[global] Instance Uri_eq_dec : EqDecision Uri.
Proof. solve_decision. Defined.

(** ** Strings *)

(** [s.startsWith(searchString)] *)
Fixpoint startsWith (searchString s : string) : bool :=
  match searchString with
  | EmptyString => true
  | String a rest =>
      match s with
      | EmptyString => false
      | String b s' => Ascii.eqb a b && startsWith rest s'
      end
  end.

(** [s.endsWith(searchString)]: the same test on the reversed strings. *)
Definition endsWith (searchString s : string) : bool :=
  startsWith (String.rev searchString) (String.rev s).

(** ** [ResourceMap] *)

Module ResourceMap.
Section ops.
Context {V : Type}.

(** Modelled from the spec: the class [ResourceMap] of [util/resourceMap],
    whose source this development does not have.  The diagnostics code uses it
    as a map from a resource to a value that identifies a resource by
    [uri.toString()]; [get], [set], [delete] and [has] are the calls it
    makes. *)
Definition get (u : Uri) (m : gmap string V) : option V := m !! uri_str u.

Definition set (u : Uri) (v : V) (m : gmap string V) : gmap string V :=
  <[uri_str u := v]> m.

Definition delete (u : Uri) (m : gmap string V) : gmap string V :=
  base.delete (uri_str u) m.

Definition has (u : Uri) (m : gmap string V) : bool :=
  bool_decide (is_Some (m !! uri_str u)).

End ops.
End ResourceMap.

(** ** [InflightDiagnosticRequests] *)

Module Inflight.

(** An entry [{ cts }] is created together with its token source, so the
    entry and the source share one name.  [cancelled] and [disposed] are the
    host's record of the sources on which [cancel()] and [dispose()] were
    called; [next_cts] is the next fresh source. *)
Record t : Type := mk {
  inFlightRequests : gmap string nat;
  cancelled : gset nat;
  disposed : gset nat;
  next_cts : nat;
}.

Definition empty : t :=
  {| inFlightRequests := ∅; cancelled := ∅; disposed := ∅; next_cts := 0 |}.

(** [cancel(resource)] *)
Definition cancel (resource : Uri) (st : t) : t :=
  match ResourceMap.get resource (inFlightRequests st) with
  | Some existing =>
      {| inFlightRequests := ResourceMap.delete resource (inFlightRequests st);
         cancelled := {[existing]} ∪ cancelled st;
         disposed := disposed st;
         next_cts := next_cts st |}
  | None => st
  end.

(** The two lines [const cts = new CancellationTokenSource(); ...set(resource, entry)]. *)
Definition record_entry (resource : Uri) (st : t) : nat * t :=
  let entry := next_cts st in
  (entry,
   {| inFlightRequests := ResourceMap.set resource entry (inFlightRequests st);
      cancelled := cancelled st;
      disposed := disposed st;
      next_cts := S entry |}).

(** [trigger(resource, compute)] up to the call [compute(cts.token)]. *)
Definition trigger_begin (resource : Uri) (st : t) : nat * t :=
  record_entry resource (cancel resource st).

(** The [finally] block of [trigger], run when [compute] settles. *)
Definition trigger_finally (resource : Uri) (entry : nat) (st : t) : t :=
  {| inFlightRequests :=
       if decide (ResourceMap.get resource (inFlightRequests st) = Some entry)
       then ResourceMap.delete resource (inFlightRequests st)
       else inFlightRequests st;
     cancelled := cancelled st;
     disposed := {[entry]} ∪ disposed st;
     next_cts := next_cts st |}.

(** [clear()]: every recorded source is disposed (not cancelled). *)
Definition clear (st : t) : t :=
  {| inFlightRequests := ∅;
     cancelled := cancelled st;
     disposed := map_img (inFlightRequests st) ∪ disposed st;
     next_cts := next_cts st |}.

(** *** Runs of the table

    A run interleaves the calls the manager makes.  [running] is the
    bookkeeping of the proof: the computations whose [compute] promise has not
    settled yet, each with the string form of its resource. *)
Inductive event : Type :=
  | EvTrigger (resource : Uri)
  | EvSettle (resource : Uri) (entry : nat)
  | EvCancel (resource : Uri)
  | EvClear.

Record config : Type := mkConfig { table : t; running : gmap nat string }.

Definition init : config := {| table := empty; running := ∅ |}.

(** One call of the manager.  [EvSettle] is the continuation of an earlier
    [trigger]: it runs only for a computation that is still running, with the
    resource that [trigger] was called with. *)
Definition apply_event (ev : event) (c : config) : option config :=
  match ev with
  | EvTrigger resource =>
      let r := trigger_begin resource (table c) in
      Some {| table := r.2; running := <[r.1 := uri_str resource]> (running c) |}
  | EvSettle resource entry =>
      if decide (running c !! entry = Some (uri_str resource))
      then Some {| table := trigger_finally resource entry (table c);
                   running := base.delete entry (running c) |}
      else None
  | EvCancel resource =>
      Some {| table := cancel resource (table c); running := running c |}
  | EvClear =>
      Some {| table := clear (table c); running := running c |}
  end.

Definition run (evs : list event) (c : config) : option config :=
  foldl (λ oc ev, oc ≫= apply_event ev) (Some c) evs.


(** Every recorded entry belongs to a computation that is still running for
    that very resource, and its token is neither cancelled nor disposed. *)
Definition recorded_ok (c : config) : Prop :=
  ∀ key entry,
    inFlightRequests (table c) !! key = Some entry →
    running c !! entry = Some key ∧
    (entry ∉ cancelled (table c)) ∧ (entry ∉ disposed (table c)).

Definition fresh_ok (c : config) : Prop :=
  (∀ entry key, running c !! entry = Some key → entry < next_cts (table c)) ∧
  (∀ entry, entry ∈ cancelled (table c) → entry < next_cts (table c)) ∧
  (∀ entry, entry ∈ disposed (table c) → entry < next_cts (table c)).




(** *** Facts about single calls *)

Lemma cancel_lookup resource st key :
  inFlightRequests (cancel resource st) !! key =
  if decide (uri_str resource = key) then None else inFlightRequests st !! key.
Proof.
  unfold cancel, ResourceMap.get, ResourceMap.delete.
  destruct (inFlightRequests st !! uri_str resource) eqn:E; simpl.
  - by rewrite lookup_delete.
  - destruct (decide (uri_str resource = key)); by subst.
Qed.

Lemma cancel_cancelled resource st entry :
  entry ∈ cancelled (cancel resource st) ↔
  entry ∈ cancelled st ∨ inFlightRequests st !! uri_str resource = Some entry.
Proof.
  unfold cancel, ResourceMap.get.
  destruct (inFlightRequests st !! uri_str resource) eqn:E; simpl.
  - rewrite elem_of_union, elem_of_singleton. naive_solver.
  - naive_solver.
Qed.

Lemma cancel_disposed resource st : disposed (cancel resource st) = disposed st.
Proof. unfold cancel. by destruct (ResourceMap.get _ _). Qed.

Lemma cancel_next resource st : next_cts (cancel resource st) = next_cts st.
Proof. unfold cancel. by destruct (ResourceMap.get _ _). Qed.

Lemma trigger_finally_lookup resource entry st key :
  inFlightRequests (trigger_finally resource entry st) !! key =
  if decide (uri_str resource = key ∧ inFlightRequests st !! key = Some entry)
  then None else inFlightRequests st !! key.
Proof.
  unfold trigger_finally, ResourceMap.get, ResourceMap.delete. simpl.
  destruct (decide (inFlightRequests st !! uri_str resource = Some entry)) as [E|E].
  - rewrite lookup_delete.
    destruct (decide (uri_str resource = key)) as [<-|Hne].
    + by rewrite decide_True.
    + rewrite decide_False; [done | naive_solver].
  - rewrite decide_False; [done | intros [<- ?]; done].
Qed.

Lemma trigger_finally_cancelled resource entry st :
  cancelled (trigger_finally resource entry st) = cancelled st.
Proof. reflexivity. Qed.

Lemma trigger_finally_disposed resource entry st :
  disposed (trigger_finally resource entry st) = {[entry]} ∪ disposed st.
Proof. reflexivity. Qed.

Lemma trigger_finally_next resource entry st :
  next_cts (trigger_finally resource entry st) = next_cts st.
Proof. reflexivity. Qed.

Lemma clear_disposed st entry :
  entry ∈ disposed (clear st) ↔
  entry ∈ disposed st ∨ ∃ key, inFlightRequests st !! key = Some entry.
Proof.
  unfold clear; simpl. rewrite elem_of_union, elem_of_map_img. naive_solver.
Qed.

(** *** Invariants of a run *)

Lemma run_snoc evs ev c :
  run (evs ++ [ev]) c = run evs c ≫= apply_event ev.
Proof. unfold run. by rewrite foldl_app. Qed.

Lemma trigger_begin_entry resource st :
  (trigger_begin resource st).1 = next_cts st.
Proof. unfold trigger_begin, record_entry; simpl. apply cancel_next. Qed.

Lemma trigger_begin_lookup resource st key :
  inFlightRequests (trigger_begin resource st).2 !! key =
  if decide (uri_str resource = key) then Some (next_cts st)
  else inFlightRequests st !! key.
Proof.
  unfold trigger_begin, record_entry, ResourceMap.set; simpl.
  rewrite lookup_insert, cancel_next, cancel_lookup.
  by destruct (decide (uri_str resource = key)).
Qed.

Lemma trigger_begin_cancelled resource st entry :
  entry ∈ cancelled (trigger_begin resource st).2 ↔
  entry ∈ cancelled st ∨ inFlightRequests st !! uri_str resource = Some entry.
Proof. unfold trigger_begin, record_entry; simpl. apply cancel_cancelled. Qed.

Lemma trigger_begin_disposed resource st :
  disposed (trigger_begin resource st).2 = disposed st.
Proof. unfold trigger_begin, record_entry; simpl. apply cancel_disposed. Qed.

Lemma trigger_begin_next resource st :
  next_cts (trigger_begin resource st).2 = S (next_cts st).
Proof. unfold trigger_begin, record_entry; simpl. by rewrite cancel_next. Qed.

Definition inv (c : config) : Prop := recorded_ok c ∧ fresh_ok c.

Lemma inv_init : inv init.
Proof.
  unfold inv, recorded_ok, fresh_ok, init, empty; simpl; split; [|repeat split].
  - intros key entry. by rewrite lookup_empty.
  - intros entry key. by rewrite lookup_empty.
  - intros entry. by rewrite elem_of_empty.
  - intros entry. by rewrite elem_of_empty.
Qed.

Lemma inv_step ev c c' : apply_event ev c = Some c' → inv c → inv c'.
Proof.
  intros Hstep [Hrec (Hrun & Hcan & Hdis)].
  destruct ev as [resource|resource entry|resource|];
    cbn beta iota zeta delta [apply_event] in Hstep.
  - (* trigger *)
    apply (inj Some) in Hstep as <-.
    unfold inv, recorded_ok, fresh_ok; cbn [table running]; split; [|repeat split].
    + intros key e. rewrite trigger_begin_lookup, trigger_begin_entry,
        trigger_begin_disposed, trigger_begin_cancelled.
      destruct (decide (uri_str resource = key)) as [<-|Hne].
      * intros [= <-]. rewrite lookup_insert_eq. split; [done|]. split.
        -- intros [H%Hcan|H%Hrec]; [lia|]. destruct H as [H%Hrun _]. lia.
        -- intros H%Hdis. lia.
      * intros He. destruct (Hrec _ _ He) as (Hr & Hc & Hd).
        rewrite lookup_insert_ne; [|apply Hrun in Hr; lia].
        split; [done|]. split; [|done].
        intros [?|H']; [done|]. apply Hrec in H' as [H' _]. congruence.
    + intros e key. rewrite trigger_begin_entry, trigger_begin_next, lookup_insert.
      destruct (decide (next_cts (table c) = e)); [lia|]. intros H%Hrun. lia.
    + intros e. rewrite trigger_begin_next, trigger_begin_cancelled.
      intros [H%Hcan|H%Hrec]; [lia|]. destruct H as [H%Hrun _]. lia.
    + intros e. rewrite trigger_begin_next, trigger_begin_disposed.
      intros H%Hdis. lia.
  - (* settle *)
    destruct (decide (running c !! entry = Some (uri_str resource))) as [Hr|]; [|done].
    apply (inj Some) in Hstep as <-.
    unfold inv, recorded_ok, fresh_ok; cbn [table running].
    rewrite trigger_finally_cancelled, trigger_finally_next.
    setoid_rewrite trigger_finally_disposed.
    split; [|repeat split].
    + intros key e. rewrite trigger_finally_lookup.
      destruct (decide (uri_str resource = key ∧ _)) as [|Hn]; [done|].
      intros He. destruct (Hrec _ _ He) as (Hr' & Hc & Hd).
      assert (e ≠ entry) as Hne.
      { intros ->. apply Hn. split; congruence. }
      rewrite lookup_delete_ne by done. split; [done|]. split; [done|].
      rewrite elem_of_union, elem_of_singleton. naive_solver.
    + intros e key. rewrite lookup_delete.
      destruct (decide (entry = e)); [done|]. apply Hrun.
    + done.
    + intros e. rewrite elem_of_union, elem_of_singleton.
      intros [->|H%Hdis]; [by apply Hrun in Hr | done].
  - (* cancel *)
    apply (inj Some) in Hstep as <-.
    unfold inv, recorded_ok, fresh_ok; cbn [table running]; split; [|repeat split].
    + intros key e. rewrite cancel_lookup, cancel_disposed, cancel_cancelled.
      destruct (decide (uri_str resource = key)) as [|Hne]; [done|].
      intros He. destruct (Hrec _ _ He) as (Hr & Hc & Hd).
      split; [done|]. split; [|done].
      intros [?|H']; [done|]. apply Hrec in H' as [H' _]. congruence.
    + intros e key. rewrite cancel_next. apply Hrun.
    + intros e. rewrite cancel_next, cancel_cancelled.
      intros [H%Hcan|H%Hrec]; [lia|]. destruct H as [H%Hrun _]. lia.
    + intros e. rewrite cancel_next, cancel_disposed. apply Hdis.
  - (* clear *)
    apply (inj Some) in Hstep as <-.
    unfold inv, recorded_ok, fresh_ok; cbn [table running].
    split; [|repeat split].
    + intros key e. unfold clear; simpl. by rewrite lookup_empty.
    + done.
    + done.
    + intros e. rewrite clear_disposed.
      intros [H%Hdis|[key H%Hrec]]; [done|]. destruct H as [H%Hrun _]. done.
Qed.

Lemma inv_run evs c : run evs init = Some c → inv c.
Proof.
  revert c. induction evs as [|ev evs IH] using rev_ind; intros c.
  - intros [= <-]. apply inv_init.
  - rewrite run_snoc. destruct (run evs init) as [c0|] eqn:E; [|done].
    simpl. intros Hstep. eapply inv_step; eauto.
Qed.







(** A run with two requests for one resource, made through two [Uri]
    objects, followed by the settling of the first one. *)
Definition example_a1 : Uri := {| uri_obj := 1; uri_str := "file:///a.md" |}.
Definition example_a2 : Uri := {| uri_obj := 2; uri_str := "file:///a.md" |}.

(** [clear] drops the recorded requests without cancelling them: after it, a
    computation started earlier is still running with an un-cancelled token
    while the table records the request of a later [trigger]. *)
Example clear_keeps_computations_running :
  run [EvTrigger example_a1; EvClear; EvTrigger example_a2] init
  = Some {| table := {| inFlightRequests := {[ "file:///a.md" := 1 ]};
                        cancelled := ∅; disposed := {[ 0 ]}; next_cts := 2 |};
            running := {[ 0 := "file:///a.md"; 1 := "file:///a.md" ]} |}.
Proof. vm_compute. reflexivity. Qed.




End Inflight.

(** ** Links, as [documentLinkProvider] hands them to the diagnostics code *)

(** Modelled from the spec: positions, ranges and the link types ([LinkHref],
    [MdLinkSource], [MdLink]) are declared by the host and by
    [documentLinkProvider], whose source this development does not have; they
    are given with the fields [diagnostics.ts] reads. *)
Record Position : Type := mkPosition { line : nat; character : nat }.

Record Range : Type := mkRange { range_start : Position; range_end : Position }.

Inductive LinkHref : Type :=
  | ExternalHref (uri : Uri)
  | InternalHref (path : Uri) (fragment : string)
  | ReferenceHref (ref : string).

Record MdLinkSource : Type := mkSource {
  text : string;
  pathText : string;
  hrefRange : Range;
  fragmentRange : option Range;
}.

Record MdLink : Type := mkLink { source : MdLinkSource; href : LinkHref }.

(** [links.filter(link => link.href.kind === 'internal').map(link => link.href.path)] *)
Definition internalPaths (links : list MdLink) : list Uri :=
  omap (λ link, match href link with
                | InternalHref path _ => Some path
                | _ => None
                end) links.

(** ** JavaScript [Set] of objects: insertion order, members compared by identity *)

Module JsSet.
Section ops.
Context {A : Type} `{EqDecision A}.

Definition add (x : A) (s : list A) : list A :=
  if decide (x ∈ s) then s else s ++ [x].

Definition delete (x : A) (s : list A) : list A :=
  filter (λ y, y ≠ x) s.

(** [new Set(array)] *)
Definition of_list (l : list A) : list A := foldl (λ s x, add x s) [] l.

Lemma elem_of_add x y s : y ∈ add x s ↔ y = x ∨ y ∈ s.
Proof.
  unfold add. destruct (decide (x ∈ s)).
  - naive_solver.
  - rewrite elem_of_app, list_elem_of_singleton. naive_solver.
Qed.

Lemma NoDup_add x s : NoDup s → NoDup (add x s).
Proof.
  unfold add. destruct (decide (x ∈ s)) as [|Hn]; [done|].
  intros Hs. apply NoDup_app. split; [done|]. split.
  - intros y Hy [->|[]%elem_of_nil]%elem_of_cons. done.
  - apply NoDup_singleton.
Qed.

Lemma elem_of_delete x y s : y ∈ delete x s ↔ y ≠ x ∧ y ∈ s.
Proof. unfold delete. by rewrite list_elem_of_filter. Qed.

Lemma NoDup_delete x s : NoDup s → NoDup (delete x s).
Proof. unfold delete. apply NoDup_filter. Qed.

Lemma foldl_add_spec l s :
  (∀ y, y ∈ foldl (λ s x, add x s) s l ↔ y ∈ s ∨ y ∈ l) ∧
  (NoDup s → NoDup (foldl (λ s x, add x s) s l)).
Proof.
  revert s. induction l as [|x l IH]; intros s; simpl.
  - split; [|done]. intros y. rewrite elem_of_nil. naive_solver.
  - destruct (IH (add x s)) as [IH1 IH2]. split.
    + intros y. rewrite IH1, elem_of_add, elem_of_cons. naive_solver.
    + intros Hs. by apply IH2, NoDup_add.
Qed.

Lemma elem_of_of_list l y : y ∈ of_list l ↔ y ∈ l.
Proof.
  unfold of_list. destruct (foldl_add_spec l []) as [H _].
  rewrite H, elem_of_nil. naive_solver.
Qed.

Lemma NoDup_of_list l : NoDup (of_list l).
Proof.
  unfold of_list. destruct (foldl_add_spec l []) as [_ H]. apply H, NoDup_nil_2.
Qed.

End ops.
End JsSet.

(** ** [LinkWatcher] *)

Module LinkWatcher.

(** An entry of [_watchers]: the file watcher started for the link path and
    the documents that reference the path, keyed by their string form. *)
Record entry : Type := mkEntry {
  watcher : nat;
  documents : gmap string Uri;
}.

(** [_watchers] with the host's side of the watchers: [next_watcher] is the
    next watcher [startWatching] creates, [disposedWatchers] the watchers on
    which [dispose()] was called. *)
Record t : Type := mk {
  _watchers : gmap string entry;
  next_watcher : nat;
  disposedWatchers : gset nat;
}.

Definition empty : t :=
  {| _watchers := ∅; next_watcher := 0; disposedWatchers := ∅ |}.

(** First loop: [entry.documents.delete(document)] on every entry. *)
Definition forgetDocument (document : Uri) (st : t) : t :=
  {| _watchers :=
       (λ e, {| watcher := watcher e;
                documents := ResourceMap.delete document (documents e) |})
       <$> _watchers st;
     next_watcher := next_watcher st;
     disposedWatchers := disposedWatchers st |}.

(** Body of the second loop, for one [path] of [linkedToResource]. *)
Definition watchPath (document : Uri) (st : t) (path : Uri) : t :=
  match ResourceMap.get path (_watchers st) with
  | Some e =>
      {| _watchers :=
           ResourceMap.set path
             {| watcher := watcher e;
                documents := ResourceMap.set document document (documents e) |}
             (_watchers st);
         next_watcher := next_watcher st;
         disposedWatchers := disposedWatchers st |}
  | None =>
      {| _watchers :=
           ResourceMap.set path
             {| watcher := next_watcher st;
                documents := ResourceMap.set document document ∅ |}
             (_watchers st);
         next_watcher := S (next_watcher st);
         disposedWatchers := disposedWatchers st |}
  end.

Definition unreferenced (e : entry) : Prop := size (documents e) = 0.

#[global] Instance unreferenced_dec e : Decision (unreferenced e).
Proof. unfold unreferenced. apply _. Defined.

(** Third loop: dispose and drop the entries no document references. *)
Definition cleanUp (st : t) : t :=
  {| _watchers := filter (λ kv, ¬ unreferenced kv.2) (_watchers st);
     next_watcher := next_watcher st;
     disposedWatchers :=
       map_img (watcher <$> filter (λ kv, unreferenced kv.2) (_watchers st))
       ∪ disposedWatchers st |}.

Definition updateLinksForDocument (document : Uri) (links : list MdLink) (st : t) : t :=
  let linkedToResource := JsSet.of_list (internalPaths links) in
  cleanUp (foldl (watchPath document) (forgetDocument document st) linkedToResource).

Definition deleteDocument (resource : Uri) (st : t) : t :=
  updateLinksForDocument resource [] st.

(** [onLinkedResourceChanged(resource)]: the payload of
    [onDidChangeLinkedToFile] when the event fires, [None] when it does not. *)
Definition onLinkedResourceChanged (resource : Uri) (st : t) : option (list Uri) :=
  match ResourceMap.get resource (_watchers st) with
  | Some e => Some (map snd (map_to_list (documents e)))
  | None => None
  end.

(** Calls made on the watcher, and what each document reported last. *)
Inductive call : Type :=
  | UpdateLinks (document : Uri) (links : list MdLink)
  | DeleteDocument (resource : Uri).

Definition call_document (c : call) : Uri :=
  match c with UpdateLinks d _ => d | DeleteDocument d => d end.

Definition call_links (c : call) : list MdLink :=
  match c with UpdateLinks _ links => links | DeleteDocument _ => [] end.

Definition apply_call (st : t) (c : call) : t :=
  match c with
  | UpdateLinks d links => updateLinksForDocument d links st
  | DeleteDocument d => deleteDocument d st
  end.

Definition run (calls : list call) : t := foldl apply_call empty calls.

(** The links last reported for the document with string form [doc]. *)
Definition lastReported (calls : list call) (doc : string) : list MdLink :=
  foldl (λ acc c, if decide (uri_str (call_document c) = doc)
                  then call_links c else acc) [] calls.

(** The string forms of the internal link paths of [links]. *)
Definition linkedPaths (links : list MdLink) : list string :=
  uri_str <$> internalPaths links.

(** Some link of [links] is an internal link to the path with string form
    [p]. *)
Definition linksTo (links : list MdLink) (p : string) : Prop :=
  ∃ mdLink path fragment,
    mdLink ∈ links ∧ href mdLink = InternalHref path fragment ∧ uri_str path = p.

(** Document [d] is among the documents of the entry watched at path [p]. *)
Definition references (st : t) (p d : string) : Prop :=
  ∃ e, _watchers st !! p = Some e ∧ is_Some (documents e !! d).

(** The bookkeeping of watchers: every entry holds a watcher of its own that
    was started and not disposed, every started watcher is either held by an
    entry or disposed, and documents are stored under their string form. *)
Record watchers_ok (st : t) : Prop := {
  ok_keyed : ∀ p e d u,
    _watchers st !! p = Some e → documents e !! d = Some u → uri_str u = d;
  ok_bound : ∀ p e, _watchers st !! p = Some e → watcher e < next_watcher st;
  ok_live : ∀ p e, _watchers st !! p = Some e → watcher e ∉ disposedWatchers st;
  ok_inj : ∀ p1 p2 e1 e2,
    _watchers st !! p1 = Some e1 → _watchers st !! p2 = Some e2 →
    watcher e1 = watcher e2 → p1 = p2;
  ok_accounted : ∀ w, w < next_watcher st →
    w ∈ disposedWatchers st ∨ ∃ p e, _watchers st !! p = Some e ∧ watcher e = w;
  ok_disposed : ∀ w, w ∈ disposedWatchers st → w < next_watcher st;
}.

Definition referenced (st : t) : Prop :=
  ∀ p e, _watchers st !! p = Some e → documents e ≠ ∅.

(** *** The three loops, one at a time *)

Lemma forgetDocument_lookup document st p :
  _watchers (forgetDocument document st) !! p =
  (λ e, {| watcher := watcher e;
           documents := base.delete (uri_str document) (documents e) |})
  <$> _watchers st !! p.
Proof. unfold forgetDocument; simpl. by rewrite lookup_fmap. Qed.

Lemma forgetDocument_ok document st :
  watchers_ok st → watchers_ok (forgetDocument document st).
Proof.
  intros [Hk Hb Hl Hi Ha Hd].
  split; change (next_watcher (forgetDocument document st)) with (next_watcher st);
    change (disposedWatchers (forgetDocument document st)) with (disposedWatchers st).
  - intros p e d u. rewrite forgetDocument_lookup, fmap_Some.
    intros (e0 & He0 & ->); simpl. rewrite lookup_delete_Some. intros [_ ?]. eauto.
  - intros p e. rewrite forgetDocument_lookup, fmap_Some.
    intros (e0 & He0 & ->); simpl. eauto.
  - intros p e. rewrite forgetDocument_lookup, fmap_Some.
    intros (e0 & He0 & ->); simpl. eauto.
  - intros p1 p2 e1 e2. rewrite !forgetDocument_lookup, !fmap_Some.
    intros (e1' & H1 & ->) (e2' & H2 & ->); simpl. eauto.
  - intros w Hw. destruct (Ha w Hw) as [?|(p & e & He & <-)]; [by left|right].
    exists p. eexists. rewrite forgetDocument_lookup, He. simpl. eauto.
  - done.
Qed.

Lemma forgetDocument_references document st p d :
  references (forgetDocument document st) p d ↔
  references st p d ∧ d ≠ uri_str document.
Proof.
  unfold references. split.
  - intros (e & He & Hd). rewrite forgetDocument_lookup, fmap_Some in He.
    destruct He as (e0 & He0 & ->). simpl in Hd.
    destruct Hd as [u Hu]. apply lookup_delete_Some in Hu as [Hne Hu].
    split; [exists e0; eauto | done].
  - intros [(e & He & [u Hu]) Hne].
    eexists. rewrite forgetDocument_lookup, He. simpl. split; [done|].
    exists u. simpl. by rewrite lookup_delete_ne.
Qed.

Lemma watchPath_lookup document st path p :
  _watchers (watchPath document st path) !! p =
  if decide (uri_str path = p)
  then Some {| watcher := from_option watcher (next_watcher st) (_watchers st !! p);
               documents := <[uri_str document := document]>
                              (from_option documents ∅ (_watchers st !! p)) |}
  else _watchers st !! p.
Proof.
  unfold watchPath, ResourceMap.get, ResourceMap.set.
  destruct (decide (uri_str path = p)) as [<-|Hne].
  - destruct (_watchers st !! uri_str path) as [e|]; simpl; by rewrite lookup_insert_eq.
  - destruct (_watchers st !! uri_str path) as [e|]; simpl; by rewrite lookup_insert_ne.
Qed.

Lemma watchPath_next document st path :
  next_watcher st ≤ next_watcher (watchPath document st path).
Proof.
  unfold watchPath. destruct (ResourceMap.get path (_watchers st)); simpl; lia.
Qed.

Lemma watchPath_disposed document st path :
  disposedWatchers (watchPath document st path) = disposedWatchers st.
Proof. unfold watchPath. by destruct (ResourceMap.get path (_watchers st)). Qed.

Lemma watchPath_references document st path p d :
  references (watchPath document st path) p d ↔
  references st p d ∨ (p = uri_str path ∧ d = uri_str document).
Proof.
  unfold references. rewrite watchPath_lookup.
  destruct (decide (uri_str path = p)) as [<-|Hne].
  - split.
    + intros (e & [= <-] & Hd). simpl in Hd.
      destruct (decide (uri_str document = d)) as [<-|Hnd]; [by right|left].
      rewrite lookup_insert_ne in Hd by done.
      destruct (_watchers st !! uri_str path) as [e|]; simpl in *.
      * eauto.
      * rewrite lookup_empty in Hd. by destruct Hd.
    + intros [(e & He & Hd)|[_ ->]].
      * eexists. split; [done|]. rewrite He. simpl.
        destruct (decide (uri_str document = d)) as [<-|Hnd].
        -- rewrite lookup_insert_eq. eauto.
        -- by rewrite lookup_insert_ne.
      * eexists. split; [done|]. simpl. rewrite lookup_insert_eq. eauto.
  - split; [eauto|]. intros [?|[-> _]]; done.
Qed.

Lemma watchPath_ok document st path :
  watchers_ok st → watchers_ok (watchPath document st path).
Proof.
  intros [Hk Hb Hl Hi Ha Hd].
  unfold watchPath, ResourceMap.get, ResourceMap.set.
  destruct (_watchers st !! uri_str path) as [e0|] eqn:E; split; simpl.
  - intros p e d u [[<- <-]|[_ He]]%lookup_insert_Some; [|by eauto]. simpl.
    intros [[<- <-]|[_ Hu]]%lookup_insert_Some; [done|by eauto].
  - intros p e [[<- <-]|[_ He]]%lookup_insert_Some; simpl; eauto.
  - intros p e [[<- <-]|[_ He]]%lookup_insert_Some; simpl; eauto.
  - intros p1 p2 e1 e2 [[<- <-]|[? H1]]%lookup_insert_Some
      [[<- <-]|[? H2]]%lookup_insert_Some; simpl; eauto.
  - intros w Hw. destruct (Ha w Hw) as [?|(p & e & He & <-)]; [by left|right].
    destruct (decide (uri_str path = p)) as [<-|Hne].
    + eexists _, _. rewrite lookup_insert_eq. split; [done|]. simpl. congruence.
    + exists p, e. by rewrite lookup_insert_ne.
  - done.
  - intros p e d u [[<- <-]|[_ He]]%lookup_insert_Some; [|by eauto]. simpl.
    intros [[<- <-]|[_ Hu]]%lookup_insert_Some; [done|]. by rewrite lookup_empty in Hu.
  - intros p e [[<- <-]|[_ He]]%lookup_insert_Some; simpl; [lia|].
    apply Hb in He. lia.
  - intros p e [[<- <-]|[_ He]]%lookup_insert_Some; simpl; [|by eauto].
    intros H%Hd. lia.
  - intros p1 p2 e1 e2 [[<- <-]|[? H1]]%lookup_insert_Some
      [[<- <-]|[? H2]]%lookup_insert_Some; simpl; [done| | |by eauto].
    + intros Hw. apply Hb in H2. lia.
    + intros Hw. apply Hb in H1. lia.
  - intros w Hw. destruct (decide (w = next_watcher st)) as [->|Hne].
    + right. eexists _, _. by rewrite lookup_insert_eq.
    + destruct (Ha w) as [?|(p & e & He & <-)]; [lia|by left|right].
      exists p, e. rewrite lookup_insert_ne; [done|]. intros <-. congruence.
  - intros w H%Hd. lia.
Qed.

Lemma watchPaths_ok document paths st :
  watchers_ok st → watchers_ok (foldl (watchPath document) st paths).
Proof.
  revert st. induction paths as [|path paths IH]; intros st Hok; simpl; [done|].
  apply IH. by apply watchPath_ok.
Qed.

Lemma watchPaths_references document paths st p d :
  references (foldl (watchPath document) st paths) p d ↔
  references st p d ∨ (p ∈ uri_str <$> paths ∧ d = uri_str document).
Proof.
  revert st. induction paths as [|path paths IH]; intros st; simpl.
  - rewrite elem_of_nil. naive_solver.
  - rewrite IH, watchPath_references, elem_of_cons. naive_solver.
Qed.

Lemma cleanUp_lookup st p e :
  _watchers (cleanUp st) !! p = Some e ↔
  _watchers st !! p = Some e ∧ documents e ≠ ∅.
Proof.
  unfold cleanUp; simpl. rewrite map_lookup_filter_Some. simpl.
  unfold unreferenced. by rewrite map_size_empty_iff.
Qed.

Lemma cleanUp_disposed st w :
  w ∈ disposedWatchers (cleanUp st) ↔
  w ∈ disposedWatchers st ∨
  ∃ p e, _watchers st !! p = Some e ∧ documents e = ∅ ∧ watcher e = w.
Proof.
  unfold cleanUp; simpl. rewrite elem_of_union, elem_of_map_img.
  setoid_rewrite lookup_fmap_Some. setoid_rewrite map_lookup_filter_Some.
  unfold unreferenced; simpl. setoid_rewrite map_size_empty_iff.
  naive_solver.
Qed.

Lemma cleanUp_ok st : watchers_ok st → watchers_ok (cleanUp st).
Proof.
  intros [Hk Hb Hl Hi Ha Hd]. split.
  - intros p e d u [He _]%cleanUp_lookup. eauto.
  - intros p e [He _]%cleanUp_lookup. by apply (Hb p).
  - intros p e [He Hne]%cleanUp_lookup.
    rewrite cleanUp_disposed. intros [H|(p' & e' & He' & Hemp & Hw)].
    + by apply (Hl p e).
    + assert (p' = p) as -> by eauto. congruence.
  - intros p1 p2 e1 e2 [H1 _]%cleanUp_lookup [H2 _]%cleanUp_lookup. eauto.
  - intros w Hw. destruct (Ha w Hw) as [?|(p & e & He & <-)].
    + left. apply cleanUp_disposed. by left.
    + destruct (decide (documents e = ∅)) as [Hemp|Hne].
      * left. apply cleanUp_disposed. right. eauto.
      * right. exists p, e. by rewrite cleanUp_lookup.
  - intros w. rewrite cleanUp_disposed.
    intros [H|(p & e & He & _ & <-)]; [by apply Hd | by apply (Hb p)].
Qed.

Lemma cleanUp_referenced st : referenced (cleanUp st).
Proof. intros p e [_ ?]%cleanUp_lookup. done. Qed.

Lemma cleanUp_references st p d :
  references (cleanUp st) p d ↔ references st p d.
Proof.
  unfold references. split.
  - intros (e & [He _]%cleanUp_lookup & Hd). eauto.
  - intros (e & He & Hd). exists e. split; [|done].
    apply cleanUp_lookup. split; [done|]. intros Hemp.
    rewrite Hemp, lookup_empty in Hd. by destruct Hd.
Qed.

(** *** One call, then every run *)

Lemma updateLinksForDocument_ok document links st :
  watchers_ok st → watchers_ok (updateLinksForDocument document links st).
Proof.
  intros Hok. unfold updateLinksForDocument.
  by apply cleanUp_ok, watchPaths_ok, forgetDocument_ok.
Qed.

Lemma updateLinksForDocument_references document links st p d :
  references (updateLinksForDocument document links st) p d ↔
  if decide (uri_str document = d) then p ∈ linkedPaths links
  else references st p d.
Proof.
  unfold updateLinksForDocument.
  rewrite cleanUp_references, watchPaths_references, forgetDocument_references.
  assert (p ∈ uri_str <$> JsSet.of_list (internalPaths links) ↔ p ∈ linkedPaths links)
    as ->.
  { unfold linkedPaths. rewrite !list_elem_of_fmap.
    by setoid_rewrite JsSet.elem_of_of_list. }
  destruct (decide (uri_str document = d)) as [<-|Hne]; naive_solver.
Qed.

Lemma run_calls_snoc calls c : run (calls ++ [c]) = apply_call (run calls) c.
Proof. unfold run. by rewrite foldl_app. Qed.

Lemma lastReported_snoc calls c doc :
  lastReported (calls ++ [c]) doc =
  if decide (uri_str (call_document c) = doc) then call_links c
  else lastReported calls doc.
Proof. unfold lastReported. by rewrite foldl_app. Qed.

Lemma apply_call_update st c :
  apply_call st c = updateLinksForDocument (call_document c) (call_links c) st.
Proof. by destruct c. Qed.

Lemma run_ok calls : watchers_ok (run calls).
Proof.
  induction calls as [|c calls IH] using rev_ind.
  - split; unfold run, empty; simpl; try (intros *; by rewrite lookup_empty).
    + intros w Hw. lia.
    + intros w. by rewrite elem_of_empty.
  - rewrite run_calls_snoc, apply_call_update. by apply updateLinksForDocument_ok.
Qed.

Lemma run_referenced calls : referenced (run calls).
Proof.
  destruct calls as [|c calls _] using rev_ind.
  - intros p e. unfold run, empty; simpl. by rewrite lookup_empty.
  - rewrite run_calls_snoc, apply_call_update. apply cleanUp_referenced.
Qed.

Lemma run_references calls p d :
  references (run calls) p d ↔ p ∈ linkedPaths (lastReported calls d).
Proof.
  induction calls as [|c calls IH] using rev_ind.
  - unfold references, run, empty, lastReported, linkedPaths; simpl.
    rewrite elem_of_nil. split; [|done]. intros (e & He & _).
    by rewrite lookup_empty in He.
  - rewrite run_calls_snoc, apply_call_update, lastReported_snoc,
      updateLinksForDocument_references.
    by destruct (decide (uri_str (call_document c) = d)).
Qed.



Lemma linkedPaths_linksTo links p : p ∈ linkedPaths links ↔ linksTo links p.
Proof.
  unfold linkedPaths, internalPaths, linksTo. rewrite list_elem_of_fmap. split.
  - intros (path & -> & (mdLink & Hin & Hhref)%list_elem_of_omap).
    destruct (href mdLink) as [|path' fragment|] eqn:E; [done| |done].
    injection Hhref as ->. by exists mdLink, path, fragment.
  - intros (mdLink & path & fragment & Hin & Hhref & <-).
    exists path. split; [done|]. apply list_elem_of_omap.
    exists mdLink. split; [done|]. by rewrite Hhref.
Qed.

(** C10.  After any sequence of [updateLinksForDocument] and
    [deleteDocument] calls on a fresh watcher: every retained entry has at
    least one referencing document; a path is watched exactly when the links
    some document reported last hold an internal link to it; the documents of
    an entry are exactly the documents whose last report holds an internal
    link to its path; every entry holds a file watcher of its own that was
    started and is not disposed; and a started file watcher is disposed
    exactly when no retained entry holds it. *)
Theorem watched_paths_are_reported_links (calls : list call) :
  let st := run calls in
  (∀ p e, _watchers st !! p = Some e → 1 ≤ size (documents e)) ∧
  (∀ p, p ∈ dom (_watchers st) ↔
        ∃ d mdLink path fragment,
          mdLink ∈ lastReported calls d ∧
          href mdLink = InternalHref path fragment ∧ uri_str path = p) ∧
  (∀ p e d, _watchers st !! p = Some e →
     (is_Some (documents e !! d) ↔
      ∃ mdLink path fragment,
        mdLink ∈ lastReported calls d ∧
        href mdLink = InternalHref path fragment ∧ uri_str path = p)) ∧
  (∀ w, w < next_watcher st →
     (w ∈ disposedWatchers st ↔
      ¬ ∃ p e, _watchers st !! p = Some e ∧ watcher e = w)) ∧
  (∀ p e, _watchers st !! p = Some e →
     watcher e < next_watcher st ∧ watcher e ∉ disposedWatchers st) ∧
  (∀ p1 p2 e1 e2, _watchers st !! p1 = Some e1 → _watchers st !! p2 = Some e2 →
     watcher e1 = watcher e2 → p1 = p2).
Proof.
  intros st.
  pose proof (run_ok calls) as [Hk Hb Hl Hi Ha Hd]. fold st in Hk, Hb, Hl, Hi, Ha, Hd.
  pose proof (run_referenced calls) as Href. fold st in Href.
  assert (∀ p e d, _watchers st !! p = Some e →
     (is_Some (documents e !! d) ↔ linksTo (lastReported calls d) p)) as Hdocs.
  { intros p e d He. rewrite <- linkedPaths_linksTo, <- run_references. fold st.
    unfold references. split; [eauto|]. intros (e' & He' & Hd'). congruence. }
  split; [|split; [|split; [|split; [|split]]]].
  - intros p e He. apply Href in He.
    apply map_size_non_empty_iff in He. lia.
  - intros p. rewrite elem_of_dom. split.
    + intros [e He]. destruct (map_choose _ (Href _ _ He)) as (d & u & Hu).
      exists d. apply (Hdocs p e d He). eauto.
    + intros [d Hd']. apply linkedPaths_linksTo, run_references in Hd'
        as (e & He & _). eauto.
  - exact Hdocs.
  - intros w Hw. split.
    + intros Hdis (p & e & He & <-). by apply (Hl p e).
    + intros Hno. destruct (Ha w Hw) as [?|?]; done.
  - intros p e He. split; [by apply (Hb p e)|by apply (Hl p e)].
  - exact Hi.
Qed.

(** Two documents report links, one of them is closed, the other drops a
    link: the watcher of the path that lost its last document is disposed. *)
Definition example_doc_a : Uri := {| uri_obj := 1; uri_str := "file:///a.md" |}.
Definition example_doc_b : Uri := {| uri_obj := 2; uri_str := "file:///b.md" |}.

Definition example_link (obj : nat) (target : string) : MdLink :=
  {| source := {| text := target; pathText := target;
                  hrefRange := mkRange (mkPosition 0 0) (mkPosition 0 1);
                  fragmentRange := None |};
     href := InternalHref {| uri_obj := obj; uri_str := target |} "" |}.

Example run_example :
  run [ UpdateLinks example_doc_a [example_link 3 "file:///target.md"];
        UpdateLinks example_doc_b [example_link 4 "file:///target.md";
                                   example_link 5 "file:///other.md"];
        DeleteDocument example_doc_a;
        UpdateLinks example_doc_b [example_link 6 "file:///target.md"] ]
  = {| _watchers :=
         {[ "file:///target.md" :=
              {| watcher := 0;
                 documents := {[ "file:///b.md" := example_doc_b ]} |} ]};
       next_watcher := 2;
       disposedWatchers := {[ 1 ]} |}.
Proof. vm_compute. reflexivity. Qed.

Definition example_reports : list call :=
  [ UpdateLinks example_doc_a [example_link 3 "file:///target.md"];
    UpdateLinks example_doc_b [example_link 4 "file:///target.md";
                               example_link 5 "file:///other.md"];
    DeleteDocument example_doc_a ].

(** After the three calls both paths that [b.md] links to are watched. *)
Lemma watched_paths_witness :
  "file:///target.md" ∈ dom (_watchers (run example_reports)) ∧
  "file:///other.md" ∈ dom (_watchers (run example_reports)).
Proof.
  destruct (watched_paths_are_reported_links example_reports) as (_ & Hwatched & _).
  split; apply Hwatched; exists "file:///b.md".
  - exists (example_link 4 "file:///target.md"),
      {| uri_obj := 4; uri_str := "file:///target.md" |}, "".
    split; [|done]. vm_compute. by left.
  - exists (example_link 5 "file:///other.md"),
      {| uri_obj := 5; uri_str := "file:///other.md" |}, "".
    split; [|done]. vm_compute. right. by left.
Defined.

End LinkWatcher.

(** ** Diagnostics and options *)

Inductive DiagnosticLevel : Type := ignore | warning | error.

Inductive DiagnosticSeverity : Type := Error | Warning | Information | Hint.

Module Options.

Record DiagnosticOptions : Type := mk {
  enabled : bool;
  validateReferences : option DiagnosticLevel;
  validateFragmentLinks : option DiagnosticLevel;
  validateFileLinks : option DiagnosticLevel;
  validateMarkdownFileLinkFragments : option DiagnosticLevel;
  ignoreLinks : list string;
}.

End Options.

Abbreviation DiagnosticOptions := Options.DiagnosticOptions.

Definition toSeverity (level : option DiagnosticLevel) : option DiagnosticSeverity :=
  match level with
  | Some error => Some Error
  | Some warning => Some Warning
  | Some ignore => None
  | None => None
  end.

(** A [vscode.Diagnostic]; [link] is the extra field of the subclass
    [LinkDoesNotExistDiagnostic] and is absent on a plain diagnostic. *)
Record Diagnostic : Type := mkDiagnostic {
  range : Range;
  message : string;
  severity : DiagnosticSeverity;
  link : option string;
}.

(** ** [DiagnosticCollectionReporter] *)

Module Reporter.

(** [tab.input]: a text tab carries the resource it shows. *)
Inductive TabInput : Type :=
  | TabInputText (uri : Uri)
  | TabInputOther.

(** [vscode.window.tabGroups.all]: the tabs of every group. *)
Definition TabGroups : Type := list (list TabInput).

(** [pending] maps a resource to the recompute promise last signalled for
    it; [collection] is the host's diagnostics collection. *)
Record t : Type := mk {
  pending : gmap string nat;
  collection : gmap string (list Diagnostic);
}.

Definition empty : t := {| pending := ∅; collection := ∅ |}.

(** [getAllTabResources()]: the two nested loops over groups and tabs. *)
Definition addTab (openedTabDocs : gmap string ()) (tab : TabInput) : gmap string () :=
  match tab with
  | TabInputText uri => ResourceMap.set uri () openedTabDocs
  | TabInputOther => openedTabDocs
  end.

Definition getAllTabResources (tabGroups : TabGroups) : gmap string () :=
  foldl (λ openedTabDocs group, foldl addTab openedTabDocs group) ∅ tabGroups.

(** [set(uri, diagnostics)] *)
Definition set (tabGroups : TabGroups) (uri : Uri) (diagnostics : list Diagnostic)
    (st : t) : t :=
  let tabs := getAllTabResources tabGroups in
  {| pending := pending st;
     collection :=
       <[uri_str uri := if ResourceMap.has uri tabs then diagnostics else []]>
         (collection st) |}.

(** [delete(uri)] *)
Definition delete (uri : Uri) (st : t) : t :=
  {| pending := ResourceMap.delete uri (pending st);
     collection := base.delete (uri_str uri) (collection st) |}.

(** [clear()] *)
Definition clear (st : t) : t := {| pending := ∅; collection := ∅ |}.

(** [signalTriggered(uri, recompute)], up to the settling of [recompute]. *)
Definition signalTriggered (uri : Uri) (recompute : nat) (st : t) : t :=
  {| pending := ResourceMap.set uri recompute (pending st);
     collection := collection st |}.

(** The resource is shown by a text tab of some group. *)
Definition openInTextTab (tabGroups : TabGroups) (uri : Uri) : Prop :=
  ∃ group tabUri,
    group ∈ tabGroups ∧ TabInputText tabUri ∈ group ∧ uri_str tabUri = uri_str uri.

Lemma addTabs_lookup group openedTabDocs key :
  is_Some (foldl addTab openedTabDocs group !! key) ↔
  is_Some (openedTabDocs !! key) ∨
  ∃ tabUri, TabInputText tabUri ∈ group ∧ uri_str tabUri = key.
Proof.
  revert openedTabDocs. induction group as [|tab group IH]; intros m; simpl.
  - setoid_rewrite elem_of_nil. naive_solver.
  - rewrite IH. setoid_rewrite elem_of_cons.
    destruct tab as [uri|]; simpl.
    + unfold ResourceMap.set. rewrite lookup_insert_is_Some'.
      split.
      * intros [[<-|?]|(u & ? & ?)]; eauto 6.
      * intros [?|(u & [[= <-]|?] & ?)]; eauto 6.
    + split.
      * intros [?|(u & ? & ?)]; eauto 6.
      * intros [?|(u & [?|?] & ?)]; [eauto|done|eauto 6].
Qed.

Lemma getAllTabResources_has tabGroups uri :
  ResourceMap.has uri (getAllTabResources tabGroups) = true ↔
  openInTextTab tabGroups uri.
Proof.
  unfold ResourceMap.has, getAllTabResources, openInTextTab.
  rewrite bool_decide_eq_true.
  assert (∀ m : gmap string (),
    is_Some (foldl (λ m group, foldl addTab m group) m tabGroups !! uri_str uri) ↔
    is_Some (m !! uri_str uri) ∨
    ∃ group tabUri, group ∈ tabGroups ∧ TabInputText tabUri ∈ group
                    ∧ uri_str tabUri = uri_str uri) as H.
  { induction tabGroups as [|g gs IH]; intros m; simpl.
    - setoid_rewrite elem_of_nil. naive_solver.
    - rewrite IH, addTabs_lookup. setoid_rewrite elem_of_cons. naive_solver. }
  rewrite H, lookup_empty. split; [|eauto].
  intros [[? [=]]|?]; done.
Qed.

(** C9.  [set] stores the computed diagnostics for the resource when a text
    tab of some tab group shows it, and the empty list when no tab does,
    whatever was computed; other resources keep their diagnostics. *)
Theorem set_publishes_only_for_open_tabs
    (tabGroups : TabGroups) (uri : Uri) (diagnostics : list Diagnostic) (st : t) :
  (openInTextTab tabGroups uri →
   collection (set tabGroups uri diagnostics st) !! uri_str uri = Some diagnostics) ∧
  (¬ openInTextTab tabGroups uri →
   collection (set tabGroups uri diagnostics st) !! uri_str uri = Some []) ∧
  (∀ other, other ≠ uri_str uri →
   collection (set tabGroups uri diagnostics st) !! other = collection st !! other).
Proof.
  unfold set; simpl. split; [|split].
  - intros H%getAllTabResources_has. by rewrite lookup_insert_eq, H.
  - intros H. rewrite lookup_insert_eq.
    destruct (ResourceMap.has _ _) eqn:E; [|done].
    by apply getAllTabResources_has in E.
  - intros other Hne. by rewrite lookup_insert_ne.
Qed.

Example set_example :
  let shown := {| uri_obj := 1; uri_str := "file:///a.md" |} in
  let hidden := {| uri_obj := 2; uri_str := "file:///b.md" |} in
  let d := {| range := mkRange (mkPosition 0 0) (mkPosition 0 1);
              message := "No header found: 'x'"; severity := Warning;
              link := Some "#x" |} in
  let tabGroups := [[TabInputOther]; [TabInputText {| uri_obj := 7; uri_str := "file:///a.md" |}]] in
  collection (set tabGroups hidden [d] (set tabGroups shown [d] empty))
  = {[ "file:///a.md" := [d]; "file:///b.md" := [] ]}.
Proof. vm_compute. reflexivity. Qed.

End Reporter.

(** ** Documents *)

(** Modelled from the spec: [SkinnyTextDocument] is declared in
    [workspaceContents], whose source this development does not have; the
    diagnostics code reads its [uri] only. *)
Record SkinnyTextDocument : Type := mkSkinny {
  uri : Uri;
  version : nat;
}.

(** A [vscode.TextDocument] of [vscode.workspace.textDocuments]. *)
Record TextDocument : Type := mkTextDocument {
  td_uri : Uri;
  languageId : string;
}.

(** ** [Delayer] *)

Module Delayer.

(** Modelled from the spec: the class [Delayer] of [util/async], whose
    source this development does not have; the specification calls the
    pipeline debounced.  A delayer keeps one timer: [trigger] stores the task,
    re-arms the timer with the default delay and hands out the promise of the
    pending run; when the timer elapses the task runs once.  The timer is
    kept by its delay only, so a re-armed timer and the timer it replaces
    are not told apart. *)
Record t : Type := mk {
  defaultDelay : nat;
  timeout : option nat;
  completionPromise : option nat;
  next_promise : nat;
}.

Definition create (delay : nat) : t :=
  {| defaultDelay := delay; timeout := None;
     completionPromise := None; next_promise := 0 |}.

Definition trigger (d : t) : nat * t :=
  match completionPromise d with
  | Some p =>
      (p, {| defaultDelay := defaultDelay d; timeout := Some (defaultDelay d);
             completionPromise := Some p; next_promise := next_promise d |})
  | None =>
      (next_promise d,
       {| defaultDelay := defaultDelay d; timeout := Some (defaultDelay d);
          completionPromise := Some (next_promise d);
          next_promise := S (next_promise d) |})
  end.

(** The timer elapses: the delayer is idle again and its task is run. *)
Definition elapse (d : t) : t :=
  {| defaultDelay := defaultDelay d; timeout := None;
     completionPromise := None; next_promise := next_promise d |}.

End Delayer.

(** ** [DiagnosticManager] *)

Module Manager.

Record t : Type := mk {
  diagnosticDelayer : Delayer.t;
  pendingDiagnostics : list Uri;
  inFlightDiagnostics : Inflight.t;
  linkWatcher : LinkWatcher.t;
  reporter : Reporter.t;
}.

(** The fields as the constructor leaves them; [delay = 300] is the default
    value of the constructor's last parameter. *)
Definition create (delay : option nat) : t :=
  {| diagnosticDelayer := Delayer.create (default 300 delay);
     pendingDiagnostics := [];
     inFlightDiagnostics := Inflight.empty;
     linkWatcher := LinkWatcher.empty;
     reporter := Reporter.empty |}.

(** [triggerDiagnostics(uri)] *)
Definition triggerDiagnostics (uri : Uri) (st : t) : t :=
  let recompute := Delayer.trigger (diagnosticDelayer st) in
  {| diagnosticDelayer := recompute.2;
     pendingDiagnostics := JsSet.add uri (pendingDiagnostics st);
     inFlightDiagnostics := Inflight.cancel uri (inFlightDiagnostics st);
     linkWatcher := linkWatcher st;
     reporter := Reporter.signalTriggered uri recompute.1 (reporter st) |}.

(** The listener of [vscode.workspace.onDidCloseTextDocument]. *)
Definition onDidCloseTextDocument (uri : Uri) (st : t) : t :=
  {| diagnosticDelayer := diagnosticDelayer st;
     pendingDiagnostics := JsSet.delete uri (pendingDiagnostics st);
     inFlightDiagnostics := Inflight.cancel uri (inFlightDiagnostics st);
     linkWatcher := LinkWatcher.deleteDocument uri (linkWatcher st);
     reporter := Reporter.delete uri (reporter st) |}.

(** [rebuild()] up to its [await]: the three [clear] calls. *)
Definition rebuild_clear (st : t) : t :=
  {| diagnosticDelayer := diagnosticDelayer st;
     pendingDiagnostics := [];
     inFlightDiagnostics := Inflight.clear (inFlightDiagnostics st);
     linkWatcher := linkWatcher st;
     reporter := Reporter.clear (reporter st) |}.

(** [rebuild()] after its [await], for the documents
    [getAllMarkdownDocuments] resolved to: the loop of [triggerDiagnostics],
    on the manager as the listeners and the delayed pass that ran in the
    meantime left it. *)
Definition rebuild_trigger (documents : list SkinnyTextDocument) (st : t) : t :=
  foldl (λ st doc, triggerDiagnostics (uri doc) st) st documents.

Section host.

(** [workspaceContents.getMarkdownDocument], the open text documents and
    [isMarkdownFile] of [util/file] are the host's. *)
Variable getMarkdownDocument : Uri → option SkinnyTextDocument.
Variable textDocuments : list TextDocument.
Variable isMarkdownFile : TextDocument → bool.

(** One element of the [pending.map(...)] of [recomputePendingDiagnostics],
    up to the call of [compute]: the started computations are collected with
    the entry [trigger] recorded for each. *)
Definition recomputeOne (acc : list (SkinnyTextDocument * nat) * t) (resource : Uri)
    : list (SkinnyTextDocument * nat) * t :=
  match getMarkdownDocument resource with
  | Some doc =>
      let r := Inflight.trigger_begin (uri doc) (inFlightDiagnostics acc.2) in
      (acc.1 ++ [(doc, r.1)],
       {| diagnosticDelayer := diagnosticDelayer acc.2;
          pendingDiagnostics := pendingDiagnostics acc.2;
          inFlightDiagnostics := r.2;
          linkWatcher := linkWatcher acc.2;
          reporter := reporter acc.2 |})
  | None => acc
  end.

(** [recomputePendingDiagnostics()], run by the delayer when its timer
    elapses.  The documents are taken in the order of the snapshot; the host
    decides the order in which the lookups resolve, which the statements
    below do not depend on. *)
Definition recomputePendingDiagnostics (st : t) : list (SkinnyTextDocument * nat) * t :=
  let pending := pendingDiagnostics st in
  foldl recomputeOne
    ([], {| diagnosticDelayer := Delayer.elapse (diagnosticDelayer st);
            pendingDiagnostics := [];
            inFlightDiagnostics := inFlightDiagnostics st;
            linkWatcher := linkWatcher st;
            reporter := reporter st |})
    pending.

(** The rest of [compute] for one started computation, once
    [recomputeDiagnosticState] has produced [config], [links] and
    [diagnostics], followed by the [finally] block of [trigger]. *)
Definition settle (tabGroups : Reporter.TabGroups) (doc : SkinnyTextDocument)
    (entry : nat) (config : DiagnosticOptions) (links : list MdLink)
    (diagnostics : list Diagnostic) (st : t) : t :=
  {| diagnosticDelayer := diagnosticDelayer st;
     pendingDiagnostics := pendingDiagnostics st;
     inFlightDiagnostics :=
       Inflight.trigger_finally (uri doc) entry (inFlightDiagnostics st);
     linkWatcher :=
       LinkWatcher.updateLinksForDocument (uri doc)
         (if Options.enabled config
             && bool_decide (is_Some (Options.validateFileLinks config))
          then links else [])
         (linkWatcher st);
     reporter := Reporter.set tabGroups (uri doc) diagnostics (reporter st) |}.

(** [vscode.workspace.textDocuments.find(doc => doc.uri.toString() === resource.toString())] *)
Definition findTextDocument (resource : Uri) : option TextDocument :=
  List.find (λ doc, bool_decide (uri_str (td_uri doc) = uri_str resource)) textDocuments.

(** The listener of [linkWatcher.onDidChangeLinkedToFile]. *)
Definition retrigger (st : t) (resource : Uri) : t :=
  match findTextDocument resource with
  | Some doc => if isMarkdownFile doc then triggerDiagnostics (td_uri doc) st else st
  | None => st
  end.

Definition onDidChangeLinkedToFile (changedDocuments : list Uri) (st : t) : t :=
  foldl retrigger st changedDocuments.

(** A file watcher reports that [resource] was created or deleted. *)
Definition onLinkedResourceChanged (resource : Uri) (st : t) : t :=
  match LinkWatcher.onLinkedResourceChanged resource (linkWatcher st) with
  | Some changedDocuments => onDidChangeLinkedToFile changedDocuments st
  | None => st
  end.


(** C2 as the specification words it: the pass starts one recomputation for
    every resource of the snapshot. *)
Definition recomputes_each_once (st : t) : Prop :=
  Forall2 (λ resource started, getMarkdownDocument resource = Some started.1)
    (pendingDiagnostics st) (recomputePendingDiagnostics st).1.

(** *** Triggering *)

Lemma triggerDiagnostics_pending uri st :
  pendingDiagnostics (triggerDiagnostics uri st) = JsSet.add uri (pendingDiagnostics st).
Proof. reflexivity. Qed.

Lemma triggerDiagnostics_timeout uri st :
  Delayer.timeout (diagnosticDelayer (triggerDiagnostics uri st))
  = Some (Delayer.defaultDelay (diagnosticDelayer st)).
Proof.
  unfold triggerDiagnostics, Delayer.trigger; simpl.
  by destruct (Delayer.completionPromise (diagnosticDelayer st)).
Qed.

Lemma triggerDiagnostics_defaultDelay uri st :
  Delayer.defaultDelay (diagnosticDelayer (triggerDiagnostics uri st))
  = Delayer.defaultDelay (diagnosticDelayer st).
Proof.
  unfold triggerDiagnostics, Delayer.trigger; simpl.
  by destruct (Delayer.completionPromise (diagnosticDelayer st)).
Qed.


Lemma triggerAll_pending uris st :
  pendingDiagnostics (foldl (λ st u, triggerDiagnostics u st) st uris)
  = foldl (λ s u, JsSet.add u s) (pendingDiagnostics st) uris.
Proof.
  revert st. induction uris as [|u uris IH]; intros st; cbn [foldl]; [done|].
  by rewrite IH.
Qed.

Lemma triggerAll_timeout uris st :
  uris ≠ [] →
  Delayer.timeout (diagnosticDelayer (foldl (λ st u, triggerDiagnostics u st) st uris))
  = Some (Delayer.defaultDelay (diagnosticDelayer st)).
Proof.
  induction uris as [|u uris IH] using rev_ind; [done|]. intros _.
  rewrite foldl_app; cbn [foldl]. rewrite triggerDiagnostics_timeout. f_equal.
  clear IH. generalize st. induction uris as [|v uris IH]; intros st0; cbn [foldl]; [done|].
  by rewrite IH, triggerDiagnostics_defaultDelay.
Qed.

(** *** The delayed pass *)

Lemma recomputeAll_spec pending acc :
  (foldl recomputeOne acc pending).1.*1 = acc.1.*1 ++ omap getMarkdownDocument pending ∧
  pendingDiagnostics (foldl recomputeOne acc pending).2 = pendingDiagnostics acc.2 ∧
  diagnosticDelayer (foldl recomputeOne acc pending).2 = diagnosticDelayer acc.2 ∧
  linkWatcher (foldl recomputeOne acc pending).2 = linkWatcher acc.2 ∧
  reporter (foldl recomputeOne acc pending).2 = reporter acc.2.
Proof.
  revert acc. induction pending as [|resource pending IH]; intros acc; simpl.
  - by rewrite app_nil_r.
  - destruct (IH (recomputeOne acc resource)) as (-> & -> & -> & -> & ->).
    unfold recomputeOne. destruct (getMarkdownDocument resource) as [doc|]; simpl.
    + rewrite fmap_app; simpl. by rewrite <- app_assoc.
    + done.
Qed.

Lemma recomputePendingDiagnostics_spec st :
  (recomputePendingDiagnostics st).1.*1
    = omap getMarkdownDocument (pendingDiagnostics st) ∧
  pendingDiagnostics (recomputePendingDiagnostics st).2 = [] ∧
  Delayer.timeout (diagnosticDelayer (recomputePendingDiagnostics st).2) = None.
Proof.
  unfold recomputePendingDiagnostics.
  destruct (recomputeAll_spec (pendingDiagnostics st)
    ([], {| diagnosticDelayer := Delayer.elapse (diagnosticDelayer st);
            pendingDiagnostics := [];
            inFlightDiagnostics := inFlightDiagnostics st;
            linkWatcher := linkWatcher st;
            reporter := reporter st |})) as (-> & -> & -> & _).
  done.
Qed.

(** C2, amended.  Every [triggerDiagnostics] puts the resource in the pending
    set and arms the delayer with its delay, 300 unless the constructor is
    given another.  Triggers add a [Uri] object to the pending set once,
    however often it is triggered.  The delayed pass takes the whole set,
    empties it, and starts one recomputation for every member for which the
    workspace has a markdown document, and none for the other members. *)
Theorem debounced_recompute_once_per_pending_document (uris : list Uri) (st0 : t) :
  NoDup (pendingDiagnostics st0) →
  let st := foldl (λ st u, triggerDiagnostics u st) st0 uris in
  let pass := recomputePendingDiagnostics st in
  Delayer.defaultDelay (diagnosticDelayer (create None)) = 300 ∧
  (∀ u, u ∈ pendingDiagnostics (triggerDiagnostics u st0) ∧
        Delayer.timeout (diagnosticDelayer (triggerDiagnostics u st0))
        = Some (Delayer.defaultDelay (diagnosticDelayer st0))) ∧
  (∀ u, u ∈ pendingDiagnostics st ↔ u ∈ pendingDiagnostics st0 ∨ u ∈ uris) ∧
  NoDup (pendingDiagnostics st) ∧
  (uris ≠ [] → Delayer.timeout (diagnosticDelayer st)
               = Some (Delayer.defaultDelay (diagnosticDelayer st0))) ∧
  pass.1.*1 = omap getMarkdownDocument (pendingDiagnostics st) ∧
  pendingDiagnostics pass.2 = [] ∧
  Delayer.timeout (diagnosticDelayer pass.2) = None.
Proof.
  intros Hnd st pass.
  destruct (JsSet.foldl_add_spec uris (pendingDiagnostics st0)) as [Hin Hnd'].
  destruct (recomputePendingDiagnostics_spec st) as (Hstarted & Hempty & Hidle).
  split; [done|]. split.
  { intros u. split; [|apply triggerDiagnostics_timeout].
    rewrite triggerDiagnostics_pending. apply JsSet.elem_of_add. by left. }
  split. { intros u. unfold st. rewrite triggerAll_pending. apply Hin. }
  split. { unfold st. rewrite triggerAll_pending. by apply Hnd'. }
  split. { apply triggerAll_timeout. }
  done.
Qed.

(** *** File-watch invalidation *)







End host.

(** *** A small workspace

    [a.md] is an open markdown document, [b.txt] an open plain text document;
    [gone.md] is triggered but the workspace has no document for it.  Both
    [a.md] and [b.txt] were reported with a link to [target.md]. *)
Definition uri_a : Uri := {| uri_obj := 1; uri_str := "file:///a.md" |}.
Definition uri_gone : Uri := {| uri_obj := 3; uri_str := "file:///gone.md" |}.

Definition doc_a : SkinnyTextDocument := {| uri := uri_a; version := 1 |}.

Definition example_documents (resource : Uri) : option SkinnyTextDocument :=
  if decide (uri_str resource = "file:///a.md") then Some doc_a else None.






(** C2, as worded, fails: a pending resource for which the workspace has no
    markdown document is not recomputed by the pass. *)
Lemma pending_resource_without_document_is_skipped :
  ¬ recomputes_each_once example_documents
      (triggerDiagnostics uri_gone (create None)).
Proof.
  unfold recomputes_each_once. vm_compute. intros H. inversion H.
Qed.

Lemma debounced_recompute_witness :
  NoDup (pendingDiagnostics (create None)) ∧
  pendingDiagnostics
    (foldl (λ st u, triggerDiagnostics u st) (create None) [uri_a; uri_gone; uri_a])
  = [uri_a; uri_gone] ∧
  (recomputePendingDiagnostics example_documents
     (foldl (λ st u, triggerDiagnostics u st) (create None) [uri_a; uri_gone; uri_a])).1.*1
  = [doc_a].
Proof.
  assert (NoDup (pendingDiagnostics (create None))) as Hnd by (simpl; constructor).
  split; [exact Hnd|]. split; [vm_compute; reflexivity|].
  pose proof (debounced_recompute_once_per_pending_document example_documents
    [uri_a; uri_gone; uri_a] (create None) Hnd) as (_ & _ & _ & _ & _ & Hpass & _).
  rewrite Hpass. vm_compute. reflexivity.
Defined.


End Manager.

(** ** [DiagnosticComputer] *)

Module Computer.

(** The places where the computer reads [token.isCancellationRequested]:
    after the links were computed, at the start of the task queued for a link
    path, and after the table of contents of the document was built. *)
Inductive checkpoint : Type :=
  | AfterLinks
  | FileTask (path : string)
  | AfterToc.

(** An element of [outgoingLinks] in [FileLinkMap]. *)
Record LinkData : Type := mkLinkData {
  ld_source : MdLinkSource;
  ld_fragment : string;
}.

(** [s.startsWith('#')] *)
Definition startsWithHash (s : string) : bool := startsWith "#" s.

(** The two branches of the [FileLinkMap] constructor for one internal
    link: push to the entry of the path, or start a new entry. *)
Fixpoint addOutgoing (key : string) (data : LinkData)
    (m : list (string * list LinkData)) : list (string * list LinkData) :=
  match m with
  | [] => [(key, [data])]
  | (k, outgoingLinks) :: m' =>
      if decide (k = key) then (k, outgoingLinks ++ [data]) :: m'
      else (k, outgoingLinks) :: addOutgoing key data m'
  end.

(** [new FileLinkMap(links)]: the entries in insertion order, keyed by the
    string form of the link path. *)
Definition FileLinkMap (links : list MdLink) : list (string * list LinkData) :=
  foldl (λ m link,
           match href link with
           | InternalHref path fragment =>
               addOutgoing (uri_str path)
                 {| ld_source := source link; ld_fragment := fragment |} m
           | _ => m
           end) [] links.

Section host.

(** The host's side: the link computer, [picomatch.isMatch], the workspace
    ([tryFindMdDocumentForLink], [pathExists]), [uri.fsPath], the table of
    contents ([TableOfContents.create] followed by [lookup]), the link
    definition set, and [range.with({ start: range.start.translate(0, -1) })].
    The workspace answers by resource, that is by the string form of the
    [Uri].  [getAllLinks] is the link computer at the token of the call,
    [linkComputer.getAllLinks(doc, token)]; a caller with a link computer
    that answers by the token hands it over applied to that token. *)
Variable getAllLinks : SkinnyTextDocument → list MdLink.
Variable isMatch : string → string → bool.
Variable tryFindMdDocumentForLink : string → option SkinnyTextDocument.
Variable pathExists : string → bool.
Variable fsPath : string → string.
Variable tocLookup : SkinnyTextDocument → string → bool.
Variable definitionLookup : list MdLink → string → bool.
Variable withStartTranslated : Range → Range.

(** [isIgnoredLink(options, link)] *)
Definition isIgnoredLink (options : DiagnosticOptions) (link : string) : bool :=
  existsb (λ glob, isMatch link glob) (Options.ignoreLinks options).

(** [validateFragmentLinks(doc, options, links, token)] *)
Definition validateFragmentLinks (doc : SkinnyTextDocument) (options : DiagnosticOptions)
    (links : list MdLink) (token : checkpoint → bool) : list Diagnostic :=
  match toSeverity (Options.validateFragmentLinks options) with
  | None => []
  | Some severity =>
      if token AfterToc then []
      else
        omap (λ link,
          match href link with
          | InternalHref path fragment =>
              if startsWithHash (text (source link))
                 && bool_decide (uri_str path = uri_str (uri doc))
                 && negb (String.eqb fragment "")
                 && negb (tocLookup doc fragment)
                 && negb (isIgnoredLink options (text (source link)))
              then Some {| range := hrefRange (source link);
                           message := "No header found: '" ++ fragment ++ "'";
                           severity := severity;
                           link := Some (text (source link)) |}
              else None
          | _ => None
          end) links
  end.

(** [validateReferenceLinks(options, links)], collected by [Array.from]. *)
Definition validateReferenceLinks (options : DiagnosticOptions) (links : list MdLink)
    : list Diagnostic :=
  match toSeverity (Options.validateReferences options) with
  | None => []
  | Some severity =>
      omap (λ link,
        match href link with
        | ReferenceHref ref =>
            if negb (definitionLookup links ref)
            then Some {| range := hrefRange (source link);
                         message := "No link definition found: '" ++ ref ++ "'";
                         severity := severity;
                         link := None |}
            else None
        | _ => None
        end) links
  end.

(** The diagnostic pushed for a link whose file does not exist. *)
Definition missingFileDiagnostic (pathErrorSeverity : DiagnosticSeverity)
    (path : string) (data : LinkData) : Diagnostic :=
  {| range := hrefRange (ld_source data);
     message := "File does not exist at path: " ++ fsPath path;
     severity := pathErrorSeverity;
     link := Some (pathText (ld_source data)) |}.

(** The diagnostic pushed for a link to a header that the linked file lacks. *)
Definition missingHeaderDiagnostic (fragmentErrorSeverity : DiagnosticSeverity)
    (data : LinkData) : Diagnostic :=
  {| range := match fragmentRange (ld_source data) with
              | Some r => withStartTranslated r
              | None => hrefRange (ld_source data)
              end;
     message := "Header does not exist in file: " ++ ld_fragment data;
     severity := fragmentErrorSeverity;
     link := Some (text (ld_source data)) |}.

(** The task queued on the limiter for one entry of the link map. *)
Definition fileTask (options : DiagnosticOptions) (token : checkpoint → bool)
    (pathErrorSeverity : DiagnosticSeverity)
    (fragmentErrorSeverity : option DiagnosticSeverity)
    (entry : string * list LinkData) : list Diagnostic :=
  let '(path, links) := entry in
  if token (FileTask path) then []
  else
    match tryFindMdDocumentForLink path with
    | None =>
        if negb (pathExists path)
        then omap (λ data,
               if negb (isIgnoredLink options (pathText (ld_source data)))
               then Some (missingFileDiagnostic pathErrorSeverity path data)
               else None) links
        else []
    | Some hrefDoc =>
        match fragmentErrorSeverity with
        | None => []
        | Some severity =>
            let fragmentLinks :=
              filter (λ x, ld_fragment x ≠ "") links in
            if Nat.eqb (length fragmentLinks) 0 then []
            else omap (λ data,
                   if negb (tocLookup hrefDoc (ld_fragment data))
                      && negb (isIgnoredLink options (pathText (ld_source data)))
                      && negb (isIgnoredLink options (text (ld_source data)))
                   then Some (missingHeaderDiagnostic severity data)
                   else None) fragmentLinks
        end
    end.

(** [validateFileLinks(options, links, token)].  The tasks push to one
    array as they complete; the model lists their diagnostics in the order of
    the link map, and the statements about it are up to that order. *)
Definition validateFileLinks (options : DiagnosticOptions) (links : list MdLink)
    (token : checkpoint → bool) : list Diagnostic :=
  match toSeverity (Options.validateFileLinks options) with
  | None => []
  | Some pathErrorSeverity =>
      let fragmentErrorSeverity :=
        toSeverity (match Options.validateMarkdownFileLinkFragments options with
                    | None => Options.validateFragmentLinks options
                    | Some level => Some level
                    end) in
      let linkSet :=
        FileLinkMap
          (filter (λ link, startsWithHash (text (source link)) = false) links) in
      if Nat.eqb (length linkSet) 0 then []
      else concat (map (fileTask options token pathErrorSeverity fragmentErrorSeverity)
                     linkSet)
  end.

(** [getDiagnostics(doc, options, token)]: the links and the diagnostics. *)
Definition getDiagnostics (doc : SkinnyTextDocument) (options : DiagnosticOptions)
    (token : checkpoint → bool) : list MdLink * list Diagnostic :=
  let links := getAllLinks doc in
  if token AfterLinks || negb (Options.enabled options) then (links, [])
  else
    (links,
     concat [ validateFileLinks options links token;
              validateReferenceLinks options links;
              validateFragmentLinks doc options links token ]).

(** *** The three passes *)

Definition ignored_or_undefined (level : option DiagnosticLevel) : Prop :=
  level = Some ignore ∨ level = None.

Lemma toSeverity_None level : toSeverity level = None ↔ ignored_or_undefined level.
Proof.
  unfold ignored_or_undefined. destruct level as [[]|]; simpl; naive_solver.
Qed.

Lemma validateFileLinks_ignored options links token :
  ignored_or_undefined (Options.validateFileLinks options) →
  validateFileLinks options links token = [].
Proof. intros H%toSeverity_None. unfold validateFileLinks. by rewrite H. Qed.

Lemma validateReferenceLinks_ignored options links :
  ignored_or_undefined (Options.validateReferences options) →
  validateReferenceLinks options links = [].
Proof. intros H%toSeverity_None. unfold validateReferenceLinks. by rewrite H. Qed.

Lemma validateFragmentLinks_ignored doc options links token :
  ignored_or_undefined (Options.validateFragmentLinks options) →
  validateFragmentLinks doc options links token = [].
Proof. intros H%toSeverity_None. unfold validateFragmentLinks. by rewrite H. Qed.

(** C3.  [toSeverity] maps [error] to [Error], [warning] to [Warning], and
    [ignore] and [undefined] to [undefined].  [getDiagnostics] returns the
    links of the document; its diagnostics are empty when cancellation is
    requested after the links were computed or when [options.enabled] is
    false, and otherwise they are the diagnostics of file-link validation,
    then those of reference-link validation, then those of the validation of
    the document's own fragment links.  Each pass returns the empty list when
    its severity option is [ignore] or [undefined]. *)
Theorem getDiagnostics_concatenates_three_passes
    (doc : SkinnyTextDocument) (options : DiagnosticOptions) (token : checkpoint → bool) :
  let links := getAllLinks doc in
  (toSeverity (Some error) = Some Error ∧ toSeverity (Some warning) = Some Warning ∧
   toSeverity (Some ignore) = None ∧ toSeverity None = None) ∧
  (getDiagnostics doc options token).1 = links ∧
  (getDiagnostics doc options token).2 =
    (if token AfterLinks || negb (Options.enabled options) then []
     else validateFileLinks options links token
          ++ validateReferenceLinks options links
          ++ validateFragmentLinks doc options links token) ∧
  (ignored_or_undefined (Options.validateFileLinks options) →
   validateFileLinks options links token = []) ∧
  (ignored_or_undefined (Options.validateReferences options) →
   validateReferenceLinks options links = []) ∧
  (ignored_or_undefined (Options.validateFragmentLinks options) →
   validateFragmentLinks doc options links token = []).
Proof.
  intros links. split; [done|]. unfold getDiagnostics. fold links.
  split; [by destruct (_ || _)|]. split.
  { destruct (_ || _); [done|]. simpl. by rewrite app_nil_r. }
  split; [apply validateFileLinks_ignored|].
  split; [apply validateReferenceLinks_ignored|apply validateFragmentLinks_ignored].
Qed.

(** *** Links to files that do not exist *)

(** The diagnostic carries the message of the missing-file branch. *)
Definition isMissingFile (d : Diagnostic) : bool :=
  startsWith "File does not exist at path: " (message d).

(** No markdown document is found for the path and the workspace says the
    path does not exist, read when the task for the path is not cancelled. *)
Definition fileIsMissing (token : checkpoint → bool) (path : string) : bool :=
  negb (token (FileTask path))
  && match tryFindMdDocumentForLink path with
     | None => negb (pathExists path)
     | Some _ => false
     end.

(** What the missing-file branch contributes for one link of the document. *)
Definition reportMissingFile (options : DiagnosticOptions) (token : checkpoint → bool)
    (pathErrorSeverity : DiagnosticSeverity) (mdLink : MdLink) : option Diagnostic :=
  match href mdLink with
  | InternalHref path fragment =>
      if negb (startsWithHash (text (source mdLink)))
         && fileIsMissing token (uri_str path)
         && negb (isIgnoredLink options (pathText (source mdLink)))
      then Some (missingFileDiagnostic pathErrorSeverity (uri_str path)
                   {| ld_source := source mdLink; ld_fragment := fragment |})
      else None
  | _ => None
  end.

(** C5 as the specification words it, for the links of one call. *)
Definition missing_file_claim (options : DiagnosticOptions) (links : list MdLink)
    (token : checkpoint → bool) : Prop :=
  ∀ mdLink path fragment,
    mdLink ∈ links → href mdLink = InternalHref path fragment →
    startsWithHash (text (source mdLink)) = false →
    ((∃ d, d ∈ validateFileLinks options links token ∧ isMissingFile d = true ∧
           range d = hrefRange (source mdLink) ∧
           link d = Some (pathText (source mdLink)))
     ↔ (tryFindMdDocumentForLink (uri_str path) = None ∧
        pathExists (uri_str path) = false ∧
        isIgnoredLink options (pathText (source mdLink)) = false)).

Lemma isMissingFile_missing severity path data :
  isMissingFile (missingFileDiagnostic severity path data) = true.
Proof. reflexivity. Qed.

Lemma isMissingFile_header severity data :
  isMissingFile (missingHeaderDiagnostic severity data) = false.
Proof. reflexivity. Qed.

(** The missing-file diagnostics of one task, link by link. *)
Definition emitMissing (options : DiagnosticOptions) (token : checkpoint → bool)
    (pathErrorSeverity : DiagnosticSeverity) (path : string) (data : LinkData)
    : list Diagnostic :=
  if fileIsMissing token path
     && negb (isIgnoredLink options (pathText (ld_source data)))
  then [missingFileDiagnostic pathErrorSeverity path data]
  else [].

Lemma filter_omap_none {A} (f : A → option Diagnostic) (l : list A) :
  (∀ x d, f x = Some d → isMissingFile d = false) →
  filter (λ d, isMissingFile d = true) (omap f l) = [].
Proof.
  intros Hf. induction l as [|x l IH]; simpl; [done|].
  destruct (f x) as [d|] eqn:E; [|done].
  rewrite filter_cons_False; [done|]. rewrite (Hf _ _ E). done.
Qed.

Lemma emitMissing_nothing options token severity path outgoing :
  fileIsMissing token path = false →
  outgoing ≫= emitMissing options token severity path = [].
Proof.
  intros Hmiss. unfold emitMissing. rewrite Hmiss. simpl.
  induction outgoing as [|x l IH]; [done|]. by rewrite bind_cons, IH.
Qed.

Lemma fileTask_missing options token severity fragmentSeverity path outgoing :
  filter (λ d, isMissingFile d = true)
    (fileTask options token severity fragmentSeverity (path, outgoing))
  = outgoing ≫= emitMissing options token severity path.
Proof.
  destruct (fileIsMissing token path) eqn:Hmiss.
  - unfold fileTask, emitMissing. rewrite Hmiss. unfold fileIsMissing in Hmiss.
    destruct (token (FileTask path)); [done|].
    destruct (tryFindMdDocumentForLink path); [done|].
    destruct (pathExists path); [done|]. simpl.
    induction outgoing as [|x l IH]; [done|]. rewrite bind_cons, <- IH. simpl.
    destruct (isIgnoredLink options (pathText (ld_source x))); simpl; [done|].
    by rewrite filter_cons_True.
  - rewrite emitMissing_nothing by done.
    unfold fileTask. unfold fileIsMissing in Hmiss.
    destruct (token (FileTask path)); [done|].
    destruct (tryFindMdDocumentForLink path) as [hrefDoc|].
    + clear Hmiss. destruct fragmentSeverity as [fs|]; [|done].
      destruct (Nat.eqb _ 0); [done|].
      apply filter_omap_none. intros x d.
      destruct (_ && _); [|done]. intros [= <-]. apply isMissingFile_header.
    + by destruct (pathExists path).
Qed.

(** Grouping the links by path does not change what is emitted link by
    link, up to the order. *)
Lemma addOutgoing_bind {X} (emit : string → LinkData → list X) key data m :
  addOutgoing key data m ≫= (λ e, e.2 ≫= emit e.1)
  ≡ₚ (m ≫= (λ e, e.2 ≫= emit e.1)) ++ emit key data.
Proof.
  induction m as [|[k outgoing] m IH]; simpl.
  - by rewrite !app_nil_r.
  - destruct (decide (k = key)) as [->|Hne].
    + rewrite !bind_cons. simpl. rewrite bind_app, bind_singleton.
      rewrite <- !(assoc (++)). f_equiv. apply (comm (++)).
    + rewrite !bind_cons. simpl. rewrite IH. by rewrite (assoc (++)).
Qed.

Definition emitLink {X} (emit : string → LinkData → list X) (mdLink : MdLink) : list X :=
  match href mdLink with
  | InternalHref path fragment =>
      emit (uri_str path) {| ld_source := source mdLink; ld_fragment := fragment |}
  | _ => []
  end.

Lemma FileLinkMap_bind {X} (emit : string → LinkData → list X) links :
  FileLinkMap links ≫= (λ e, e.2 ≫= emit e.1) ≡ₚ links ≫= emitLink emit.
Proof.
  unfold FileLinkMap.
  assert (∀ m,
    foldl (λ m mdLink,
             match href mdLink with
             | InternalHref path fragment =>
                 addOutgoing (uri_str path)
                   {| ld_source := source mdLink; ld_fragment := fragment |} m
             | _ => m
             end) m links ≫= (λ e, e.2 ≫= emit e.1)
    ≡ₚ (m ≫= (λ e, e.2 ≫= emit e.1)) ++ (links ≫= emitLink emit)) as H.
  { induction links as [|mdLink links IH]; intros m; cbn [foldl].
    - simpl. by rewrite app_nil_r.
    - rewrite IH, bind_cons. unfold emitLink at 2.
      destruct (href mdLink) as [|path fragment|]; [done| |done].
      rewrite addOutgoing_bind. by rewrite (assoc (++)). }
  by rewrite H.
Qed.

Lemma filter_concat_map {A} (P : Diagnostic → Prop) `{∀ d, Decision (P d)}
    (f : A → list Diagnostic) (l : list A) :
  filter P (concat (map f l)) = l ≫= (λ x, filter P (f x)).
Proof.
  induction l as [|x l IH]; [done|]. cbn [map concat].
  by rewrite filter_app, IH, bind_cons.
Qed.

Lemma emitLink_reportMissingFile options token severity links :
  filter (λ mdLink, startsWithHash (text (source mdLink)) = false) links
    ≫= emitLink (emitMissing options token severity)
  = omap (reportMissingFile options token severity) links.
Proof.
  induction links as [|mdLink links IH]; [done|].
  cbn [omap list_omap]. rewrite <- IH. clear IH.
  unfold reportMissingFile, emitLink, emitMissing.
  destruct (startsWithHash (text (source mdLink))) eqn:Hhash.
  - rewrite filter_cons_False by (by rewrite Hhash). simpl.
    by destruct (href mdLink).
  - rewrite filter_cons_True by done. rewrite bind_cons. simpl.
    destruct (href mdLink) as [|path fragment|]; [done| |done].
    by destruct (_ && _).
Qed.

(** C5, amended.  The diagnostics 'File does not exist at path' of
    [validateFileLinks] are, up to their order: none when the file-link
    severity is undefined (the option is [ignore] or [undefined]); otherwise
    one diagnostic for every internal link whose source text does not start
    with '#', for whose path no markdown document is found and the
    path-existence check is false, the task of the path not being cancelled,
    and whose path text no glob of [options.ignoreLinks] matches.  The
    diagnostic sits at the link's href range and has the file-link
    severity. *)
Theorem missing_file_diagnostics_per_link
    (options : DiagnosticOptions) (links : list MdLink) (token : checkpoint → bool) :
  filter (λ d, isMissingFile d = true) (validateFileLinks options links token)
    ≡ₚ match toSeverity (Options.validateFileLinks options) with
       | Some pathErrorSeverity =>
           omap (reportMissingFile options token pathErrorSeverity) links
       | None => []
       end ∧
  (∀ pathErrorSeverity mdLink path fragment,
     href mdLink = InternalHref path fragment →
     startsWithHash (text (source mdLink)) = false →
     (is_Some (reportMissingFile options token pathErrorSeverity mdLink) ↔
      token (FileTask (uri_str path)) = false ∧
      tryFindMdDocumentForLink (uri_str path) = None ∧
      pathExists (uri_str path) = false ∧
      isIgnoredLink options (pathText (source mdLink)) = false)) ∧
  (∀ pathErrorSeverity mdLink d,
     reportMissingFile options token pathErrorSeverity mdLink = Some d →
     (∃ path fragment, href mdLink = InternalHref path fragment) ∧
     startsWithHash (text (source mdLink)) = false ∧
     isMissingFile d = true ∧
     range d = hrefRange (source mdLink) ∧
     severity d = pathErrorSeverity ∧
     link d = Some (pathText (source mdLink))).
Proof.
  split; [|split].
  - unfold validateFileLinks.
    destruct (toSeverity (Options.validateFileLinks options))
      as [pathErrorSeverity|]; [|done].
    rewrite <- emitLink_reportMissingFile, <- FileLinkMap_bind.
    destruct (FileLinkMap _) as [|e m] eqn:E; [done|].
    cbn [length Nat.eqb]. rewrite filter_concat_map.
    rewrite (list_bind_ext _
      (λ e, e.2 ≫= emitMissing options token pathErrorSeverity e.1) _ (e :: m));
      [done| |done].
    intros [path outgoing]. apply fileTask_missing.
  - intros pathErrorSeverity mdLink path fragment Hhref Hhash.
    unfold reportMissingFile, fileIsMissing. rewrite Hhref, Hhash. simpl.
    destruct (token (FileTask (uri_str path))); simpl.
    { split; [by intros [? [=]]|by intros [[=] _]]. }
    destruct (tryFindMdDocumentForLink (uri_str path)); simpl.
    { split; [by intros [? [=]]|by intros (_ & [=] & _)]. }
    destruct (pathExists (uri_str path)); simpl.
    { split; [by intros [? [=]]|by intros (_ & _ & [=] & _)]. }
    destruct (isIgnoredLink options (pathText (source mdLink))); simpl.
    { split; [by intros [? [=]]|by intros (_ & _ & _ & [=])]. }
    split; [done|eauto].
  - intros pathErrorSeverity mdLink d. unfold reportMissingFile.
    destruct (href mdLink) as [|path fragment|]; [done| |done].
    destruct (startsWithHash (text (source mdLink))); simpl; [done|].
    destruct (_ && _); [|done]. intros [= <-]. simpl. eauto 10.
Qed.

End host.

(** *** A document with three links

    The workspace of the example has no markdown document for any path, no
    path exists, and no glob matches.  The document links twice to
    [missing.md] and once to its own header [#intro]. *)
Definition uri_doc : Uri := {| uri_obj := 10; uri_str := "file:///doc.md" |}.
Definition uri_missing1 : Uri := {| uri_obj := 11; uri_str := "file:///missing.md" |}.
Definition uri_missing2 : Uri := {| uri_obj := 12; uri_str := "file:///missing.md" |}.

Definition range_at (l c1 c2 : nat) : Range := mkRange (mkPosition l c1) (mkPosition l c2).

Definition link_missing1 : MdLink :=
  {| source := {| text := "missing.md"; pathText := "missing.md";
                  hrefRange := range_at 0 4 14; fragmentRange := None |};
     href := InternalHref uri_missing1 "" |}.

Definition link_missing2 : MdLink :=
  {| source := {| text := "missing.md#top"; pathText := "missing.md";
                  hrefRange := range_at 1 4 18;
                  fragmentRange := Some (range_at 1 15 18) |};
     href := InternalHref uri_missing2 "top" |}.

Definition link_own_header : MdLink :=
  {| source := {| text := "#intro"; pathText := "";
                  hrefRange := range_at 2 4 10;
                  fragmentRange := Some (range_at 2 5 10) |};
     href := InternalHref uri_doc "intro" |}.

Definition example_links : list MdLink :=
  [link_missing1; link_own_header; link_missing2].

Definition example_options (fileLinks : option DiagnosticLevel) : DiagnosticOptions :=
  {| Options.enabled := true;
     Options.validateReferences := Some warning;
     Options.validateFragmentLinks := Some warning;
     Options.validateFileLinks := fileLinks;
     Options.validateMarkdownFileLinkFragments := None;
     Options.ignoreLinks := [] |}.

Definition no_match (link glob : string) : bool := false.
Definition no_document (path : string) : option SkinnyTextDocument := None.
Definition no_path (path : string) : bool := false.
Definition fsPath_of (path : string) : string := path.
Definition not_cancelled (c : checkpoint) : bool := false.

Example validateFileLinks_warning :
  validateFileLinks no_match no_document no_path fsPath_of (λ _ _, false) id
    (example_options (Some warning)) example_links not_cancelled
  = [ {| range := range_at 0 4 14;
         message := "File does not exist at path: file:///missing.md";
         severity := Warning; link := Some "missing.md" |};
      {| range := range_at 1 4 18;
         message := "File does not exist at path: file:///missing.md";
         severity := Warning; link := Some "missing.md" |} ].
Proof. vm_compute. reflexivity. Qed.

Definition link_reference : MdLink :=
  {| source := {| text := "ref"; pathText := "";
                  hrefRange := range_at 3 4 7; fragmentRange := None |};
     href := ReferenceHref "ref" |}.

Definition example_doc : SkinnyTextDocument := {| uri := uri_doc; version := 1 |}.

Example getDiagnostics_example :
  (getDiagnostics (λ _, example_links ++ [link_reference]) no_match no_document
     no_path fsPath_of (λ _ _, false) (λ _ _, false) id
     example_doc (example_options (Some error)) not_cancelled).2
  = [ {| range := range_at 0 4 14;
         message := "File does not exist at path: file:///missing.md";
         severity := Error; link := Some "missing.md" |};
      {| range := range_at 1 4 18;
         message := "File does not exist at path: file:///missing.md";
         severity := Error; link := Some "missing.md" |};
      {| range := range_at 3 4 7;
         message := "No link definition found: 'ref'";
         severity := Warning; link := None |};
      {| range := range_at 2 4 10;
         message := "No header found: 'intro'";
         severity := Warning; link := Some "#intro" |} ].
Proof. vm_compute. reflexivity. Qed.

(** C5, as worded, fails: with the file-link severity [ignore] no diagnostic
    is emitted for a link to a file that does not exist. *)
Lemma missing_file_not_reported_when_ignored :
  ¬ missing_file_claim no_match no_document no_path fsPath_of (λ _ _, false) id
      (example_options (Some ignore)) example_links not_cancelled.
Proof.
  intros Hclaim.
  destruct (Hclaim link_missing1 uri_missing1 "") as [_ Hemit].
  - apply elem_of_cons. by left.
  - reflexivity.
  - reflexivity.
  - destruct Hemit as (d & Hd & _); [done|].
    vm_compute in Hd. by apply elem_of_nil in Hd.
Qed.

End Computer.

(** ** The merge editor *)

Module MergeEditor.

(** Modelled from the spec: text models, [MergeEditorModel] and
    [MergeEditorInput] are declared outside the merge editor view; they are
    given with the fields [setInput] reads. *)
Record ITextModel : Type := mkTextModel { tm_uri : Uri; tm_lines : list string }.

Record MergeEditorModel : Type := mkModel {
  base : ITextModel;
  input1 : ITextModel;
  input2 : ITextModel;
  result : ITextModel;
  input1Detail : option string;
  input1Description : option string;
  input2Detail : option string;
  input2Description : option string;
}.

(** An [EditorInput]: a [MergeEditorInput] with what its [resolve()] settles
    to ([None] when it rejects), or an input of another class. *)
Inductive EditorInput : Type :=
  | MergeEditorInput (resolve : option MergeEditorModel)
  | OtherEditorInput.

(** A [CodeEditorView]: the text model of its code editor, its two labels
    and the observable [model]. *)
Record CodeEditorView : Type := mkView {
  readonly : bool;
  editor_model : option ITextModel;
  title : string * option string;
  detail : string * option string;
  model : option MergeEditorModel;
}.

Record InputCodeEditorView : Type := mkInputView {
  inputNumber : nat;
  input_view : CodeEditorView;
}.

(** [ResultCodeEditorView] adds decorations only. *)
Record ResultCodeEditorView : Type := mkResultView { result_view : CodeEditorView }.

Definition newView (ro : bool) : CodeEditorView :=
  {| readonly := ro; editor_model := None; title := ("", None);
     detail := ("", None); model := None |}.

(** [CodeEditorView.setModel(model, textModel, title, description, detail)] *)
Definition setModel (m : MergeEditorModel) (textModel : ITextModel) (t : string)
    (description : option string) (d : option string) (v : CodeEditorView)
    : CodeEditorView :=
  {| readonly := readonly v;
     editor_model := Some textModel;
     title := (t, description);
     detail := ("", d);
     model := Some m |}.

Record t : Type := mk {
  input1View : InputCodeEditorView;
  input2View : InputCodeEditorView;
  inputResultView : ResultCodeEditorView;
  _model : option MergeEditorModel;
  _ctxBaseResourceScheme : string;
}.

(** The three view fields as the class initialises them. *)
Definition create (inputsWritable : bool) : t :=
  {| input1View := {| inputNumber := 1; input_view := newView (negb inputsWritable) |};
     input2View := {| inputNumber := 2; input_view := newView (negb inputsWritable) |};
     inputResultView := {| result_view := newView false |};
     _model := None;
     _ctxBaseResourceScheme := "" |}.

(** The panes of the editor, by the field that holds them. *)
Inductive pane : Type := Input1View | Input2View | InputResultView.

(** The descriptor handed to [SerializableGrid.from]. *)
Inductive GridDescriptor : Type :=
  | GridLeaf (size : option nat) (data : pane)
  | GridBranch (size : option nat) (groups : list GridDescriptor).

Fixpoint gridViews (g : GridDescriptor) : list pane :=
  match g with
  | GridLeaf _ data => [data]
  | GridBranch _ groups => flat_map gridViews groups
  end.

(** The grid of [createEditorControl]. *)
Definition createEditorControl : GridDescriptor :=
  GridBranch (Some 100)
    [ GridBranch (Some 38) [GridLeaf None Input1View; GridLeaf None Input2View];
      GridLeaf (Some 62) InputResultView ].

(** [[this.input1View, this.input2View, this.inputResultView]], the views the
    editor iterates over in [clearInput], [hasFocus] and [getControl]. *)
Definition views (ed : t) : list CodeEditorView :=
  [input_view (input1View ed); input_view (input2View ed);
   result_view (inputResultView ed)].

Inductive outcome (A : Type) : Type :=
  | Returned (a : A)
  | Thrown (what : string).
Arguments Returned {A} a.
Arguments Thrown {A} what.

Section host.

(** [super.setInput] settles or throws; [getUriLabel] is the label service
    and [scheme] reads [uri.scheme]. *)
Variable superSetInput : EditorInput → bool.
Variable getUriLabel : Uri → string.
Variable scheme : Uri → string.

(** [setInput(input, options, context, token)], as far as the three views,
    [_model] and the context key go: the session disposables, which it
    clears before it resolves the input and to which it adds the view-zone
    autorun at its end, are not part of this state. *)
Definition setInput (input : EditorInput) (ed : t) : outcome t :=
  match input with
  | OtherEditorInput => Thrown "ONLY MergeEditorInput is supported"
  | MergeEditorInput resolve =>
      if negb (superSetInput input) then Thrown "super.setInput"
      else
        match resolve with
        | None => Thrown "input.resolve"
        | Some m =>
            Returned
              {| input1View :=
                   {| inputNumber := inputNumber (input1View ed);
                      input_view :=
                        setModel m (input1 m) "Yours" (input1Detail m)
                          (input1Description m) (input_view (input1View ed)) |};
                 input2View :=
                   {| inputNumber := inputNumber (input2View ed);
                      input_view :=
                        setModel m (input2 m) "Theirs" (input2Detail m)
                          (input2Description m) (input_view (input2View ed)) |};
                 inputResultView :=
                   {| result_view :=
                        setModel m (result m) "Result"
                          (Some (getUriLabel (tm_uri (result m)))) None
                          (result_view (inputResultView ed)) |};
                 _model := Some m;
                 _ctxBaseResourceScheme := scheme (tm_uri (base m)) |}
        end
  end.

(** C6.  The editor has three panes: the grid holds the views of the fields
    [input1View], [input2View] and [inputResultView] and no other, the two
    input views are created with the numbers 1 and 2, and [setInput] keeps
    the numbers.  When [setInput] returns, its input is a [MergeEditorInput]
    that resolved to a model, and the code editors of the first input view,
    the second input view and the result view show the model's [input1],
    [input2] and [result]. *)
Theorem setInput_binds_three_panes (input : EditorInput) (ed ed' : t) :
  setInput input ed = Returned ed' →
  gridViews createEditorControl = [Input1View; Input2View; InputResultView] ∧
  length (views ed') = 3 ∧
  (∀ inputsWritable,
     inputNumber (input1View (create inputsWritable)) = 1 ∧
     inputNumber (input2View (create inputsWritable)) = 2) ∧
  inputNumber (input1View ed') = inputNumber (input1View ed) ∧
  inputNumber (input2View ed') = inputNumber (input2View ed) ∧
  ∃ m, input = MergeEditorInput (Some m) ∧
       _model ed' = Some m ∧
       editor_model (input_view (input1View ed')) = Some (input1 m) ∧
       editor_model (input_view (input2View ed')) = Some (input2 m) ∧
       editor_model (result_view (inputResultView ed')) = Some (result m).
Proof.
  unfold setInput. destruct input as [[m|]|]; [| |done].
  - destruct (superSetInput _); [|done]. simpl. intros [= <-]. simpl.
    repeat split; eauto 10.
  - by destruct (superSetInput _).
Qed.

End host.

Definition example_model : MergeEditorModel :=
  {| base := mkTextModel (mkUri 20 "file:///base") ["a"];
     input1 := mkTextModel (mkUri 21 "file:///yours") ["a"; "b"];
     input2 := mkTextModel (mkUri 22 "file:///theirs") ["a"; "c"];
     result := mkTextModel (mkUri 23 "file:///result") ["a"];
     input1Detail := Some "main"; input1Description := None;
     input2Detail := Some "topic"; input2Description := None |}.

Definition example_editor : t :=
  {| input1View :=
       {| inputNumber := 1;
          input_view := setModel example_model (input1 example_model) "Yours"
                          (Some "main") None (newView true) |};
     input2View :=
       {| inputNumber := 2;
          input_view := setModel example_model (input2 example_model) "Theirs"
                          (Some "topic") None (newView true) |};
     inputResultView :=
       {| result_view := setModel example_model (result example_model) "Result"
                           (Some "result") None (newView false) |};
     _model := Some example_model;
     _ctxBaseResourceScheme := "file" |}.

Lemma setInput_binds_three_panes_witness :
  setInput (λ _, true) (λ _, "result") (λ _, "file")
    (MergeEditorInput (Some example_model)) (create false) = Returned example_editor ∧
  editor_model (input_view (input1View example_editor)) = Some (input1 example_model) ∧
  editor_model (input_view (input2View example_editor)) = Some (input2 example_model) ∧
  editor_model (result_view (inputResultView example_editor))
    = Some (result example_model).
Proof.
  assert (setInput (λ _, true) (λ _, "result") (λ _, "file")
    (MergeEditorInput (Some example_model)) (create false) = Returned example_editor)
    as Hset by reflexivity.
  split; [exact Hset|].
  destruct (setInput_binds_three_panes _ _ _ _ _ _ Hset)
    as (_ & _ & _ & _ & _ & m & Hm & _ & H1 & H2 & H3).
  injection Hm as <-. auto.
Defined.

(** *** The conflict gutter *)

(** Modelled from the spec: [ToggleState] is declared in the merge editor's
    [model], whose source this development does not have; its four values are
    the keys of [iconMap]. *)
Inductive ToggleState : Type := unset | first | second | conflicting.

Inductive Codicon : Type := check | checkAll | circleFilled.

(** Modelled from the spec: the [Toggle] widget of [vs/base/browser/ui/toggle],
    whose source this development does not have, as far as the gutter item
    drives it: its icon, its checked flag and whether it is enabled. *)
Record Toggle : Type := mkToggle {
  icon : option Codicon;
  checked : bool;
  toggle_enabled : bool;
}.

(** [new Toggle({ isChecked: false, ..., icon: Codicon.check })] *)
Definition newToggle : Toggle :=
  {| icon := Some check; checked := false; toggle_enabled := true |}.

(** The table [iconMap] of the autorun 'Update Toggle State'. *)
Definition iconMap (value : ToggleState) : option Codicon * bool :=
  match value with
  | unset => (None, false)
  | conflicting => (Some circleFilled, false)
  | first => (Some check, true)
  | second => (Some checkAll, true)
  end.

(** The body of the autorun, for the values read from [item.toggleState]
    and [item.enabled]. *)
Definition updateToggleState (value : ToggleState) (enabled : bool)
    (checkBox : Toggle) : Toggle :=
  {| icon := (iconMap value).1;
     checked := (iconMap value).2;
     toggle_enabled := if negb enabled then false else true |}.

(** C7.  The check box shows, for [unset], no icon and is unchecked; for
    [conflicting], the icon [circleFilled] and is unchecked; for [first], the
    icon [check] and is checked; for [second], the icon [checkAll] and is
    checked; whatever it showed before.  It is disabled exactly when the
    item's [enabled] reads false. *)
Theorem toggle_renders_state (value : ToggleState) (enabled : bool) (checkBox : Toggle) :
  let rendered := updateToggleState value enabled checkBox in
  (icon rendered, checked rendered) =
    match value with
    | unset => (None, false)
    | conflicting => (Some circleFilled, false)
    | first => (Some check, true)
    | second => (Some checkAll, true)
    end ∧
  (toggle_enabled rendered = false ↔ enabled = false).
Proof.
  destruct value, enabled; simpl; split; try done; split; done.
Qed.

End MergeEditor.

(** ** The loader bundle of [build/lib/optimize.js] *)

Module Optimize.

Record VinylFile : Type := mkFile {
  path : string;
  base : string;
  contents : string;
}.

(** [order], the rank of a file in the bundle. *)
Definition order (f : VinylFile) : nat :=
  if endsWith "loader.js" (path f) then 0
  else if endsWith "css.js" (path f) then 1
  else if endsWith "nls.js" (path f) then 2
  else 3.

(** [files.sort((a, b) => order(a) - order(b))].  The sort of the language
    is stable; it is written here as the insertion of every file, the last
    one first, in front of the first file that does not rank lower. *)
Fixpoint insert (a : VinylFile) (sorted : list VinylFile) : list VinylFile :=
  match sorted with
  | [] => [a]
  | b :: rest =>
      if order a <=? order b then a :: sorted else b :: insert a rest
  end.

Fixpoint sort (files : list VinylFile) : list VinylFile :=
  match files with
  | [] => []
  | a :: rest => insert a (sort rest)
  end.

(** The two files the end handler makes up. *)
Definition fake (bundledFileHeader : string) : VinylFile :=
  {| path := "fake"; base := "."; contents := bundledFileHeader |}.

(** [externalLoaderInfo] is given by its rendering
    [JSON.stringify(externalLoaderInfo, undefined, 2)]. *)
Definition fake2 (externalLoaderInfo : string) : VinylFile :=
  {| path := "fake2"; base := ".";
     contents := "require.config(" +:+ externalLoaderInfo +:+ ");" |}.

(** The end handler of the [es.through]: the files it emits, in order, for
    the [files] its data handler collected. *)
Definition onEnd (bundledFileHeader : string) (externalLoaderInfo : option string)
    (files : list VinylFile) : list VinylFile :=
  let files := sort files in
  let files := fake bundledFileHeader :: files in
  match externalLoaderInfo with
  | Some info => files ++ [fake2 info]
  | None => files
  end.

Definition newLine : string := String (ascii_of_nat 10) EmptyString.

(** [concat('vs/loader.js')] of [gulp-concat], by the contents of the file
    it produces: the contents of the files it receives, in order, joined by a
    newline. *)
Definition concat (files : list VinylFile) : string :=
  String.concat newLine (contents <$> files).

Section host.

(** [readFile] is the contents [gulp.src] reads at a path, [resolved] the
    directory a source folder resolves to, and [nameDefine] the rewriting
    [contents.replace(/^define\(/m, `define("${amdModuleId}",`)]. *)
Variable readFile : string → string.
Variable resolved : string → string.
Variable nameDefine : string → string → string.

(** [loaderPlugin(src, base, amdModuleId)], for the one file it reads. *)
Definition loaderPlugin (dir file : string) (amdModuleId : option string) : VinylFile :=
  {| path := resolved dir +:+ file;
     base := resolved dir;
     contents := match amdModuleId with
                 | Some id => nameDefine id (readFile (resolved dir +:+ file))
                 | None => readFile (resolved dir +:+ file)
                 end |}.

(** The files [loaderStream] delivers, listed loader first; [es.merge]
    delivers them in any order. *)
Definition loaderStream (src : string) (bundleLoader : bool) : list VinylFile :=
  loaderPlugin src "/vs/loader.js" None
  :: if bundleLoader
     then [ loaderPlugin src "/vs/css.js" (Some "vs/css");
            loaderPlugin src "/vs/nls.js" (Some "vs/nls") ]
     else [].

(** [loader(src, bundledFileHeader, bundleLoader, externalLoaderInfo)]: the
    contents of [vs/loader.js] for the order [arrived] in which the stream
    delivered its files. *)
Definition loader (bundledFileHeader : string) (externalLoaderInfo : option string)
    (arrived : list VinylFile) : string :=
  concat (onEnd bundledFileHeader externalLoaderInfo arrived).

End host.

(** *** Suffixes *)

Lemma append_assoc (a b c : string) : (a +:+ b) +:+ c = a +:+ (b +:+ c).
Proof.
  induction a as [|x a IH]; [done|].
  change (String x ((a +:+ b) +:+ c) = String x (a +:+ (b +:+ c))). by rewrite IH.
Qed.

Lemma rev_app_append (s acc : string) : String.rev_app s acc = String.rev s +:+ acc.
Proof.
  revert acc. induction s as [|x s IH]; intros acc; [done|].
  change (String.rev_app s (String x acc)
          = String.rev_app s (String x EmptyString) +:+ acc).
  rewrite (IH (String x acc)), (IH (String x EmptyString)).
  by rewrite append_assoc.
Qed.

Lemma append_empty (a : string) : a +:+ EmptyString = a.
Proof.
  induction a as [|x a IH]; [done|].
  change (String x (a +:+ EmptyString) = String x a). by rewrite IH.
Qed.

Lemma rev_append (a b : string) : String.rev (a +:+ b) = String.rev b +:+ String.rev a.
Proof.
  induction a as [|x a IH].
  - change (String.rev b = String.rev b +:+ EmptyString). by rewrite append_empty.
  - change (String.rev_app (a +:+ b) (String x EmptyString)
            = String.rev b +:+ String.rev_app a (String x EmptyString)).
    rewrite !rev_app_append, IH. by rewrite append_assoc.
Qed.

Lemma startsWith_append (searchString rest : string) :
  startsWith searchString (searchString +:+ rest) = true.
Proof.
  induction searchString as [|x s IH]; [done|].
  change (Ascii.eqb x x && startsWith s (s +:+ rest) = true).
  by rewrite Ascii.eqb_refl.
Qed.

Lemma endsWith_append (s searchString : string) :
  endsWith searchString (s +:+ searchString) = true.
Proof. unfold endsWith. rewrite rev_append. apply startsWith_append. Qed.

(** *** The sort *)

Definition ranked (a b : VinylFile) : Prop := order a ≤ order b.

Lemma insert_Permutation a files : insert a files ≡ₚ a :: files.
Proof.
  induction files as [|b rest IH]; simpl; [done|].
  destruct (order a <=? order b); [done|]. rewrite IH. apply Permutation_swap.
Qed.

Lemma sort_Permutation files : sort files ≡ₚ files.
Proof.
  induction files as [|a rest IH]; simpl; [done|].
  by rewrite insert_Permutation, IH.
Qed.

Lemma insert_sorted a files :
  StronglySorted ranked files → StronglySorted ranked (insert a files).
Proof.
  induction 1 as [|b rest Hrest IH Hb]; simpl.
  - repeat constructor.
  - destruct (order a <=? order b) eqn:E.
    + apply Nat.leb_le in E. constructor; [by constructor|].
      constructor; [done|]. eapply Forall_impl; [exact Hb|].
      intros c Hc. unfold ranked in *. lia.
    + apply Nat.leb_gt in E. constructor; [done|].
      rewrite insert_Permutation. constructor; [|done]. unfold ranked. lia.
Qed.

Lemma sort_sorted files : StronglySorted ranked (sort files).
Proof.
  induction files as [|a rest IH]; simpl; [constructor|]. by apply insert_sorted.
Qed.

(** Stability: files of one rank keep the order in which they arrived. *)
Lemma insert_stable k a files :
  filter (λ f, order f = k) (insert a files) = filter (λ f, order f = k) (a :: files).
Proof.
  induction files as [|b rest IH]; simpl; [done|].
  destruct (order a <=? order b) eqn:E; [done|]. apply Nat.leb_gt in E.
  rewrite (filter_cons _ b), IH, !filter_cons.
  destruct (decide (order b = k)), (decide (order a = k)); try done. lia.
Qed.

Lemma sort_stable k files :
  filter (λ f, order f = k) (sort files) = filter (λ f, order f = k) files.
Proof.
  induction files as [|a rest IH]; simpl; [done|].
  by rewrite insert_stable, !filter_cons, IH.
Qed.

(** *** The files of the repository's stream *)

Section bundle.

Variable readFile : string → string.
Variable resolved : string → string.
Variable nameDefine : string → string → string.

Lemma order_loader src :
  order (loaderPlugin readFile resolved nameDefine src "/vs/loader.js" None) = 0.
Proof.
  unfold order, loaderPlugin; simpl.
  change "/vs/loader.js" with ("/vs/" +:+ "loader.js").
  by rewrite <- append_assoc, endsWith_append.
Qed.

Lemma order_css src id :
  order (loaderPlugin readFile resolved nameDefine src "/vs/css.js" id) = 1.
Proof.
  unfold order, loaderPlugin; simpl.
  assert (endsWith "loader.js" (resolved src +:+ "/vs/css.js") = false) as ->.
  { unfold endsWith. by rewrite rev_append. }
  change "/vs/css.js" with ("/vs/" +:+ "css.js").
  by rewrite <- append_assoc, endsWith_append.
Qed.

Lemma order_nls src id :
  order (loaderPlugin readFile resolved nameDefine src "/vs/nls.js" id) = 2.
Proof.
  unfold order, loaderPlugin; simpl.
  assert (endsWith "loader.js" (resolved src +:+ "/vs/nls.js") = false) as ->.
  { unfold endsWith. by rewrite rev_append. }
  assert (endsWith "css.js" (resolved src +:+ "/vs/nls.js") = false) as ->.
  { unfold endsWith. by rewrite rev_append. }
  change "/vs/nls.js" with ("/vs/" +:+ "nls.js").
  by rewrite <- append_assoc, endsWith_append.
Qed.

Lemma loaderStream_sorted src bundleLoader :
  StronglySorted ranked (loaderStream readFile resolved nameDefine src bundleLoader).
Proof.
  unfold loaderStream. destruct bundleLoader.
  - repeat constructor; unfold ranked;
      rewrite ?order_loader, ?order_css, ?order_nls; lia.
  - repeat constructor.
Qed.

Lemma loaderStream_order_inj src bundleLoader f g :
  f ∈ loaderStream readFile resolved nameDefine src bundleLoader →
  g ∈ loaderStream readFile resolved nameDefine src bundleLoader →
  order f = order g → f = g.
Proof.
  unfold loaderStream. destruct bundleLoader.
  - rewrite !elem_of_cons, !elem_of_nil.
    intros [->|[->|[->|[]]]] [->|[->|[->|[]]]];
      rewrite ?order_loader, ?order_css, ?order_nls; done.
  - rewrite !elem_of_cons, !elem_of_nil. by intros [->|[]] [->|[]].
Qed.

Lemma sort_loaderStream src bundleLoader arrived :
  arrived ≡ₚ loaderStream readFile resolved nameDefine src bundleLoader →
  sort arrived = loaderStream readFile resolved nameDefine src bundleLoader.
Proof.
  intros Hperm. apply (StronglySorted_unique_strong ranked).
  - intros f g Hf Hg Hfg Hgf. unfold ranked in *.
    rewrite sort_Permutation, Hperm in Hf.
    eapply loaderStream_order_inj; eauto. lia.
  - apply sort_sorted.
  - apply loaderStream_sorted.
  - by rewrite sort_Permutation.
Qed.

(** C8.  The end handler emits first a file with the bundled file header
    as its contents, then the collected files sorted by [order] (files ending
    in [loader.js] rank 0, in [css.js] 1, in [nls.js] 2, all others 3; files
    of one rank keep their order of arrival), and last, when
    [externalLoaderInfo] is defined, a file whose contents are
    [require.config(...)] around its rendering.  For the files of the
    repository's stream, in whatever order they arrive, that is: header,
    [loader.js], [css.js] and [nls.js], the last two with their [define]
    named.  The contents of [vs/loader.js] are the header, the contents of
    the sorted files and the [require.config] fragment, in that order, joined
    by newlines. *)
Theorem loader_parts_in_order
    (bundledFileHeader : string) (externalLoaderInfo : option string)
    (files : list VinylFile) :
  onEnd bundledFileHeader externalLoaderInfo files
    = {| path := "fake"; base := "."; contents := bundledFileHeader |}
      :: sort files
      ++ match externalLoaderInfo with
         | Some info =>
             [{| path := "fake2"; base := ".";
                 contents := "require.config(" +:+ info +:+ ");" |}]
         | None => []
         end ∧
  sort files ≡ₚ files ∧
  StronglySorted (λ a b, order a ≤ order b) (sort files) ∧
  (∀ k, filter (λ f, order f = k) (sort files) = filter (λ f, order f = k) files) ∧
  (∀ f, order f = if endsWith "loader.js" (path f) then 0
                  else if endsWith "css.js" (path f) then 1
                  else if endsWith "nls.js" (path f) then 2
                  else 3) ∧
  (∀ src bundleLoader,
     files ≡ₚ loaderStream readFile resolved nameDefine src bundleLoader →
     sort files = loaderStream readFile resolved nameDefine src bundleLoader) ∧
  loader bundledFileHeader externalLoaderInfo files
    = String.concat (String (ascii_of_nat 10) EmptyString)
        (bundledFileHeader
         :: (contents <$> sort files)
         ++ match externalLoaderInfo with
            | Some info => ["require.config(" +:+ info +:+ ");"]
            | None => []
            end) ∧
  (∀ src bundleLoader,
     loaderStream readFile resolved nameDefine src bundleLoader
     = {| path := resolved src +:+ "/vs/loader.js"; base := resolved src;
          contents := readFile (resolved src +:+ "/vs/loader.js") |}
       :: if bundleLoader
          then [ {| path := resolved src +:+ "/vs/css.js"; base := resolved src;
                    contents := nameDefine "vs/css"
                                  (readFile (resolved src +:+ "/vs/css.js")) |};
                 {| path := resolved src +:+ "/vs/nls.js"; base := resolved src;
                    contents := nameDefine "vs/nls"
                                  (readFile (resolved src +:+ "/vs/nls.js")) |} ]
          else []).
Proof.
  split.
  { unfold onEnd, fake, fake2. destruct externalLoaderInfo; [done|].
    by rewrite app_nil_r. }
  split; [apply sort_Permutation|].
  split; [apply sort_sorted|].
  split; [intros k; apply sort_stable|].
  split; [done|].
  split; [intros src bundleLoader; apply sort_loaderStream|].
  split; [|done].
  unfold loader, concat, onEnd, fake, fake2, newLine.
  destruct externalLoaderInfo as [info|].
  - by rewrite fmap_app, fmap_cons.
  - by rewrite fmap_cons, app_nil_r.
Qed.

End bundle.

(** The three files of a bundle arriving in another order, with a loader
    configuration. *)
Definition example_read (file : string) : string := "// " +:+ file.
Definition example_resolved (dir : string) : string := "/repo/" +:+ dir.
Definition example_nameDefine (id contents : string) : string :=
  "define(" +:+ id +:+ ") " +:+ contents.

Definition example_arrived : list VinylFile :=
  [ loaderPlugin example_read example_resolved example_nameDefine
      "out-build" "/vs/nls.js" (Some "vs/nls");
    loaderPlugin example_read example_resolved example_nameDefine
      "out-build" "/vs/loader.js" None;
    loaderPlugin example_read example_resolved example_nameDefine
      "out-build" "/vs/css.js" (Some "vs/css") ].

Example onEnd_example :
  path <$> onEnd "/*! header */" (Some "{}") example_arrived
  = ["fake"; "/repo/out-build/vs/loader.js"; "/repo/out-build/vs/css.js";
     "/repo/out-build/vs/nls.js"; "fake2"].
Proof. vm_compute. reflexivity. Qed.

Example loader_example :
  loader "/*! header */" (Some "{}") example_arrived
  = String.concat (String (ascii_of_nat 10) EmptyString)
      [ "/*! header */";
        "// /repo/out-build/vs/loader.js";
        "define(vs/css) // /repo/out-build/vs/css.js";
        "define(vs/nls) // /repo/out-build/vs/nls.js";
        "require.config({});" ].
Proof. vm_compute. reflexivity. Qed.

Lemma loader_parts_in_order_witness :
  example_arrived
    ≡ₚ loaderStream example_read example_resolved example_nameDefine "out-build" true ∧
  sort example_arrived
    = loaderStream example_read example_resolved example_nameDefine "out-build" true.
Proof.
  assert (example_arrived
    ≡ₚ loaderStream example_read example_resolved example_nameDefine "out-build" true)
    as Hperm.
  { unfold example_arrived, loaderStream.
    etrans; [apply Permutation_swap|]. apply Permutation_skip, Permutation_swap. }
  split; [exact Hperm|].
  destruct (loader_parts_in_order example_read example_resolved example_nameDefine
    "/*! header */" (Some "{}") example_arrived) as (_ & _ & _ & _ & _ & Hstream & _).
  by apply Hstream.
Defined.

End Optimize.

(** * Further properties of the modelled code *)

(** ** The in-flight table and the manager's triggers *)

Module ManagerFacts.

Import Manager.

(** The listener of [tableOfContentsWatcher.onTocChanged], for the files of
    the references [getAllReferencesToFile] resolves to: [triggered] is the
    [ResourceMap<void>] of the listener. *)
Definition onTocChangedFile (acc : gmap string () * t) (file : Uri) : gmap string () * t :=
  if ResourceMap.has file acc.1 then acc
  else (ResourceMap.set file () acc.1, triggerDiagnostics file acc.2).

Definition onTocChanged (files : list Uri) (st : t) : t :=
  (foldl onTocChangedFile (∅, st) files).2.

(** The files of a list whose resource did not occur earlier in the list. *)
Fixpoint firstOfResource (seen : gset string) (files : list Uri) : list Uri :=
  match files with
  | [] => []
  | file :: rest =>
      if decide (uri_str file ∈ seen) then firstOfResource seen rest
      else file :: firstOfResource ({[uri_str file]} ∪ seen) rest
  end.

Lemma cancel_absent resource st :
  Inflight.inFlightRequests st !! uri_str resource = None →
  Inflight.cancel resource st = st.
Proof. intros H. unfold Inflight.cancel, ResourceMap.get. by rewrite H. Qed.

Lemma cancel_cancel resource st :
  Inflight.cancel resource (Inflight.cancel resource st) = Inflight.cancel resource st.
Proof.
  apply cancel_absent. rewrite Inflight.cancel_lookup. by rewrite decide_True.
Qed.

Lemma add_add (u : Uri) (s : list Uri) : JsSet.add u (JsSet.add u s) = JsSet.add u s.
Proof.
  unfold JsSet.add at 1. rewrite decide_True; [done|].
  apply JsSet.elem_of_add. by left.
Qed.

(** X1.  Triggers for one [Uri] before the delayed pass coalesce.  A
    second [triggerDiagnostics] re-arms the timer, which this statement
    leaves aside; beyond that it adds nothing to what the first call left:
    the pending set is the same, with the [Uri] in it once, the in-flight
    table is the same, with no request for the resource, no new promise is
    made, and the promise signalled for the resource is the one the first
    call signalled, the promise of the delayed pass. *)
Theorem triggerDiagnostics_twice (uri : Uri) (st : t) :
  let once := triggerDiagnostics uri st in
  let twice := triggerDiagnostics uri once in
  pendingDiagnostics twice = pendingDiagnostics once ∧
  uri ∈ pendingDiagnostics once ∧
  (NoDup (pendingDiagnostics st) → NoDup (pendingDiagnostics twice)) ∧
  inFlightDiagnostics twice = inFlightDiagnostics once ∧
  Inflight.inFlightRequests (inFlightDiagnostics once) !! uri_str uri = None ∧
  Delayer.completionPromise (diagnosticDelayer twice)
    = Delayer.completionPromise (diagnosticDelayer once) ∧
  Delayer.next_promise (diagnosticDelayer twice)
    = Delayer.next_promise (diagnosticDelayer once) ∧
  Reporter.pending (reporter twice) = Reporter.pending (reporter once) ∧
  Reporter.pending (reporter once) !! uri_str uri
    = Delayer.completionPromise (diagnosticDelayer once) ∧
  is_Some (Delayer.completionPromise (diagnosticDelayer once)) ∧
  Reporter.collection (reporter twice) = Reporter.collection (reporter st) ∧
  linkWatcher twice = linkWatcher st.
Proof.
  intros once twice. unfold twice, once, triggerDiagnostics;
    cbn [diagnosticDelayer pendingDiagnostics inFlightDiagnostics linkWatcher reporter].
  split; [apply add_add|].
  split; [apply JsSet.elem_of_add; by left|].
  split; [intros Hnd; by do 2 apply JsSet.NoDup_add|].
  split; [apply cancel_cancel|].
  split; [rewrite Inflight.cancel_lookup; by rewrite decide_True|].
  unfold Reporter.signalTriggered, ResourceMap.set, Delayer.trigger.
  destruct (Delayer.completionPromise (diagnosticDelayer st)) as [p|];
    cbn [Delayer.completionPromise Delayer.next_promise Reporter.pending
         Reporter.collection fst snd];
    rewrite insert_insert_eq, lookup_insert_eq; eauto 12.
Qed.

(** X2.  When a computation whose token was cancelled settles, the [finally]
    block of [trigger] leaves the in-flight table as it is: the request that
    replaced it stays recorded, and no token of a recorded request is
    disposed. *)
Theorem cancelled_computation_settles_silently
    (evs : list Inflight.event) (c : Inflight.config) (resource : Uri) (entry : nat) :
  Inflight.run evs Inflight.init = Some c →
  Inflight.running c !! entry = Some (uri_str resource) →
  entry ∈ Inflight.cancelled (Inflight.table c) →
  let after := Inflight.trigger_finally resource entry (Inflight.table c) in
  Inflight.inFlightRequests after = Inflight.inFlightRequests (Inflight.table c) ∧
  entry ∈ Inflight.disposed after ∧
  (∀ key recorded,
     Inflight.inFlightRequests after !! key = Some recorded →
     recorded ≠ entry ∧ recorded ∉ Inflight.disposed after).
Proof.
  intros Hrun Hrunning Hcancelled after.
  destruct (Inflight.inv_run _ _ Hrun) as [Hrec _].
  assert (Inflight.inFlightRequests after
          = Inflight.inFlightRequests (Inflight.table c)) as Hsame.
  { unfold after, Inflight.trigger_finally, ResourceMap.get; simpl.
    destruct (decide _) as [E|]; [|done].
    apply Hrec in E as (_ & Hnc & _). done. }
  split; [done|]. split.
  { unfold after. rewrite Inflight.trigger_finally_disposed. set_solver. }
  intros key recorded. rewrite Hsame. intros (_ & Hnc & Hnd)%Hrec.
  assert (recorded ≠ entry) by (intros ->; done).
  split; [done|]. unfold after. rewrite Inflight.trigger_finally_disposed. set_solver.
Qed.

Lemma cancelled_computation_settles_silently_witness :
  Inflight.run [Inflight.EvTrigger Inflight.example_a1;
                Inflight.EvTrigger Inflight.example_a2] Inflight.init
  = Some {| Inflight.table :=
              {| Inflight.inFlightRequests := {[ "file:///a.md" := 1 ]};
                 Inflight.cancelled := {[ 0 ]}; Inflight.disposed := ∅;
                 Inflight.next_cts := 2 |};
            Inflight.running := {[ 0 := "file:///a.md"; 1 := "file:///a.md" ]} |} ∧
  Inflight.inFlightRequests
    (Inflight.trigger_finally Inflight.example_a1 0
       {| Inflight.inFlightRequests := {[ "file:///a.md" := 1 ]};
          Inflight.cancelled := {[ 0 ]}; Inflight.disposed := ∅;
          Inflight.next_cts := 2 |})
  = {[ "file:///a.md" := 1 ]}.
Proof.
  assert (Inflight.run [Inflight.EvTrigger Inflight.example_a1;
                        Inflight.EvTrigger Inflight.example_a2] Inflight.init
    = Some {| Inflight.table :=
                {| Inflight.inFlightRequests := {[ "file:///a.md" := 1 ]};
                   Inflight.cancelled := {[ 0 ]}; Inflight.disposed := ∅;
                   Inflight.next_cts := 2 |};
              Inflight.running := {[ 0 := "file:///a.md"; 1 := "file:///a.md" ]} |})
    as Hrun by (vm_compute; reflexivity).
  split; [exact Hrun|].
  refine (proj1 (cancelled_computation_settles_silently _ _ Inflight.example_a1 0
                   Hrun _ _)).
  - vm_compute. reflexivity.
  - vm_compute. reflexivity.
Defined.

(** *** [rebuild] *)

Lemma rebuild_trigger_snoc documents doc st :
  rebuild_trigger (documents ++ [doc]) st
  = triggerDiagnostics (uri doc) (rebuild_trigger documents st).
Proof. unfold rebuild_trigger. by rewrite foldl_app. Qed.

Lemma rebuild_trigger_pending documents st :
  pendingDiagnostics (rebuild_trigger documents st)
  = foldl (λ s u, JsSet.add u s) (pendingDiagnostics st) (uri <$> documents).
Proof.
  unfold rebuild_trigger.
  revert st. induction documents as [|doc documents IH]; intros st;
    cbn [foldl fmap list_fmap]; [done|].
  by rewrite IH.
Qed.

Lemma rebuild_trigger_collection documents st :
  Reporter.collection (reporter (rebuild_trigger documents st))
  = Reporter.collection (reporter st).
Proof.
  unfold rebuild_trigger.
  revert st. induction documents as [|doc documents IH]; intros st; cbn [foldl]; [done|].
  by rewrite IH.
Qed.

Lemma rebuild_trigger_linkWatcher documents st :
  linkWatcher (rebuild_trigger documents st) = linkWatcher st.
Proof.
  unfold rebuild_trigger.
  revert st. induction documents as [|doc documents IH]; intros st; cbn [foldl]; [done|].
  by rewrite IH.
Qed.

(** The requests of the triggered resources are cancelled and removed; the
    other requests stay, and nothing is disposed. *)
Lemma rebuild_trigger_inFlight documents st :
  (∀ key,
     Inflight.inFlightRequests (inFlightDiagnostics (rebuild_trigger documents st)) !! key
     = if decide (key ∈ (λ doc, uri_str (uri doc)) <$> documents) then None
       else Inflight.inFlightRequests (inFlightDiagnostics st) !! key) ∧
  (∀ entry,
     entry ∈ Inflight.cancelled (inFlightDiagnostics (rebuild_trigger documents st)) ↔
     entry ∈ Inflight.cancelled (inFlightDiagnostics st) ∨
     ∃ doc, doc ∈ documents ∧
       Inflight.inFlightRequests (inFlightDiagnostics st) !! uri_str (uri doc)
       = Some entry) ∧
  Inflight.disposed (inFlightDiagnostics (rebuild_trigger documents st))
  = Inflight.disposed (inFlightDiagnostics st).
Proof.
  induction documents as [|doc documents IH] using rev_ind.
  { split; [|split; [|done]].
    - intros key. by rewrite decide_False by apply not_elem_of_nil.
    - intros entry. split; [by left|]. intros [?|(doc & []%elem_of_nil & _)]. done. }
  destruct IH as (Hlookup & Hcancelled & Hdisposed).
  rewrite rebuild_trigger_snoc. unfold triggerDiagnostics at 1 2 3.
  cbn [inFlightDiagnostics]. split; [|split].
  - intros key. rewrite Inflight.cancel_lookup, Hlookup, fmap_app.
    cbn [fmap list_fmap].
    destruct (decide (uri_str (uri doc) = key)) as [<-|Hne].
    + rewrite decide_True; [done|]. apply elem_of_app. right. by left.
    + destruct (decide (key ∈ (λ doc, uri_str (uri doc)) <$> documents)) as [Hin|Hnin].
      * rewrite decide_True; [done|]. apply elem_of_app. by left.
      * rewrite decide_False; [done|].
        intros [?|[?|[]%elem_of_nil]%elem_of_cons]%elem_of_app; done.
  - intros entry. rewrite Inflight.cancel_cancelled, Hcancelled, Hlookup.
    setoid_rewrite elem_of_app. setoid_rewrite list_elem_of_singleton.
    destruct (decide (uri_str (uri doc) ∈ (λ doc, uri_str (uri doc)) <$> documents))
      as [(doc' & Heq & Hin)%list_elem_of_fmap|Hnin].
    + split.
      * intros [[?|(d & ? & ?)]|?]; [by left|right; eauto|done].
      * intros [?|(d & [?| ->] & Hd)]; [by left; left|left; right; eauto|].
        left. right. exists doc'. split; [done|]. by rewrite <- Heq.
    + split.
      * intros [[?|(d & ? & ?)]|?]; [by left|right; eauto|right; eauto].
      * intros [?|(d & [?| ->] & Hd)]; [by left; left|left; right; eauto|by right].
  - by rewrite Inflight.cancel_disposed.
Qed.

(** X3.  [rebuild] in its two halves, with whatever the listeners and the
    delayed pass do while it waits for the documents of the workspace.  Its
    first half empties the in-flight table and disposes the token of every
    recorded request, but cancels none, and it empties the pending set, the
    published diagnostics and the signalled promises.  Its second half, on
    the manager as it then is, makes every document it got pending and
    keeps what was pending, each [Uri] once; it cancels and removes the
    requests of those documents, leaves the other requests alone, and
    publishes and disposes nothing.  When nothing ran in between, exactly
    the documents are pending. *)
Theorem rebuild_clears_without_cancelling
    (documents : list SkinnyTextDocument) (st during : t) :
  let cleared := rebuild_clear st in
  let rebuilt := rebuild_trigger documents during in
  (Inflight.inFlightRequests (inFlightDiagnostics cleared) = ∅ ∧
   Inflight.cancelled (inFlightDiagnostics cleared)
     = Inflight.cancelled (inFlightDiagnostics st) ∧
   (∀ key entry,
      Inflight.inFlightRequests (inFlightDiagnostics st) !! key = Some entry →
      entry ∈ Inflight.disposed (inFlightDiagnostics cleared)) ∧
   pendingDiagnostics cleared = [] ∧
   Reporter.collection (reporter cleared) = ∅ ∧
   Reporter.pending (reporter cleared) = ∅ ∧
   linkWatcher cleared = linkWatcher st ∧
   diagnosticDelayer cleared = diagnosticDelayer st) ∧
  ((∀ u, u ∈ pendingDiagnostics rebuilt ↔
         u ∈ pendingDiagnostics during ∨ u ∈ uri <$> documents) ∧
   (NoDup (pendingDiagnostics during) → NoDup (pendingDiagnostics rebuilt)) ∧
   (∀ key,
      Inflight.inFlightRequests (inFlightDiagnostics rebuilt) !! key
      = if decide (key ∈ (λ doc, uri_str (uri doc)) <$> documents) then None
        else Inflight.inFlightRequests (inFlightDiagnostics during) !! key) ∧
   (∀ doc entry, doc ∈ documents →
      Inflight.inFlightRequests (inFlightDiagnostics during) !! uri_str (uri doc)
        = Some entry →
      entry ∈ Inflight.cancelled (inFlightDiagnostics rebuilt)) ∧
   Inflight.disposed (inFlightDiagnostics rebuilt)
     = Inflight.disposed (inFlightDiagnostics during) ∧
   Reporter.collection (reporter rebuilt) = Reporter.collection (reporter during) ∧
   linkWatcher rebuilt = linkWatcher during) ∧
  pendingDiagnostics (rebuild_trigger documents cleared)
    = JsSet.of_list (uri <$> documents).
Proof.
  intros cleared rebuilt. split; [|split].
  - unfold cleared, rebuild_clear;
      cbn [inFlightDiagnostics reporter pendingDiagnostics linkWatcher diagnosticDelayer].
    split; [done|]. split; [done|]. split; [|done].
    intros key entry He. apply Inflight.clear_disposed. eauto.
  - unfold rebuilt.
    destruct (rebuild_trigger_inFlight documents during)
      as (Hlookup & Hcancelled & Hdisposed).
    pose proof (JsSet.foldl_add_spec (uri <$> documents) (pendingDiagnostics during))
      as Hadd.
    split.
    { intros u. rewrite rebuild_trigger_pending. apply Hadd. }
    split.
    { intros Hnd. rewrite rebuild_trigger_pending. by apply Hadd. }
    split; [exact Hlookup|].
    split.
    { intros doc entry Hdoc He. apply Hcancelled. right. eauto. }
    split; [exact Hdisposed|].
    split; [apply rebuild_trigger_collection|apply rebuild_trigger_linkWatcher].
  - by rewrite rebuild_trigger_pending.
Qed.

(** X4.  Closing a text document removes its [Uri] from the pending set,
    cancels and removes the in-flight request of the resource, removes the
    document from every entry of the link watcher (other documents keep
    their links), and deletes its published diagnostics and its signalled
    promise. *)
Theorem close_forgets_document (uri : Uri) (st : t) :
  let st' := onDidCloseTextDocument uri st in
  let key := uri_str uri in
  (∀ u, u ∈ pendingDiagnostics st' ↔ u ∈ pendingDiagnostics st ∧ u ≠ uri) ∧
  Inflight.inFlightRequests (inFlightDiagnostics st') !! key = None ∧
  (∀ entry, Inflight.inFlightRequests (inFlightDiagnostics st) !! key = Some entry →
            entry ∈ Inflight.cancelled (inFlightDiagnostics st')) ∧
  (∀ p, ¬ LinkWatcher.references (linkWatcher st') p key) ∧
  (∀ p d, d ≠ key →
     (LinkWatcher.references (linkWatcher st') p d
      ↔ LinkWatcher.references (linkWatcher st) p d)) ∧
  Reporter.collection (reporter st') !! key = None ∧
  Reporter.pending (reporter st') !! key = None.
Proof.
  intros st' key. unfold st', onDidCloseTextDocument;
    cbn [pendingDiagnostics inFlightDiagnostics linkWatcher reporter].
  split.
  { intros u. rewrite JsSet.elem_of_delete. naive_solver. }
  split.
  { rewrite Inflight.cancel_lookup. by rewrite decide_True. }
  split.
  { intros entry He. apply Inflight.cancel_cancelled. by right. }
  split.
  { intros p. unfold LinkWatcher.deleteDocument.
    rewrite LinkWatcher.updateLinksForDocument_references, decide_True by done.
    unfold LinkWatcher.linkedPaths; simpl. apply not_elem_of_nil. }
  split.
  { intros p d Hd. unfold LinkWatcher.deleteDocument.
    rewrite LinkWatcher.updateLinksForDocument_references.
    rewrite decide_False; [done|]. by intros <-. }
  unfold Reporter.delete, ResourceMap.delete; simpl.
  by rewrite !lookup_delete_eq.
Qed.

(** *** The table-of-contents listener *)

Lemma onTocChanged_fold files (seen : gmap string ()) st :
  (foldl onTocChangedFile (seen, st) files).2
  = foldl (λ st u, triggerDiagnostics u st) st (firstOfResource (dom seen) files).
Proof.
  revert seen st. induction files as [|file files IH]; intros seen st; [done|].
  cbn [foldl firstOfResource]. unfold onTocChangedFile at 2.
  cbn [fst snd]. unfold ResourceMap.has.
  destruct (decide (uri_str file ∈ dom seen)) as [Hin|Hnin].
  - rewrite bool_decide_eq_true_2 by (by apply elem_of_dom). apply IH.
  - rewrite bool_decide_eq_false_2 by (by rewrite <- elem_of_dom).
    rewrite IH. unfold ResourceMap.set. by rewrite dom_insert_L.
Qed.

Lemma firstOfResource_spec files seen :
  NoDup (uri_str <$> firstOfResource seen files) ∧
  (∀ key, key ∈ uri_str <$> firstOfResource seen files ↔
          key ∈ uri_str <$> files ∧ key ∉ seen) ∧
  sublist (firstOfResource seen files) files.
Proof.
  revert seen. induction files as [|file files IH]; intros seen; cbn [firstOfResource].
  - split; [constructor|]. split; [|done]. intros key. simpl. rewrite elem_of_nil.
    naive_solver.
  - destruct (decide (uri_str file ∈ seen)) as [Hin|Hnin].
    + destruct (IH seen) as (Hnd & Hmem & Hsub). split; [done|]. split.
      * intros key. rewrite Hmem, fmap_cons, elem_of_cons. naive_solver.
      * by apply sublist_cons.
    + destruct (IH ({[uri_str file]} ∪ seen)) as (Hnd & Hmem & Hsub).
      rewrite !fmap_cons. split.
      * apply NoDup_cons. split; [|done]. rewrite Hmem. set_solver.
      * split; [|by apply sublist_skip].
        intros key. rewrite !elem_of_cons, Hmem.
        destruct (decide (key = uri_str file)) as [->|]; set_solver.
Qed.

(** X5.  When the table of contents of a document changes, the listener
    triggers diagnostics once for every resource among the referencing
    files: for the first [Uri] of each resource, in the order of the
    references, and for no other. *)
Theorem onTocChanged_triggers_each_resource_once (files : list Uri) (st : t) :
  let triggered := firstOfResource ∅ files in
  onTocChanged files st = foldl (λ st u, triggerDiagnostics u st) st triggered ∧
  NoDup (uri_str <$> triggered) ∧
  (∀ key, key ∈ uri_str <$> triggered ↔ key ∈ uri_str <$> files) ∧
  sublist triggered files.
Proof.
  intros triggered. unfold triggered, onTocChanged.
  rewrite onTocChanged_fold, dom_empty_L.
  destruct (firstOfResource_spec files ∅) as (Hnd & Hmem & Hsub).
  split; [done|]. split; [done|]. split; [|done].
  intros key. rewrite Hmem. set_solver.
Qed.

End ManagerFacts.

(** ** The link watcher: disposal and calls that change nothing *)

Module LinkWatcherFacts.

Import LinkWatcher.

(** [dispose()]: every watcher is disposed and the map is cleared. *)
Definition dispose (st : t) : t :=
  {| _watchers := ∅;
     next_watcher := next_watcher st;
     disposedWatchers := map_img (watcher <$> _watchers st) ∪ disposedWatchers st |}.

(** X6.  After [dispose], whatever calls came before, no path is watched and
    every file watcher that was ever started is disposed. *)
Theorem dispose_leaves_no_watcher (calls : list call) :
  let st := dispose (run calls) in
  _watchers st = ∅ ∧
  ∀ w, w < next_watcher st → w ∈ disposedWatchers st.
Proof.
  intros st. split; [done|]. intros w Hw.
  unfold st, dispose in *; simpl in *.
  rewrite elem_of_union, elem_of_map_img.
  destruct (ok_accounted _ (run_ok calls) w Hw) as [?|(p & e & He & <-)]; [by right|].
  left. exists p. by rewrite lookup_fmap, He.
Qed.

(** The second loop when every path already has an entry. *)
Lemma watchPaths_existing document paths st :
  (∀ path, path ∈ paths → is_Some (_watchers st !! uri_str path)) →
  next_watcher (foldl (watchPath document) st paths) = next_watcher st ∧
  disposedWatchers (foldl (watchPath document) st paths) = disposedWatchers st ∧
  ∀ p, _watchers (foldl (watchPath document) st paths) !! p =
       if decide (p ∈ uri_str <$> paths)
       then (λ e, {| watcher := watcher e;
                     documents := <[uri_str document := document]> (documents e) |})
            <$> _watchers st !! p
       else _watchers st !! p.
Proof.
  revert st. induction paths as [|path paths IH]; intros st Hex; cbn [foldl].
  { split; [done|]. split; [done|]. intros p. rewrite decide_False; [done|].
    simpl. apply not_elem_of_nil. }
  destruct (Hex path) as [e0 He0]; [by left|].
  assert (∀ p, _watchers (watchPath document st path) !! p =
    if decide (uri_str path = p)
    then Some {| watcher := watcher e0;
                 documents := <[uri_str document := document]> (documents e0) |}
    else _watchers st !! p) as Hstep.
  { intros p. rewrite watchPath_lookup.
    destruct (decide (uri_str path = p)) as [<-|]; [|done]. by rewrite He0. }
  destruct (IH (watchPath document st path)) as (Hn & Hd & Hl).
  { intros path' Hin. rewrite Hstep.
    destruct (decide (uri_str path = uri_str path')); [eauto|].
    apply Hex. by right. }
  rewrite Hn, Hd, watchPath_disposed. split.
  { unfold watchPath, ResourceMap.get. by rewrite He0. }
  split; [done|]. intros p. rewrite Hl, Hstep, fmap_cons.
  destruct (decide (uri_str path = p)) as [<-|Hne].
  - rewrite He0.
    destruct (decide (uri_str path ∈ uri_str path :: (uri_str <$> paths)))
      as [_|Hn']; [|destruct Hn'; by left].
    destruct (decide (uri_str path ∈ uri_str <$> paths)); [|done].
    simpl. by rewrite insert_insert_eq.
  - destruct (decide (p ∈ uri_str <$> paths)) as [Hin|Hnin].
    + destruct (decide (p ∈ uri_str path :: (uri_str <$> paths)))
        as [_|Hn']; [done|]. destruct Hn'. by right.
    + destruct (decide (p ∈ uri_str path :: (uri_str <$> paths)))
        as [[->|?]%elem_of_cons|_]; done.
Qed.

Lemma cleanUp_referenced_id st : referenced st → cleanUp st = st.
Proof.
  intros Href. unfold cleanUp.
  assert (filter (λ kv : string * entry, ¬ unreferenced kv.2) (_watchers st)
          = _watchers st) as ->.
  { apply map_filter_id. intros p e He. simpl. unfold unreferenced.
    rewrite map_size_empty_iff. by apply (Href p). }
  assert (filter (λ kv : string * entry, unreferenced kv.2) (_watchers st) = ∅) as ->.
  { apply map_eq. intros p. rewrite lookup_empty.
    apply map_lookup_filter_None. right. intros e He. simpl. unfold unreferenced.
    rewrite map_size_empty_iff. by apply (Href p). }
  rewrite fmap_empty, map_img_empty_L, (left_id_L ∅ (∪)). by destruct st.
Qed.

(** Reporting links that the watcher already has for the document, through
    the [Uri] it already stores, changes nothing. *)
Lemma update_known_links document links st :
  referenced st →
  (∀ p, p ∈ linkedPaths links ↔ references st p (uri_str document)) →
  (∀ p e u, _watchers st !! p = Some e →
            documents e !! uri_str document = Some u → u = document) →
  updateLinksForDocument document links st = st.
Proof.
  intros Href Hlinks Hobj. unfold updateLinksForDocument.
  assert (∀ p, p ∈ uri_str <$> JsSet.of_list (internalPaths links)
               ↔ references st p (uri_str document)) as Hkeys.
  { intros p. rewrite <- Hlinks. unfold linkedPaths. rewrite !list_elem_of_fmap.
    by setoid_rewrite JsSet.elem_of_of_list. }
  destruct (watchPaths_existing document (JsSet.of_list (internalPaths links))
              (forgetDocument document st)) as (Hn & Hd & Hl).
  { intros path Hin. rewrite forgetDocument_lookup.
    destruct (Hkeys (uri_str path)) as [(e & He & _) _].
    - by apply list_elem_of_fmap_2.
    - by rewrite He. }
  assert (foldl (watchPath document) (forgetDocument document st)
            (JsSet.of_list (internalPaths links)) = st) as ->; [|by apply cleanUp_referenced_id].
  destruct (foldl _ _ _) as [W n D]. destruct st as [W0 n0 D0]. simpl in *.
  subst n D. f_equal. apply map_eq. intros p. rewrite Hl, lookup_fmap. clear Hl.
  destruct (W0 !! p) as [e|] eqn:He; simpl; [|by destruct (decide _)].
  destruct (decide (p ∈ _)) as [Hin|Hnin]; simpl.
  - apply Hkeys in Hin as (e' & He' & [u Hu]). simpl in He'.
    assert (e' = e) as -> by congruence.
    rewrite (Hobj _ _ _ He Hu) in Hu. unfold ResourceMap.delete.
    rewrite insert_delete_eq, insert_id by done. by destruct e.
  - unfold ResourceMap.delete. rewrite delete_id; [by destruct e|].
    destruct (documents e !! uri_str document) as [u|] eqn:Hu; [|done].
    destruct Hnin. apply Hkeys. exists e. eauto.
Qed.

Lemma watchPaths_stored document paths st :
  (∀ p e u, _watchers st !! p = Some e →
            documents e !! uri_str document = Some u → u = document) →
  ∀ p e u, _watchers (foldl (watchPath document) st paths) !! p = Some e →
           documents e !! uri_str document = Some u → u = document.
Proof.
  revert st. induction paths as [|path paths IH]; intros st Hst; cbn [foldl]; [done|].
  apply IH. intros p e u. rewrite watchPath_lookup.
  destruct (decide (uri_str path = p)) as [<-|]; [|by apply Hst].
  intros [= <-]. simpl. rewrite lookup_insert_eq. congruence.
Qed.

Lemma updateLinksForDocument_stored document links st p e u :
  _watchers (updateLinksForDocument document links st) !! p = Some e →
  documents e !! uri_str document = Some u → u = document.
Proof.
  unfold updateLinksForDocument. intros [He _]%cleanUp_lookup. revert p e u He.
  apply watchPaths_stored. intros p e u.
  rewrite forgetDocument_lookup, fmap_Some. intros (e0 & _ & ->). simpl.
  by rewrite lookup_delete_eq.
Qed.

(** X7.  Reporting the links of a document a second time leaves the link
    watcher exactly as the first report left it: no watcher is started or
    disposed and no entry changes. *)
Theorem report_again_changes_nothing
    (calls : list call) (document : Uri) (links : list MdLink) :
  let st := run (calls ++ [UpdateLinks document links]) in
  updateLinksForDocument document links st = st.
Proof.
  intros st. apply update_known_links.
  - apply run_referenced.
  - intros p. unfold st. rewrite run_references, lastReported_snoc.
    by rewrite decide_True.
  - unfold st. rewrite run_calls_snoc. simpl.
    apply updateLinksForDocument_stored.
Qed.

(** X8.  Deleting a document whose last report holds no internal link (or
    that never reported any) leaves the link watcher unchanged. *)
Theorem delete_unlinked_document_changes_nothing (calls : list call) (resource : Uri) :
  linkedPaths (lastReported calls (uri_str resource)) = [] →
  deleteDocument resource (run calls) = run calls.
Proof.
  intros Hnone.
  assert (∀ p, ¬ references (run calls) p (uri_str resource)) as Hno.
  { intros p. rewrite run_references, Hnone. apply not_elem_of_nil. }
  apply update_known_links.
  - apply run_referenced.
  - intros p. split; [by intros ?%elem_of_nil|]. intros H. by apply Hno in H.
  - intros p e u He Hu. destruct (Hno p). exists e. eauto.
Qed.

Lemma delete_unlinked_document_witness :
  linkedPaths (lastReported
     [UpdateLinks example_doc_a [example_link 3 "file:///target.md"]]
     (uri_str example_doc_b)) = [] ∧
  deleteDocument example_doc_b
    (run [UpdateLinks example_doc_a [example_link 3 "file:///target.md"]])
  = run [UpdateLinks example_doc_a [example_link 3 "file:///target.md"]].
Proof.
  assert (linkedPaths (lastReported
     [UpdateLinks example_doc_a [example_link 3 "file:///target.md"]]
     (uri_str example_doc_b)) = []) as H by reflexivity.
  split; [exact H|].
  exact (delete_unlinked_document_changes_nothing _ example_doc_b H).
Defined.

End LinkWatcherFacts.

(** ** One recomputation, from the options to the published diagnostics *)

Module Pipeline.

Section host.

(** [configuration.getOptions] and the host functions of the computer.  The
    link computer is called with the token of the computation,
    [getAllLinks(doc, token)], and may answer by it. *)
Variable getOptions : Uri → DiagnosticOptions.
Variable getAllLinks : SkinnyTextDocument → (Computer.checkpoint → bool) → list MdLink.
Variable isMatch : string → string → bool.
Variable tryFindMdDocumentForLink : string → option SkinnyTextDocument.
Variable pathExists : string → bool.
Variable fsPath : string → string.
Variable tocLookup : SkinnyTextDocument → string → bool.
Variable definitionLookup : list MdLink → string → bool.
Variable withStartTranslated : Range → Range.

(** [recomputeDiagnosticState(doc, token)]: diagnostics, links and config. *)
Definition recomputeDiagnosticState (doc : SkinnyTextDocument)
    (token : Computer.checkpoint → bool)
    : list Diagnostic * list MdLink * DiagnosticOptions :=
  let config := getOptions (uri doc) in
  if negb (Options.enabled config) then ([], [], config)
  else
    let r := Computer.getDiagnostics (λ doc, getAllLinks doc token) isMatch
               tryFindMdDocumentForLink pathExists fsPath tocLookup definitionLookup
               withStartTranslated doc config token in
    (r.2, r.1, config).

(** The function [compute] that [recomputePendingDiagnostics] hands to
    [trigger], followed by the [finally] block of [trigger]. *)
Definition compute (tabGroups : Reporter.TabGroups) (doc : SkinnyTextDocument)
    (entry : nat) (token : Computer.checkpoint → bool) (st : Manager.t) : Manager.t :=
  let state := recomputeDiagnosticState doc token in
  Manager.settle tabGroups doc entry state.2 state.1.2 state.1.1 st.

Lemma recomputeDiagnosticState_config doc token :
  (recomputeDiagnosticState doc token).2 = getOptions (uri doc).
Proof. unfold recomputeDiagnosticState. by destruct (negb _). Qed.

Lemma recomputeDiagnosticState_links doc token :
  (recomputeDiagnosticState doc token).1.2 =
  if Options.enabled (getOptions (uri doc)) then getAllLinks doc token else [].
Proof.
  unfold recomputeDiagnosticState, Computer.getDiagnostics.
  destruct (Options.enabled (getOptions (uri doc))); simpl; [|done].
  by destruct (token Computer.AfterLinks).
Qed.

Lemma recomputeDiagnosticState_cancelled doc token :
  Options.enabled (getOptions (uri doc)) = false ∨ token Computer.AfterLinks = true →
  (recomputeDiagnosticState doc token).1.1 = [].
Proof.
  unfold recomputeDiagnosticState, Computer.getDiagnostics.
  intros [-> | ->]; simpl; [done|].
  by destruct (Options.enabled (getOptions (uri doc))).
Qed.

(** X9.  After a recomputation of a document, the link watcher holds the
    document for a path exactly when validation is enabled, the file-link
    option is set (to any level, [ignore] included), and the links that the
    link computer returned for the document and the token of the
    computation hold an internal link to the path; the links of other
    documents are untouched.  The update is not guarded by the token: what
    the link computer returned under a cancelled token is reported all the
    same. *)
Theorem compute_watches_links_when_enabled
    (tabGroups : Reporter.TabGroups) (doc : SkinnyTextDocument) (entry : nat)
    (token : Computer.checkpoint → bool) (st : Manager.t) :
  let st' := compute tabGroups doc entry token st in
  let config := getOptions (uri doc) in
  (∀ p, (∃ e, LinkWatcher._watchers (Manager.linkWatcher st') !! p = Some e ∧
              is_Some (LinkWatcher.documents e !! uri_str (uri doc))) ↔
        Options.enabled config = true ∧
        is_Some (Options.validateFileLinks config) ∧
        ∃ mdLink path fragment,
          mdLink ∈ getAllLinks doc token ∧
          href mdLink = InternalHref path fragment ∧ uri_str path = p) ∧
  (∀ p d, d ≠ uri_str (uri doc) →
     ((∃ e, LinkWatcher._watchers (Manager.linkWatcher st') !! p = Some e ∧
            is_Some (LinkWatcher.documents e !! d)) ↔
      (∃ e, LinkWatcher._watchers (Manager.linkWatcher st) !! p = Some e ∧
            is_Some (LinkWatcher.documents e !! d)))).
Proof.
  intros st' config. unfold st', compute, Manager.settle; cbn [Manager.linkWatcher].
  rewrite recomputeDiagnosticState_config, recomputeDiagnosticState_links.
  fold config. split.
  - intros p.
    change (LinkWatcher.references
              (LinkWatcher.updateLinksForDocument (uri doc)
                 (if Options.enabled config
                     && bool_decide (is_Some (Options.validateFileLinks config))
                  then if Options.enabled config then getAllLinks doc token else []
                  else []) (Manager.linkWatcher st)) p (uri_str (uri doc)) ↔
            Options.enabled config = true ∧
            is_Some (Options.validateFileLinks config) ∧
            LinkWatcher.linksTo (getAllLinks doc token) p).
    rewrite LinkWatcher.updateLinksForDocument_references.
    rewrite decide_True by done. rewrite LinkWatcher.linkedPaths_linksTo.
    assert (¬ LinkWatcher.linksTo [] p) as Hnil.
    { by intros (mdLink & ? & ? & []%elem_of_nil & _). }
    destruct (Options.enabled config); simpl.
    + destruct (Options.validateFileLinks config) as [level|]; simpl.
      * naive_solver.
      * split; [done|]. by intros (_ & [? [=]] & _).
    + naive_solver.
  - intros p d Hd.
    change (LinkWatcher.references
              (LinkWatcher.updateLinksForDocument (uri doc)
                 (if Options.enabled config
                     && bool_decide (is_Some (Options.validateFileLinks config))
                  then if Options.enabled config then getAllLinks doc token else []
                  else []) (Manager.linkWatcher st)) p d ↔
            LinkWatcher.references (Manager.linkWatcher st) p d).
    rewrite LinkWatcher.updateLinksForDocument_references.
    rewrite decide_False; [done|]. by intros <-.
Qed.

(** X10.  A recomputation that runs with validation disabled, or is
    cancelled after the links were computed, publishes the empty list for
    its document, whatever the collection held and whether or not a tab shows
    the document. *)
Theorem cancelled_or_disabled_compute_publishes_nothing
    (tabGroups : Reporter.TabGroups) (doc : SkinnyTextDocument) (entry : nat)
    (token : Computer.checkpoint → bool) (st : Manager.t) :
  Options.enabled (getOptions (uri doc)) = false ∨ token Computer.AfterLinks = true →
  Reporter.collection (Manager.reporter (compute tabGroups doc entry token st))
    !! uri_str (uri doc) = Some [].
Proof.
  intros H. unfold compute, Manager.settle; cbn [Manager.reporter].
  rewrite (recomputeDiagnosticState_cancelled _ _ H).
  unfold Reporter.set; simpl. rewrite lookup_insert_eq.
  by destruct (ResourceMap.has _ _).
Qed.

End host.

Definition disabled_options (resource : Uri) : DiagnosticOptions :=
  {| Options.enabled := false;
     Options.validateReferences := Some warning;
     Options.validateFragmentLinks := Some warning;
     Options.validateFileLinks := Some warning;
     Options.validateMarkdownFileLinkFragments := None;
     Options.ignoreLinks := [] |}.

Lemma cancelled_or_disabled_compute_witness :
  (Options.enabled (disabled_options (uri Computer.example_doc)) = false
   ∨ Computer.not_cancelled Computer.AfterLinks = true) ∧
  Reporter.collection
    (Manager.reporter
       (compute disabled_options (λ _ _, Computer.example_links) Computer.no_match
          Computer.no_document Computer.no_path Computer.fsPath_of (λ _ _, false)
          (λ _ _, false) id
          [[Reporter.TabInputText Computer.uri_doc]] Computer.example_doc 0
          Computer.not_cancelled (Manager.create None)))
    !! "file:///doc.md" = Some [].
Proof.
  assert (Options.enabled (disabled_options (uri Computer.example_doc)) = false
          ∨ Computer.not_cancelled Computer.AfterLinks = true) as H by (by left).
  split; [exact H|].
  exact (cancelled_or_disabled_compute_publishes_nothing disabled_options
           (λ _ _, Computer.example_links) Computer.no_match Computer.no_document
           Computer.no_path Computer.fsPath_of (λ _ _, false) (λ _ _, false) id
           [[Reporter.TabInputText Computer.uri_doc]] Computer.example_doc 0
           Computer.not_cancelled (Manager.create None) H).
Defined.

End Pipeline.

(** ** The link map and the file-link pass, link by link *)

Module FileLinks.

Import Computer.

(** The entry of a path in a link map, if it has one. *)
Fixpoint entryOf (key : string) (m : list (string * list LinkData))
    : option (list LinkData) :=
  match m with
  | [] => None
  | (k, outgoing) :: m' => if decide (k = key) then Some outgoing else entryOf key m'
  end.

(** The internal links of a document to one path, in document order. *)
Definition outgoingTo (key : string) (links : list MdLink) : list LinkData :=
  omap (λ mdLink,
          match href mdLink with
          | InternalHref path fragment =>
              if decide (uri_str path = key)
              then Some {| ld_source := source mdLink; ld_fragment := fragment |}
              else None
          | _ => None
          end) links.

Lemma entryOf_elem_of key outgoing m :
  NoDup m.*1 → ((key, outgoing) ∈ m ↔ entryOf key m = Some outgoing).
Proof.
  induction m as [|[k ds] m IH]; simpl.
  - intros _. rewrite elem_of_nil. naive_solver.
  - intros [Hk Hnd]%NoDup_cons. rewrite elem_of_cons.
    destruct (decide (k = key)) as [->|Hne].
    + split; [|naive_solver]. intros [[= ->]|Hin]; [done|].
      destruct Hk. apply list_elem_of_fmap. by exists (key, outgoing).
    + rewrite <- IH by done. naive_solver.
Qed.

Lemma addOutgoing_keys key data m :
  (addOutgoing key data m).*1 = JsSet.add key m.*1.
Proof.
  unfold JsSet.add. induction m as [|[k ds] m IH].
  - destruct (decide (key ∈ ([] : list (string * list LinkData)).*1))
      as [[]%elem_of_nil|]; done.
  - cbn [addOutgoing]. rewrite fmap_cons. cbn [fst].
    destruct (decide (k = key)) as [->|Hne].
    + destruct (decide (key ∈ key :: m.*1)) as [|[]]; [done|by left].
    + rewrite fmap_cons, IH. cbn [fst].
      destruct (decide (key ∈ m.*1)) as [Hin|Hnin];
        destruct (decide (key ∈ k :: m.*1)) as [Hin'|Hnin']; try done.
      * destruct Hnin'. by right.
      * apply elem_of_cons in Hin' as [?|?]; done.
Qed.

Lemma addOutgoing_entryOf key data m k :
  entryOf k (addOutgoing key data m) =
  if decide (k = key) then Some (default [] (entryOf key m) ++ [data])
  else entryOf k m.
Proof.
  induction m as [|[k' ds] m IH]; simpl.
  - destruct (decide (key = k)) as [->|]; [by rewrite decide_True|].
    by rewrite decide_False.
  - destruct (decide (k' = key)) as [->|Hne]; simpl.
    + destruct (decide (key = k)) as [->|]; [by rewrite decide_True|].
      by rewrite decide_False.
    + rewrite IH. destruct (decide (k' = k)) as [->|]; [|done].
      by rewrite decide_False.
Qed.

Lemma outgoingTo_unlinked key links :
  key ∉ LinkWatcher.linkedPaths links → outgoingTo key links = [].
Proof.
  unfold LinkWatcher.linkedPaths, internalPaths, outgoingTo.
  induction links as [|mdLink links IH]; [done|]. cbn [omap list_omap].
  destruct (href mdLink) as [|path fragment|]; [by apply IH| |by apply IH].
  rewrite fmap_cons, not_elem_of_cons. intros [Hne Hnin].
  rewrite decide_False by done. by apply IH.
Qed.

Lemma FileLinkMap_snoc links mdLink :
  FileLinkMap (links ++ [mdLink]) =
  match href mdLink with
  | InternalHref path fragment =>
      addOutgoing (uri_str path)
        {| ld_source := source mdLink; ld_fragment := fragment |} (FileLinkMap links)
  | _ => FileLinkMap links
  end.
Proof. unfold FileLinkMap. by rewrite foldl_app. Qed.

Lemma of_list_snoc {A} `{EqDecision A} (l : list A) (x : A) :
  JsSet.of_list (l ++ [x]) = JsSet.add x (JsSet.of_list l).
Proof. unfold JsSet.of_list. by rewrite foldl_app. Qed.

Lemma FileLinkMap_keys links :
  (FileLinkMap links).*1 = JsSet.of_list (LinkWatcher.linkedPaths links).
Proof.
  induction links as [|mdLink links IH] using rev_ind; [done|].
  rewrite FileLinkMap_snoc. unfold LinkWatcher.linkedPaths, internalPaths in *.
  rewrite omap_app, fmap_app. cbn [omap list_omap].
  destruct (href mdLink) as [|path fragment|]; simpl.
  - by rewrite app_nil_r.
  - by rewrite addOutgoing_keys, of_list_snoc, IH.
  - by rewrite app_nil_r.
Qed.

Lemma FileLinkMap_entryOf links key :
  entryOf key (FileLinkMap links) =
  if decide (key ∈ LinkWatcher.linkedPaths links) then Some (outgoingTo key links)
  else None.
Proof.
  induction links as [|mdLink links IH] using rev_ind.
  { rewrite decide_False; [done|]. apply not_elem_of_nil. }
  rewrite FileLinkMap_snoc.
  unfold LinkWatcher.linkedPaths, internalPaths, outgoingTo in *.
  rewrite !omap_app, fmap_app. cbn [omap list_omap].
  destruct (href mdLink) as [|path fragment|]; simpl.
  - by rewrite !app_nil_r.
  - rewrite addOutgoing_entryOf.
    destruct (decide (key = uri_str path)) as [->|Hne].
    + rewrite (decide_True (P := uri_str path = uri_str path)) by done.
      rewrite decide_True by (apply elem_of_app; right; by left).
      f_equal. f_equal. rewrite IH. destruct (decide _) as [|Hnin]; [done|].
      simpl. symmetry. by apply outgoingTo_unlinked.
    + rewrite (decide_False (P := uri_str path = key)) by done.
      rewrite app_nil_r, IH.
      destruct (decide (key ∈ _)) as [Hin|Hnin].
      * rewrite decide_True; [done|]. apply elem_of_app. by left.
      * rewrite decide_False; [done|].
        intros [?|[->|[]%elem_of_nil]%elem_of_cons]%elem_of_app; done.
  - by rewrite !app_nil_r.
Qed.

(** X11.  [FileLinkMap] has one entry for every path that some internal link
    of the document points to, in the order in which the paths first occur,
    and none for other paths; the entry of a path holds the internal links
    to that path, all of them, in document order.  External and reference
    links are in no entry. *)
Theorem FileLinkMap_groups_links_by_path (links : list MdLink) :
  (FileLinkMap links).*1 = JsSet.of_list (LinkWatcher.linkedPaths links) ∧
  NoDup (FileLinkMap links).*1 ∧
  (∀ key outgoing,
     (key, outgoing) ∈ FileLinkMap links ↔
     key ∈ LinkWatcher.linkedPaths links ∧ outgoing = outgoingTo key links) ∧
  (∀ key outgoing, (key, outgoing) ∈ FileLinkMap links → outgoing ≠ []).
Proof.
  assert (NoDup (FileLinkMap links).*1) as Hnd.
  { rewrite FileLinkMap_keys. apply JsSet.NoDup_of_list. }
  assert (∀ key outgoing,
     (key, outgoing) ∈ FileLinkMap links ↔
     key ∈ LinkWatcher.linkedPaths links ∧ outgoing = outgoingTo key links) as Hmem.
  { intros key outgoing. rewrite entryOf_elem_of, FileLinkMap_entryOf by done.
    destruct (decide _); naive_solver. }
  split; [apply FileLinkMap_keys|]. split; [done|]. split; [done|].
  intros key outgoing [Hin ->]%Hmem.
  unfold LinkWatcher.linkedPaths, internalPaths in Hin.
  apply list_elem_of_fmap in Hin as (path & -> & Hin).
  apply list_elem_of_omap in Hin as (mdLink & Hin & Hhref).
  destruct (href mdLink) as [|path' fragment|] eqn:E; [done| |done].
  injection Hhref as ->.
  intros Hnil.
  assert ({| ld_source := source mdLink; ld_fragment := fragment |}
          ∈ outgoingTo (uri_str path) links) as Hd.
  { apply list_elem_of_omap. exists mdLink. split; [done|].
    rewrite E. by rewrite decide_True. }
  rewrite Hnil in Hd. by apply elem_of_nil in Hd.
Qed.


Lemma bind_nothing {A B} (l : list A) : l ≫= (λ _, [] : list B) = [].
Proof. induction l as [|x l IH]; [done|]. by rewrite bind_cons, IH. Qed.

Lemma concat_map_bind {A B} (f : A → list B) (l : list A) :
  concat (map f l) = l ≫= f.
Proof. induction l as [|x l IH]; [done|]. cbn [map concat]. by rewrite IH, bind_cons. Qed.

Lemma filter_bind {A B} (P : A → Prop) `{∀ x, Decision (P x)} (f : A → list B)
    (l : list A) :
  filter P l ≫= f = l ≫= (λ x, if decide (P x) then f x else []).
Proof.
  induction l as [|x l IH]; [done|]. rewrite bind_cons, <- IH.
  destruct (decide (P x)).
  - by rewrite filter_cons_True, bind_cons.
  - by rewrite filter_cons_False.
Qed.

Lemma omap_bind {A B} (f : A → option B) (l : list A) :
  omap f l = l ≫= (λ x, option_list (f x)).
Proof.
  induction l as [|x l IH]; [done|]. cbn [omap list_omap]. rewrite bind_cons, <- IH.
  by destruct (f x).
Qed.

Lemma bind_length_le {A B} (f : A → list B) (l : list A) :
  (∀ x, x ∈ l → length (f x) ≤ 1) → length (l ≫= f) ≤ length l.
Proof.
  induction l as [|x l IH]; [done|]. intros Hf. rewrite bind_cons, length_app.
  cbn [length]. pose proof (Hf x (list_elem_of_here _ _)).
  assert (length (l ≫= f) ≤ length l); [|lia].
  apply IH. intros y Hy. apply Hf. by right.
Qed.

Lemma bind_submseteq {A B} (f g : A → list B) (l : list A) :
  (∀ x, f x ⊆+ g x) → l ≫= f ⊆+ l ≫= g.
Proof.
  intros Hfg. induction l as [|x l IH]; [done|]. rewrite !bind_cons.
  by apply submseteq_app.
Qed.

Section host.

Variable getAllLinks : SkinnyTextDocument → list MdLink.
Variable isMatch : string → string → bool.
Variable tryFindMdDocumentForLink : string → option SkinnyTextDocument.
Variable pathExists : string → bool.
Variable fsPath : string → string.
Variable tocLookup : SkinnyTextDocument → string → bool.
Variable definitionLookup : list MdLink → string → bool.
Variable withStartTranslated : Range → Range.

#[local] Abbreviation isIgnoredLink := (Computer.isIgnoredLink isMatch).
#[local] Abbreviation fileTask :=
  (Computer.fileTask isMatch tryFindMdDocumentForLink pathExists fsPath tocLookup
     withStartTranslated).
#[local] Abbreviation validateFileLinks :=
  (Computer.validateFileLinks isMatch tryFindMdDocumentForLink pathExists fsPath
     tocLookup withStartTranslated).
#[local] Abbreviation validateReferenceLinks := (Computer.validateReferenceLinks definitionLookup).
#[local] Abbreviation validateFragmentLinks := (Computer.validateFragmentLinks isMatch tocLookup).
#[local] Abbreviation getDiagnostics :=
  (Computer.getDiagnostics getAllLinks isMatch tryFindMdDocumentForLink pathExists fsPath
     tocLookup definitionLookup withStartTranslated).
#[local] Abbreviation missingFileDiagnostic := (Computer.missingFileDiagnostic fsPath).
#[local] Abbreviation missingHeaderDiagnostic :=
  (Computer.missingHeaderDiagnostic withStartTranslated).

(** The severity of a link to a header that another file lacks:
    [validateMarkdownFileLinkFragments], and [validateFragmentLinks] where
    that option is undefined. *)
Definition fragmentErrorSeverity (options : DiagnosticOptions) : option DiagnosticSeverity :=
  toSeverity (match Options.validateMarkdownFileLinkFragments options with
              | None => Options.validateFragmentLinks options
              | Some level => Some level
              end).

(** What the task of a path pushes for one of the links to that path. *)
Definition reportLinkData (options : DiagnosticOptions) (token : checkpoint → bool)
    (pathErrorSeverity : DiagnosticSeverity) (path : string) (data : LinkData)
    : list Diagnostic :=
  if token (FileTask path) then []
  else
    match tryFindMdDocumentForLink path with
    | None =>
        if pathExists path || isIgnoredLink options (pathText (ld_source data)) then []
        else [missingFileDiagnostic pathErrorSeverity path data]
    | Some hrefDoc =>
        match fragmentErrorSeverity options with
        | None => []
        | Some severity =>
            if negb (String.eqb (ld_fragment data) "")
               && negb (tocLookup hrefDoc (ld_fragment data))
               && negb (isIgnoredLink options (pathText (ld_source data)))
               && negb (isIgnoredLink options (text (ld_source data)))
            then [missingHeaderDiagnostic severity data]
            else []
        end
    end.

(** What the file-link pass reports for one link of the document. *)
Definition fileLinkReport (options : DiagnosticOptions) (token : checkpoint → bool)
    (mdLink : MdLink) : list Diagnostic :=
  match toSeverity (Options.validateFileLinks options) with
  | None => []
  | Some pathErrorSeverity =>
      if startsWithHash (text (source mdLink)) then []
      else emitLink (reportLinkData options token pathErrorSeverity) mdLink
  end.

Lemma fileTask_per_link options token pathErrorSeverity path outgoing :
  fileTask options token pathErrorSeverity (fragmentErrorSeverity options) (path, outgoing)
  = outgoing ≫= reportLinkData options token pathErrorSeverity path.
Proof.
  unfold Computer.fileTask, reportLinkData.
  destruct (token (FileTask path)); [by rewrite bind_nothing|].
  destruct (tryFindMdDocumentForLink path) as [hrefDoc|].
  - destruct (fragmentErrorSeverity options) as [severity|];
      [|by rewrite bind_nothing].
    match goal with
    | |- (if Nat.eqb (length ?l) 0 then [] else ?r) = _ =>
        assert ((if Nat.eqb (length l) 0 then [] else r) = r) as ->
    end.
    { destruct (filter _ outgoing); done. }
    induction outgoing as [|data outgoing IH]; [done|]. rewrite bind_cons, <- IH.
    destruct (String.eqb_spec (ld_fragment data) "") as [Heq|Hne].
    + by rewrite filter_cons_False by (intros Hn; by apply Hn).
    + rewrite filter_cons_True by done. cbn [omap list_omap negb andb].
      by destruct (_ && _).
  - destruct (pathExists path); cbn [negb orb]; [by rewrite bind_nothing|].
    induction outgoing as [|data outgoing IH]; [done|]. rewrite bind_cons, <- IH.
    cbn [omap list_omap].
    by destruct (Computer.isIgnoredLink isMatch options (pathText (ld_source data))).
Qed.

Lemma validateFileLinks_per_link options links token :
  validateFileLinks options links token ≡ₚ links ≫= fileLinkReport options token.
Proof.
  unfold Computer.validateFileLinks, fileLinkReport.
  destruct (toSeverity (Options.validateFileLinks options)) as [pathErrorSeverity|];
    [|by rewrite bind_nothing].
  cbv zeta. fold (fragmentErrorSeverity options).
  match goal with
  | |- (if Nat.eqb (length ?l) 0 then [] else ?r) ≡ₚ _ =>
      assert ((if Nat.eqb (length l) 0 then [] else r) = r) as ->
  end.
  { destruct (FileLinkMap _); done. }
  rewrite concat_map_bind.
  rewrite (list_bind_ext _
    (λ e, e.2 ≫= reportLinkData options token pathErrorSeverity e.1) _ _
    (λ e, ltac:(destruct e; apply fileTask_per_link)) eq_refl).
  rewrite FileLinkMap_bind, filter_bind.
  assert (∀ f g : MdLink → list Diagnostic, (∀ x, f x = g x) →
          links ≫= f ≡ₚ links ≫= g) as Hext.
  { intros f g Hfg. by rewrite (list_bind_ext f g links links Hfg eq_refl). }
  apply Hext. intros mdLink.
  destruct (startsWithHash (text (source mdLink))) eqn:E.
  - by rewrite decide_False.
  - by rewrite decide_True.
Qed.


(** *** One pass per link *)

(** The pass that looks at a link: reference links go to the reference
    pass, internal links whose text starts with '#' to the pass for the
    document's own headers, other internal links to the file pass, and
    external links to none. *)
Inductive pass : Type := FilePass | ReferencePass | FragmentPass.

#[local] Instance pass_eq_dec : EqDecision pass.
Proof. solve_decision. Defined.






Lemma fileLinkReport_length options token mdLink :
  length (fileLinkReport options token mdLink) ≤ 1.
Proof.
  unfold fileLinkReport, emitLink, reportLinkData.
  repeat case_match; simpl; lia.
Qed.





(** X12.  The file-link pass works link by link: its diagnostics are, up to
    their order, those of [fileLinkReport] for each link of the document in
    turn, so grouping the links by path changes nothing but the order.  A
    link gets at most one diagnostic, and it gets one only if it is an
    internal link whose text does not start with '#', the file-link severity
    is defined, and the task of its path was not cancelled. *)
Theorem validateFileLinks_reports_link_by_link
    (options : DiagnosticOptions) (links : list MdLink) (token : checkpoint → bool) :
  validateFileLinks options links token ≡ₚ links ≫= fileLinkReport options token ∧
  (∀ mdLink, length (fileLinkReport options token mdLink) ≤ 1) ∧
  (∀ mdLink, fileLinkReport options token mdLink ≠ [] →
     is_Some (toSeverity (Options.validateFileLinks options)) ∧
     startsWithHash (text (source mdLink)) = false ∧
     ∃ path fragment, href mdLink = InternalHref path fragment ∧
                      token (FileTask (uri_str path)) = false).
Proof.
  split; [apply validateFileLinks_per_link|]. split; [apply fileLinkReport_length|].
  intros mdLink. unfold fileLinkReport, emitLink, reportLinkData.
  destruct (toSeverity _); [|done].
  destruct (startsWithHash _); [done|].
  destruct (href mdLink) as [|path fragment|]; [done| |done].
  destruct (token (FileTask (uri_str path))) eqn:Htoken; [done|]. intros _.
  split; [by eexists|]. split; [done|]. by exists path, fragment.
Qed.

(** The report of the file pass for one link, when it is not 'File does not
    exist'. *)
Lemma fileLinkReport_missing_header
    (options : DiagnosticOptions) (token : checkpoint → bool) (mdLink : MdLink)
    (path : Uri) (fragment : string) (d : Diagnostic)
    (Hhref : href mdLink = InternalHref path fragment)
    (Hhash : startsWithHash (text (source mdLink)) = false)
    (Hseverity : is_Some (toSeverity (Options.validateFileLinks options))) :
  (d ∈ fileLinkReport options token mdLink ∧ isMissingFile d = false) ↔
  token (FileTask (uri_str path)) = false ∧
  ∃ hrefDoc severity,
    tryFindMdDocumentForLink (uri_str path) = Some hrefDoc ∧
    fragmentErrorSeverity options = Some severity ∧
    fragment ≠ "" ∧
    tocLookup hrefDoc fragment = false ∧
    isIgnoredLink options (pathText (source mdLink)) = false ∧
    isIgnoredLink options (text (source mdLink)) = false ∧
    d = {| range := match fragmentRange (source mdLink) with
                    | Some r => withStartTranslated r
                    | None => hrefRange (source mdLink)
                    end;
           message := "Header does not exist in file: " ++ fragment;
           severity := severity;
           link := Some (text (source mdLink)) |}.
Proof.
  destruct Hseverity as [pathErrorSeverity Hsev].
  unfold fileLinkReport, emitLink, reportLinkData. rewrite Hsev, Hhash, Hhref.
  cbn [ld_source ld_fragment]. split.
  - intros [Hin Hd]. revert Hin.
    destruct (token (FileTask (uri_str path))) eqn:Htoken; [by intros ?%elem_of_nil|].
    destruct (tryFindMdDocumentForLink (uri_str path)) as [hrefDoc|] eqn:Hdoc.
    + destruct (fragmentErrorSeverity options) as [severity|] eqn:Hfs;
        [|by intros ?%elem_of_nil].
      destruct (String.eqb_spec fragment "") as [->|Hne]; cbn [negb andb];
        [by intros ?%elem_of_nil|].
      destruct (tocLookup hrefDoc fragment) eqn:Htoc; cbn [negb andb];
        [by intros ?%elem_of_nil|].
      destruct (Computer.isIgnoredLink isMatch options (pathText (source mdLink)))
        eqn:Hp; cbn [negb andb]; [by intros ?%elem_of_nil|].
      destruct (Computer.isIgnoredLink isMatch options (text (source mdLink)))
        eqn:Ht; cbn [negb andb]; [by intros ?%elem_of_nil|].
      intros ->%list_elem_of_singleton. split; [done|].
      exists hrefDoc, severity. done.
    + destruct (_ || _); [by intros ?%elem_of_nil|].
      intros ->%list_elem_of_singleton.
      by rewrite Computer.isMissingFile_missing in Hd.
  - intros (Htoken & hrefDoc & severity & Hdoc & Hfs & Hne & Htoc & Hp & Ht & ->).
    rewrite Htoken, Hdoc, Hfs, Htoc, Hp, Ht.
    destruct (String.eqb_spec fragment "") as [|_]; [done|]. cbn [negb andb].
    split; [by apply list_elem_of_singleton|reflexivity].
Qed.

(** X13.  A link to a header of another file.  [validateFileLinks] returns
    a diagnostic other than 'File does not exist' exactly for the links of
    the document that are internal links whose text does not start with '#',
    while the file-link severity is defined, the task of the link's path is
    not cancelled, a markdown document is found for the path, the fragment
    severity ([validateMarkdownFileLinkFragments], else
    [validateFragmentLinks]) is defined, the fragment is not empty, the table
    of contents of that document lacks it, and no glob of [ignoreLinks]
    matches the link's path text or its text.  The diagnostic is then 'Header
    does not exist in file', with the fragment severity, at the fragment
    range moved one column to the left or, without a fragment range, at the
    href range, and it carries the text of the link. *)
Theorem missing_header_reported_per_link
    (options : DiagnosticOptions) (links : list MdLink) (token : checkpoint → bool)
    (d : Diagnostic) :
  (d ∈ validateFileLinks options links token ∧ isMissingFile d = false) ↔
  ∃ mdLink path fragment hrefDoc severity,
    mdLink ∈ links ∧
    href mdLink = InternalHref path fragment ∧
    startsWithHash (text (source mdLink)) = false ∧
    is_Some (toSeverity (Options.validateFileLinks options)) ∧
    token (FileTask (uri_str path)) = false ∧
    tryFindMdDocumentForLink (uri_str path) = Some hrefDoc ∧
    toSeverity (match Options.validateMarkdownFileLinkFragments options with
                | None => Options.validateFragmentLinks options
                | Some level => Some level
                end) = Some severity ∧
    fragment ≠ "" ∧
    tocLookup hrefDoc fragment = false ∧
    isIgnoredLink options (pathText (source mdLink)) = false ∧
    isIgnoredLink options (text (source mdLink)) = false ∧
    d = {| range := match fragmentRange (source mdLink) with
                    | Some r => withStartTranslated r
                    | None => hrefRange (source mdLink)
                    end;
           message := "Header does not exist in file: " ++ fragment;
           severity := severity;
           link := Some (text (source mdLink)) |}.
Proof.
  clear getAllLinks definitionLookup.
  rewrite validateFileLinks_per_link, list_elem_of_bind. split.
  - intros [(mdLink & Hd & Hin) Hmissing].
    assert (fileLinkReport options token mdLink ≠ []) as Hreport.
    { intros Hnil. rewrite Hnil in Hd. by apply elem_of_nil in Hd. }
    assert (is_Some (toSeverity (Options.validateFileLinks options)) ∧
            startsWithHash (text (source mdLink)) = false ∧
            ∃ path fragment, href mdLink = InternalHref path fragment)
      as (Hseverity & Hhash & path & fragment & Hhref).
    { revert Hreport. unfold fileLinkReport, emitLink.
      destruct (toSeverity _); [|done].
      destruct (startsWithHash _); [done|].
      destruct (href mdLink) as [|path fragment|]; [done| |done]. eauto 10. }
    destruct (proj1 (fileLinkReport_missing_header options token mdLink path fragment d
                       Hhref Hhash Hseverity) (conj Hd Hmissing))
      as (Htoken & hrefDoc & severity & H).
    exists mdLink, path, fragment, hrefDoc, severity. naive_solver.
  - intros (mdLink & path & fragment & hrefDoc & severity & Hin & Hhref & Hhash
            & Hseverity & Htoken & H).
    destruct (proj2 (fileLinkReport_missing_header options token mdLink path fragment d
                       Hhref Hhash Hseverity)) as [Hd Hmissing].
    { split; [done|]. exists hrefDoc, severity. exact H. }
    split; [|done]. by exists mdLink.
Qed.


(** *** Ignoring more links *)

(** The options with another list of globs under [ignoreLinks]. *)
Definition withIgnoreLinks (globs : list string) (options : DiagnosticOptions)
    : DiagnosticOptions :=
  {| Options.enabled := Options.enabled options;
     Options.validateReferences := Options.validateReferences options;
     Options.validateFragmentLinks := Options.validateFragmentLinks options;
     Options.validateFileLinks := Options.validateFileLinks options;
     Options.validateMarkdownFileLinkFragments :=
       Options.validateMarkdownFileLinkFragments options;
     Options.ignoreLinks := globs |}.

Lemma isIgnoredLink_elem_of options link :
  isIgnoredLink options link = true ↔
  ∃ glob, glob ∈ Options.ignoreLinks options ∧ isMatch link glob = true.
Proof.
  unfold Computer.isIgnoredLink. rewrite existsb_exists.
  setoid_rewrite list_elem_of_In. done.
Qed.

Lemma isIgnoredLink_mono options globs link :
  Options.ignoreLinks options ⊆ globs →
  isIgnoredLink options link = true →
  isIgnoredLink (withIgnoreLinks globs options) link = true.
Proof.
  intros Hsub. rewrite !isIgnoredLink_elem_of.
  intros (glob & Hin & Hm). exists glob. split; [|done]. by apply Hsub.
Qed.

Lemma fileLinkReport_mono options globs token mdLink :
  Options.ignoreLinks options ⊆ globs →
  fileLinkReport (withIgnoreLinks globs options) token mdLink
  ⊆+ fileLinkReport options token mdLink.
Proof.
  intros Hsub. unfold fileLinkReport, emitLink, reportLinkData, fragmentErrorSeverity.
  cbn [withIgnoreLinks Options.validateFileLinks Options.validateFragmentLinks
       Options.validateMarkdownFileLinkFragments].
  destruct (toSeverity _); [|done].
  destruct (startsWithHash _); [done|].
  destruct (href mdLink) as [|path fragment|]; [done| |done].
  cbn [ld_source ld_fragment].
  destruct (token _); [done|].
  destruct (tryFindMdDocumentForLink _) as [hrefDoc|];
    [destruct (toSeverity _); [|done]|].
  all: pose proof (isIgnoredLink_mono options globs (pathText (source mdLink)) Hsub) as Hp.
  all: pose proof (isIgnoredLink_mono options globs (text (source mdLink)) Hsub) as Ht.
  all: set (ip := Computer.isIgnoredLink isMatch options (pathText (source mdLink))) in *.
  all: set (ip' := Computer.isIgnoredLink isMatch (withIgnoreLinks globs options)
                (pathText (source mdLink))) in *.
  all: set (it := Computer.isIgnoredLink isMatch options (text (source mdLink))) in *.
  all: set (it' := Computer.isIgnoredLink isMatch (withIgnoreLinks globs options)
                (text (source mdLink))) in *.
  all: clearbody ip ip' it it'.
  all: destruct ip, ip', it, it';
    try (by specialize (Hp eq_refl)); try (by specialize (Ht eq_refl));
    clear Hp Ht; cbn [negb];
    rewrite ?andb_false_r, ?andb_true_r, ?orb_true_r, ?orb_false_r;
    repeat case_match; try done; apply submseteq_nil_l.
Qed.

Lemma validateFragmentLinks_mono doc options globs links token :
  Options.ignoreLinks options ⊆ globs →
  validateFragmentLinks doc (withIgnoreLinks globs options) links token
  ⊆+ validateFragmentLinks doc options links token.
Proof.
  intros Hsub. unfold Computer.validateFragmentLinks.
  cbn [withIgnoreLinks Options.validateFragmentLinks].
  destruct (toSeverity _); [|done]. destruct (token AfterToc); [done|].
  rewrite !omap_bind. apply bind_submseteq. intros mdLink.
  destruct (href mdLink) as [|path fragment|]; [done| |done].
  pose proof (isIgnoredLink_mono options globs (text (source mdLink)) Hsub) as Ht.
  set (it := Computer.isIgnoredLink isMatch options (text (source mdLink))) in *.
  set (it' := Computer.isIgnoredLink isMatch (withIgnoreLinks globs options)
                (text (source mdLink))) in *.
  clearbody it it'.
  destruct it, it'; try (by specialize (Ht eq_refl));
    clear Ht; cbn [negb];
    rewrite ?andb_false_r, ?andb_true_r, ?orb_true_r, ?orb_false_r;
    repeat case_match; try done; apply submseteq_nil_l.
Qed.

Lemma getDiagnostics_mono doc options globs token :
  Options.ignoreLinks options ⊆ globs →
  (getDiagnostics doc (withIgnoreLinks globs options) token).2
  ⊆+ (getDiagnostics doc options token).2.
Proof.
  intros Hsub. unfold Computer.getDiagnostics.
  cbn [withIgnoreLinks Options.enabled].
  destruct (_ || _); [done|]. cbn [snd concat].
  apply submseteq_app; [|apply submseteq_app; [|apply submseteq_app; [|done]]].
  - rewrite !validateFileLinks_per_link. apply bind_submseteq.
    intros mdLink. by apply fileLinkReport_mono.
  - done.
  - by apply validateFragmentLinks_mono.
Qed.

(** X15.  Adding globs to [ignoreLinks] only removes diagnostics: with a
    list of globs that contains every glob of the options, [getDiagnostics]
    returns the same links, and its diagnostics are among those it returns
    with the options as they were, each as often at most. *)
Theorem more_ignoreLinks_fewer_diagnostics
    (doc : SkinnyTextDocument) (options : DiagnosticOptions) (globs : list string)
    (token : checkpoint → bool)
    (Hglobs : Options.ignoreLinks options ⊆ globs) :
  (getDiagnostics doc (withIgnoreLinks globs options) token).1
    = (getDiagnostics doc options token).1 ∧
  (getDiagnostics doc (withIgnoreLinks globs options) token).2
    ⊆+ (getDiagnostics doc options token).2.
Proof.
  split; [|by apply getDiagnostics_mono].
  unfold Computer.getDiagnostics. by repeat case_match.
Qed.

(** A diagnostic that names a link is reported only while no glob matches
    that link. *)
Lemma reported_link_not_ignored doc options token d ignored :
  d ∈ (getDiagnostics doc options token).2 → link d = Some ignored →
  isIgnoredLink options ignored = false.
Proof.
  unfold Computer.getDiagnostics. destruct (_ || _); [by intros ?%elem_of_nil|].
  cbn [snd concat]. rewrite !elem_of_app.
  intros [Hd|[Hd|[Hd|Hd%elem_of_nil]]] Hlink; [| | |done].
  - rewrite validateFileLinks_per_link in Hd.
    apply list_elem_of_bind in Hd as (mdLink & Hd & _). revert Hd.
    unfold fileLinkReport, emitLink, reportLinkData.
    destruct (toSeverity _); [|by intros ?%elem_of_nil].
    destruct (startsWithHash _); [by intros ?%elem_of_nil|].
    destruct (href mdLink) as [|path fragment|];
      [by intros ?%elem_of_nil| |by intros ?%elem_of_nil].
    cbn [ld_source ld_fragment].
    destruct (token _); [by intros ?%elem_of_nil|].
    destruct (tryFindMdDocumentForLink _).
    + destruct (fragmentErrorSeverity _); [|by intros ?%elem_of_nil].
      destruct (Computer.isIgnoredLink isMatch options (text (source mdLink))) eqn:E.
      { rewrite !andb_false_r. by intros ?%elem_of_nil. }
      destruct (_ && _); [|by intros ?%elem_of_nil].
      intros ->%list_elem_of_singleton. simpl in Hlink. by injection Hlink as <-.
    + destruct (Computer.isIgnoredLink isMatch options (pathText (source mdLink))) eqn:E.
      { rewrite orb_true_r. by intros ?%elem_of_nil. }
      destruct (_ || _); [by intros ?%elem_of_nil|].
      intros ->%list_elem_of_singleton. simpl in Hlink. by injection Hlink as <-.
  - unfold Computer.validateReferenceLinks in Hd.
    destruct (toSeverity _); [|by apply elem_of_nil in Hd].
    apply list_elem_of_omap in Hd as (mdLink & _ & Hd).
    destruct (href mdLink); [done|done|]. destruct (negb _); [|done].
    injection Hd as <-. done.
  - unfold Computer.validateFragmentLinks in Hd.
    destruct (toSeverity _); [|by apply elem_of_nil in Hd].
    destruct (token AfterToc); [by apply elem_of_nil in Hd|].
    apply list_elem_of_omap in Hd as (mdLink & _ & Hd).
    destruct (href mdLink); [done| |done].
    destruct (Computer.isIgnoredLink isMatch options (text (source mdLink))) eqn:E.
    { by rewrite !andb_false_r in Hd. }
    destruct (_ && _); [|done]. injection Hd as <-. simpl in Hlink.
    by injection Hlink as <-.
Qed.

End host.

(** *** A workspace where every path has a markdown document without headers *)

Definition other_doc : SkinnyTextDocument :=
  {| uri := uri_missing1; version := 1 |}.

Definition some_document (path : string) : option SkinnyTextDocument := Some other_doc.

Definition no_header (doc : SkinnyTextDocument) (fragment : string) : bool := false.

(** [range.with({ start: range.start.translate(0, -1) })] on the model's
    ranges. *)
Definition translateStart (r : Range) : Range :=
  mkRange (mkPosition (line (range_start r)) (pred (character (range_start r))))
          (range_end r).

Definition link_other_header : MdLink :=
  {| source := {| text := "other.md#top"; pathText := "other.md";
                  hrefRange := range_at 4 4 16;
                  fragmentRange := Some (range_at 4 13 16) |};
     href := InternalHref uri_missing2 "top" |}.

(** The file pass on a document with one link to a header that the linked
    file lacks. *)
Lemma missing_header_reported_witness :
  {| range := range_at 4 12 16;
     message := "Header does not exist in file: top";
     severity := Warning;
     link := Some "other.md#top" |}
  ∈ validateFileLinks no_match some_document no_path fsPath_of no_header translateStart
      (example_options (Some error)) [link_own_header; link_other_header] not_cancelled.
Proof.
  refine (proj1 (proj2 (missing_header_reported_per_link no_match some_document no_path
                          fsPath_of no_header translateStart
                          (example_options (Some error))
                          [link_own_header; link_other_header] not_cancelled _) _)).
  exists link_other_header, uri_missing2, "top", other_doc, Warning.
  split; [right; by left|].
  repeat (split; [reflexivity || done || by eexists|]). reflexivity.
Defined.

Example validateFileLinks_header :
  validateFileLinks no_match some_document no_path fsPath_of no_header translateStart
    (example_options (Some error)) [link_own_header; link_other_header] not_cancelled
  = [ {| range := range_at 4 12 16;
         message := "Header does not exist in file: top";
         severity := Warning;
         link := Some "other.md#top" |} ].
Proof. vm_compute. reflexivity. Qed.

Definition glob_exact (link glob : string) : bool := String.eqb link glob.

Lemma more_ignoreLinks_witness :
  Options.ignoreLinks (example_options (Some warning)) ⊆ ["missing.md"] ∧
  (getDiagnostics (λ _, example_links) glob_exact no_document no_path fsPath_of
     (λ _ _, false) (λ _ _, false) id example_doc
     (withIgnoreLinks ["missing.md"] (example_options (Some warning))) not_cancelled).2
  ⊆+ (getDiagnostics (λ _, example_links) glob_exact no_document no_path fsPath_of
        (λ _ _, false) (λ _ _, false) id example_doc
        (example_options (Some warning)) not_cancelled).2.
Proof.
  assert (Options.ignoreLinks (example_options (Some warning)) ⊆ ["missing.md"])
    as Hglobs by (intros ? []%elem_of_nil).
  split; [exact Hglobs|].
  exact (proj2 (more_ignoreLinks_fewer_diagnostics (λ _, example_links) glob_exact
                  no_document no_path fsPath_of (λ _ _, false) (λ _ _, false) id
                  example_doc (example_options (Some warning)) ["missing.md"]
                  not_cancelled Hglobs)).
Defined.

Example more_ignoreLinks_example :
  (getDiagnostics (λ _, example_links) glob_exact no_document no_path fsPath_of
     (λ _ _, false) (λ _ _, false) id example_doc
     (withIgnoreLinks ["missing.md"] (example_options (Some warning))) not_cancelled).2
  = [ {| range := range_at 2 4 10; message := "No header found: 'intro'";
         severity := Warning; link := Some "#intro" |} ].
Proof. vm_compute. reflexivity. Qed.

End FileLinks.

(** ** [AddToIgnoreLinksQuickFixProvider] *)

Module QuickFix.

Import Computer FileLinks.

Definition _addToIgnoreLinksCommandId : string := "_markdown.addToIgnoreLinks".

Inductive CodeActionKind : Type := QuickFixKind.

(** [vscode.Command], with the two arguments the provider passes. *)
Record Command : Type := mkCommand {
  command : string;
  command_title : string;
  arguments : Uri * string;
}.

Record CodeAction : Type := mkCodeAction {
  title : string;
  kind : CodeActionKind;
  action_command : Command;
}.

(** The fix built for a diagnostic with the link [ignored]. *)
Definition ignoreLinkFix (document : TextDocument) (ignored : string) : CodeAction :=
  {| title := "Exclude '" ++ ignored ++ "' from link validation.";
     kind := QuickFixKind;
     action_command := {| command := _addToIgnoreLinksCommandId;
                          command_title := "";
                          arguments := (td_uri document, ignored) |} |}.

(** [provideCodeActions(document, _range, context, _token)], on
    [context.diagnostics].  A diagnostic is a [LinkDoesNotExistDiagnostic]
    when it carries a link. *)
Definition provideCodeActions (document : TextDocument) (diagnostics : list Diagnostic)
    : list CodeAction :=
  omap (λ diagnostic,
          match link diagnostic with
          | Some ignored => Some (ignoreLinkFix document ignored)
          | None => None
          end) diagnostics.

(** [execute(resource, path)] of the command: the array it writes to the
    setting [experimental.validate.ignoreLinks], from the array [current]
    that [config.get(settingId, [])] returned. *)
Definition execute (current : list string) (path : string) : list string :=
  JsSet.add path (JsSet.of_list current).

Lemma of_list_NoDup {A} `{EqDecision A} (l : list A) :
  NoDup l → JsSet.of_list l = l.
Proof.
  induction l as [|x l IH] using rev_ind; [done|].
  intros (Hl & Hx & _)%NoDup_app. rewrite of_list_snoc, IH by done.
  unfold JsSet.add. destruct (decide (x ∈ l)) as [Hin|]; [|done].
  destruct (Hx x Hin). by left.
Qed.

Lemma add_elem_of {A} `{EqDecision A} (x : A) (s : list A) :
  x ∈ s → JsSet.add x s = s.
Proof. intros Hin. unfold JsSet.add. by rewrite decide_True. Qed.

(** X16.  The command [_markdown.addToIgnoreLinks] writes a list without
    duplicates that holds the path and the globs that were configured, and
    nothing else; on a configured list without duplicates it appends the
    path at the end when it is new and leaves the list as it is otherwise.
    Running the command again with the same path changes nothing. *)
Theorem execute_adds_path_once (current : list string) (path : string) :
  NoDup (execute current path) ∧
  (∀ glob, glob ∈ execute current path ↔ glob = path ∨ glob ∈ current) ∧
  execute (execute current path) path = execute current path ∧
  (NoDup current →
   execute current path = if decide (path ∈ current) then current else current ++ [path]).
Proof.
  unfold execute. split; [|split; [|split]].
  - apply JsSet.NoDup_add, JsSet.NoDup_of_list.
  - intros glob. by rewrite JsSet.elem_of_add, JsSet.elem_of_of_list.
  - rewrite of_list_NoDup by apply JsSet.NoDup_add, JsSet.NoDup_of_list.
    apply add_elem_of, JsSet.elem_of_add. by left.
  - intros Hnd. by rewrite of_list_NoDup.
Qed.

Lemma provideCodeActions_linked document diagnostics :
  Forall (λ d, is_Some (link d)) diagnostics →
  provideCodeActions document diagnostics
  = (λ d, ignoreLinkFix document (default "" (link d))) <$> diagnostics.
Proof.
  unfold provideCodeActions.
  induction 1 as [|d l [ignored Hd] _ IH]; [done|].
  cbn [omap list_omap]. rewrite IH, fmap_cons, Hd. done.
Qed.

Lemma provideCodeActions_unlinked document diagnostics :
  Forall (λ d, link d = None) diagnostics →
  provideCodeActions document diagnostics = [].
Proof.
  unfold provideCodeActions. induction 1 as [|d l Hd _ IH]; [done|].
  cbn [omap list_omap]. by rewrite IH, Hd.
Qed.

Lemma provideCodeActions_app document diagnostics1 diagnostics2 :
  provideCodeActions document (diagnostics1 ++ diagnostics2)
  = provideCodeActions document diagnostics1 ++ provideCodeActions document diagnostics2.
Proof. apply omap_app. Qed.

Section host.

Variable getAllLinks : SkinnyTextDocument → list MdLink.
Variable isMatch : string → string → bool.
Variable tryFindMdDocumentForLink : string → option SkinnyTextDocument.
Variable pathExists : string → bool.
Variable fsPath : string → string.
Variable tocLookup : SkinnyTextDocument → string → bool.
Variable definitionLookup : list MdLink → string → bool.
Variable withStartTranslated : Range → Range.

#[local] Abbreviation validateFileLinks :=
  (Computer.validateFileLinks isMatch tryFindMdDocumentForLink pathExists fsPath
     tocLookup withStartTranslated).
#[local] Abbreviation validateReferenceLinks :=
  (Computer.validateReferenceLinks definitionLookup).
#[local] Abbreviation validateFragmentLinks :=
  (Computer.validateFragmentLinks isMatch tocLookup).
#[local] Abbreviation getDiagnostics :=
  (Computer.getDiagnostics getAllLinks isMatch tryFindMdDocumentForLink pathExists fsPath
     tocLookup definitionLookup withStartTranslated).

Lemma validateFileLinks_linked options links token :
  Forall (λ d, is_Some (link d)) (validateFileLinks options links token).
Proof.
  apply Forall_forall. intros d.
  rewrite (validateFileLinks_per_link isMatch tryFindMdDocumentForLink pathExists fsPath
             tocLookup withStartTranslated).
  intros (mdLink & Hd & _)%list_elem_of_bind. revert Hd.
  unfold fileLinkReport, emitLink, reportLinkData.
  repeat case_match; try (by intros ?%elem_of_nil);
    by intros ->%list_elem_of_singleton.
Qed.

Lemma validateFragmentLinks_linked doc options links token :
  Forall (λ d, is_Some (link d)) (validateFragmentLinks doc options links token).
Proof.
  apply Forall_forall. intros d. unfold Computer.validateFragmentLinks.
  destruct (toSeverity _); [|by intros ?%elem_of_nil].
  destruct (token AfterToc); [by intros ?%elem_of_nil|].
  intros (mdLink & _ & Hd)%list_elem_of_omap. revert Hd.
  repeat case_match; try done. by intros [= <-].
Qed.

Lemma validateReferenceLinks_unlinked options links :
  Forall (λ d, link d = None) (validateReferenceLinks options links).
Proof.
  apply Forall_forall. intros d. unfold Computer.validateReferenceLinks.
  destruct (toSeverity _); [|by intros ?%elem_of_nil].
  intros (mdLink & _ & Hd)%list_elem_of_omap. revert Hd.
  repeat case_match; try done. by intros [= <-].
Qed.

(** X17.  The quick fixes offered for the diagnostics of a document: one
    for each diagnostic of the file pass and of the fragment pass, in their
    order, each with the command [_markdown.addToIgnoreLinks] and the
    arguments [document.uri] and the link of the diagnostic; the diagnostics
    of the reference pass carry no link and get no fix. *)
Theorem provideCodeActions_for_link_diagnostics
    (document : TextDocument) (doc : SkinnyTextDocument) (options : DiagnosticOptions)
    (token : checkpoint → bool) :
  let links := getAllLinks doc in
  let fix_of := λ d, ignoreLinkFix document (default "" (link d)) in
  provideCodeActions document (getDiagnostics doc options token).2
  = (if token AfterLinks || negb (Options.enabled options) then []
     else (fix_of <$> validateFileLinks options links token)
          ++ (fix_of <$> validateFragmentLinks doc options links token)) ∧
  Forall (λ d, is_Some (link d)) (validateFileLinks options links token) ∧
  Forall (λ d, is_Some (link d)) (validateFragmentLinks doc options links token) ∧
  Forall (λ d, link d = None) (validateReferenceLinks options links) ∧
  (∀ ignored,
     command (action_command (ignoreLinkFix document ignored)) = "_markdown.addToIgnoreLinks" ∧
     arguments (action_command (ignoreLinkFix document ignored)) = (td_uri document, ignored)).
Proof.
  intros links fix_of.
  pose proof (validateFileLinks_linked options links token) as Hfile.
  pose proof (validateFragmentLinks_linked doc options links token) as Hfragment.
  pose proof (validateReferenceLinks_unlinked options links) as Hreference.
  split; [|done].
  unfold Computer.getDiagnostics. fold links.
  destruct (_ || _); [done|]. cbn [snd concat].
  rewrite !provideCodeActions_app, app_nil_r.
  rewrite (provideCodeActions_linked _ _ Hfile).
  rewrite (provideCodeActions_linked _ _ Hfragment).
  by rewrite (provideCodeActions_unlinked _ _ Hreference).
Qed.

(** X18.  The quick fix works for a link that matches itself as a glob:
    with the list the command writes for [path] as [ignoreLinks], no
    diagnostic of the document names [path] as its link any more. *)
Theorem quick_fix_silences_link
    (doc : SkinnyTextDocument) (options : DiagnosticOptions) (token : checkpoint → bool)
    (path : string)
    (Hglob : isMatch path path = true) :
  Forall (λ d, link d ≠ Some path)
    (getDiagnostics doc
       (withIgnoreLinks (execute (Options.ignoreLinks options) path) options) token).2.
Proof.
  apply Forall_forall. intros d Hd Hlink.
  pose proof (reported_link_not_ignored getAllLinks isMatch tryFindMdDocumentForLink
                pathExists fsPath tocLookup definitionLookup withStartTranslated
                _ _ _ _ _ Hd Hlink) as Hnot.
  assert (Computer.isIgnoredLink isMatch
            (withIgnoreLinks (execute (Options.ignoreLinks options) path) options) path
          = true) as Hyes; [|by rewrite Hyes in Hnot].
  apply isIgnoredLink_elem_of. exists path. split; [|done].
  apply JsSet.elem_of_add. by left.
Qed.

End host.

Lemma quick_fix_silences_link_witness :
  glob_exact "missing.md" "missing.md" = true ∧
  Forall (λ d, link d ≠ Some "missing.md")
    (Computer.getDiagnostics (λ _, example_links) glob_exact no_document no_path fsPath_of
       (λ _ _, false) (λ _ _, false) id example_doc
       (withIgnoreLinks
          (execute (Options.ignoreLinks (example_options (Some warning))) "missing.md")
          (example_options (Some warning)))
       not_cancelled).2.
Proof.
  assert (glob_exact "missing.md" "missing.md" = true) as Hglob by reflexivity.
  split; [exact Hglob|].
  exact (quick_fix_silences_link (λ _, example_links) glob_exact no_document no_path
           fsPath_of (λ _ _, false) (λ _ _, false) id example_doc
           (example_options (Some warning)) not_cancelled "missing.md" Hglob).
Defined.

End QuickFix.

(** ** The launch configuration of the smoke tests ([electron.ts]) *)

Module Electron.

Import MergeEditor (outcome, Returned, Thrown).

(** [process.platform] *)
Inductive Platform : Type :=
  | darwin
  | linux
  | win32
  | otherPlatform (name : string).

(** The fields of [product.json] that the path functions read. *)
Record Product : Type := mkProduct {
  nameLong : string;
  applicationName : string;
  nameShort : string;
}.

(** Modelled from the spec: [LaunchOptions] is declared in [./code], whose
    source this development does not have; it is given with the fields
    [resolveElectronConfiguration] reads.  An option that may be undefined
    and is only tested for truth ([remote], [verbose]) is a boolean. *)
Record LaunchOptions : Type := mkLaunchOptions {
  codePath : option string;
  workspacePath : string;
  extensionsPath : string;
  userDataDir : string;
  remote : bool;
  verbose : bool;
  logsPath : string;
  crashesPath : string;
  extraArgs : option (list string);
}.

Record IElectronConfiguration : Type := mkConfiguration {
  electronPath : string;
  args : list string;
  env : gmap string string;
}.

(** What the function does to the file system, in order. *)
Inductive Effect : Type :=
  | CopyExtension (repoPath extensionsDir extId : string)
  | Mkdirp (dir : string).

(** [if (codePath)]: a string that is neither undefined nor empty. *)
Definition truthy (s : option string) : bool :=
  match s with
  | Some (String _ _) => true
  | _ => false
  end.

Section host.

(** The host's side: the repository [root], [process.platform],
    [path.join], [URI.file(p).path], the [product.json] that [require] loads
    from a path, and [process.env].  The calls to the file system are taken
    to succeed. *)
Variable root : string.
Variable platform : Platform.
Variable join : list string → string.
Variable uriFilePath : string → string.
Variable requireProduct : string → Product.
Variable process_env : gmap string string.

(** [getDevElectronPath()] *)
Definition getDevElectronPath : outcome string :=
  let buildPath := join [root; ".build"] in
  let product := requireProduct (join [root; "product.json"]) in
  match platform with
  | darwin =>
      Returned (join [buildPath; "electron"; nameLong product +:+ ".app"; "Contents";
                      "MacOS"; "Electron"])
  | linux => Returned (join [buildPath; "electron"; applicationName product])
  | win32 => Returned (join [buildPath; "electron"; nameShort product +:+ ".exe"])
  | otherPlatform _ => Thrown "Unsupported platform."
  end.

(** [getBuildElectronPath(root)] *)
Definition getBuildElectronPath (buildRoot : string) : outcome string :=
  match platform with
  | darwin => Returned (join [buildRoot; "Contents"; "MacOS"; "Electron"])
  | linux =>
      let product := requireProduct (join [buildRoot; "resources"; "app"; "product.json"]) in
      Returned (join [buildRoot; applicationName product])
  | win32 =>
      let product := requireProduct (join [buildRoot; "resources"; "app"; "product.json"]) in
      Returned (join [buildRoot; nameShort product +:+ ".exe"])
  | otherPlatform _ => Thrown "Unsupported platform."
  end.

(** The array literal [args] starts from. *)
Definition initialArgs (options : LaunchOptions) : list string :=
  [ workspacePath options;
    "--skip-release-notes";
    "--skip-welcome";
    "--disable-telemetry";
    "--no-cached-data";
    "--disable-updates";
    "--disable-keytar";
    "--crash-reporter-directory=" +:+ crashesPath options;
    "--disable-workspace-trust";
    "--extensions-dir=" +:+ extensionsPath options;
    "--user-data-dir=" +:+ userDataDir options;
    "--logsPath=" +:+ logsPath options ].

(** The argument that replaces the workspace path for a remote launch. *)
Definition remoteUriArg (options : LaunchOptions) : string :=
  "--" +:+ (if endsWith ".code-workspace" (workspacePath options) then "file" else "folder")
  +:+ "-uri=vscode-remote://test+test/" +:+ uriFilePath (workspacePath options).

(** [resolveElectronConfiguration(options)]: the effects on the file
    system, and the configuration or the error. *)
Definition resolveElectronConfiguration (options : LaunchOptions)
    : list Effect * outcome IElectronConfiguration :=
  let env := process_env in
  let args := initialArgs options in
  let args := if verbose options then args ++ ["--verbose"] else args in
  let args := match platform with linux => args ++ ["--disable-gpu"] | _ => args end in
  let '(args, env, effects) :=
    if remote options then
      let args := <[0 := remoteUriArg options]> args in
      let effects1 :=
        if truthy (codePath options)
        then [CopyExtension root (extensionsPath options) "vscode-test-resolver"]
        else [] in
      let args := args ++ ["--enable-proposed-api=vscode.vscode-test-resolver"] in
      let remoteDataDir := userDataDir options +:+ "-server" in
      let effects2 := [Mkdirp remoteDataDir] in
      let effects3 :=
        if truthy (codePath options)
        then let remoteExtensionsDir := join [remoteDataDir; "extensions"] in
             [Mkdirp remoteExtensionsDir;
              CopyExtension root remoteExtensionsDir "vscode-notebook-tests"]
        else [] in
      let env := <["TESTRESOLVER_DATA_FOLDER" := remoteDataDir]> env in
      let env := <["TESTRESOLVER_LOGS_FOLDER" := join [logsPath options; "server"]]> env in
      let env :=
        if verbose options then <["TESTRESOLVER_LOG_LEVEL" := "trace"]> env else env in
      (args, env, effects1 ++ effects2 ++ effects3)
    else (args, env, []) in
  let args := args ++ ["--enable-proposed-api=vscode.vscode-notebook-tests"] in
  let args := if negb (truthy (codePath options)) then root :: args else args in
  let args := match extraArgs options with
              | Some extra => args ++ extra
              | None => args
              end in
  let electronPath :=
    match codePath options with
    | Some (String a rest) => getBuildElectronPath (String a rest)
    | _ => getDevElectronPath
    end in
  (effects,
   match electronPath with
   | Returned p => Returned {| electronPath := p; args := args; env := env |}
   | Thrown what => Thrown what
   end).

(** The platforms the path functions know. *)
Definition supported : bool :=
  match platform with
  | otherPlatform _ => false
  | _ => true
  end.

Definition remoteDataDir (options : LaunchOptions) : string :=
  userDataDir options +:+ "-server".

Lemma electronPath_outcome (options : LaunchOptions) :
  match codePath options with
  | Some (String a rest) => getBuildElectronPath (String a rest)
  | _ => getDevElectronPath
  end = (if truthy (codePath options)
         then getBuildElectronPath (default "" (codePath options))
         else getDevElectronPath).
Proof. by destruct (codePath options) as [[|]|]. Qed.

Lemma resolve_args options effects config :
  resolveElectronConfiguration options = (effects, Returned config) →
  args config =
    (if truthy (codePath options) then [] else [root])
    ++ (if remote options then remoteUriArg options else workspacePath options)
    :: tail (initialArgs options)
    ++ (if verbose options then ["--verbose"] else [])
    ++ (match platform with linux => ["--disable-gpu"] | _ => [] end)
    ++ (if remote options then ["--enable-proposed-api=vscode.vscode-test-resolver"] else [])
    ++ ["--enable-proposed-api=vscode.vscode-notebook-tests"]
    ++ default [] (extraArgs options).
Proof.
  unfold resolveElectronConfiguration.
  destruct (match codePath options with
            | Some (String a rest) => getBuildElectronPath (String a rest)
            | _ => getDevElectronPath
            end) as [p|]; [|by destruct (remote options)].
  destruct (remote options), (verbose options), (truthy (codePath options)),
    (extraArgs options) as [extra|], platform;
    intros [= _ <-]; cbn -[String.append]; rewrite ?app_nil_r, <- ?app_assoc; done.
Qed.

(** X19.  The command line of a launch that resolves.  The arguments are,
    in this order: the repository root when no build is given ([codePath]
    undefined or empty); the workspace, as its path or, for a remote launch,
    as a [--file-uri=] argument when the path ends in [.code-workspace] and
    a [--folder-uri=] argument otherwise; the eleven fixed flags;
    [--verbose] when asked; [--disable-gpu] on Linux; the proposed API of
    the test resolver for a remote launch; the proposed API of the notebook
    tests; and last the extra arguments, in their order. *)
Theorem resolved_args_layout
    (options : LaunchOptions) (effects : list Effect) (config : IElectronConfiguration)
    (Hresolved : resolveElectronConfiguration options = (effects, Returned config)) :
  args config =
    (if truthy (codePath options) then [] else [root])
    ++ [if remote options
        then "--" +:+ (if endsWith ".code-workspace" (workspacePath options)
                       then "file" else "folder")
             +:+ "-uri=vscode-remote://test+test/" +:+ uriFilePath (workspacePath options)
        else workspacePath options]
    ++ [ "--skip-release-notes"; "--skip-welcome"; "--disable-telemetry";
         "--no-cached-data"; "--disable-updates"; "--disable-keytar";
         "--crash-reporter-directory=" +:+ crashesPath options;
         "--disable-workspace-trust";
         "--extensions-dir=" +:+ extensionsPath options;
         "--user-data-dir=" +:+ userDataDir options;
         "--logsPath=" +:+ logsPath options ]
    ++ (if verbose options then ["--verbose"] else [])
    ++ (match platform with linux => ["--disable-gpu"] | _ => [] end)
    ++ (if remote options then ["--enable-proposed-api=vscode.vscode-test-resolver"] else [])
    ++ ["--enable-proposed-api=vscode.vscode-notebook-tests"]
    ++ default [] (extraArgs options) ∧
  default [] (extraArgs options) `suffix_of` args config ∧
  length (args config) =
    (if truthy (codePath options) then 0 else 1) + 13
    + (if verbose options then 1 else 0)
    + (match platform with linux => 1 | _ => 0 end)
    + (if remote options then 1 else 0)
    + length (default [] (extraArgs options)).
Proof.
  pose proof (resolve_args _ _ _ Hresolved) as Hargs.
  split; [exact Hargs|]. split.
  - rewrite Hargs. rewrite app_comm_cons, !app_assoc. by eexists.
  - rewrite Hargs. rewrite length_app, length_cons, !length_app. cbn [length tail initialArgs].
    destruct (truthy _), (verbose options), (remote options), platform; cbn [length]; lia.
Qed.

Lemma resolve_effects options :
  (resolveElectronConfiguration options).1 =
  if remote options then
    (if truthy (codePath options)
     then [CopyExtension root (extensionsPath options) "vscode-test-resolver"] else [])
    ++ [Mkdirp (remoteDataDir options)]
    ++ (if truthy (codePath options)
        then [Mkdirp (join [remoteDataDir options; "extensions"]);
              CopyExtension root (join [remoteDataDir options; "extensions"])
                "vscode-notebook-tests"]
        else [])
  else [].
Proof. unfold resolveElectronConfiguration. by destruct (remote options). Qed.

Lemma resolve_env options effects config :
  resolveElectronConfiguration options = (effects, Returned config) →
  env config =
  if remote options then
    let env := <["TESTRESOLVER_LOGS_FOLDER" := join [logsPath options; "server"]]>
                 (<["TESTRESOLVER_DATA_FOLDER" := remoteDataDir options]> process_env) in
    if verbose options then <["TESTRESOLVER_LOG_LEVEL" := "trace"]> env else env
  else process_env.
Proof.
  unfold resolveElectronConfiguration.
  destruct (match codePath options with
            | Some (String a rest) => getBuildElectronPath (String a rest)
            | _ => getDevElectronPath
            end) as [p|]; [|by destruct (remote options)].
  destruct (remote options); by intros [= _ <-].
Qed.

(** X20.  What a launch does besides building the command line.  A launch
    that is not remote touches nothing: no directory is made, no extension
    copied, and the environment is [process.env].  A remote launch makes the
    server data directory [<userDataDir>-server]; it copies the test
    resolver into the extensions directory, makes the server's extensions
    directory and then copies the notebook tests into it, exactly when a
    build is given.  It does so whether or not the platform is supported.
    The environment of a remote launch that resolves has the data and logs
    folders of the test resolver, its log level [trace] when verbose, and
    every other variable as in [process.env]. *)
Theorem remote_launch_prepares_server (options : LaunchOptions) :
  (resolveElectronConfiguration options).1 =
    (if remote options then
       (if truthy (codePath options)
        then [CopyExtension root (extensionsPath options) "vscode-test-resolver"] else [])
       ++ [Mkdirp (userDataDir options +:+ "-server")]
       ++ (if truthy (codePath options)
           then [Mkdirp (join [userDataDir options +:+ "-server"; "extensions"]);
                 CopyExtension root (join [userDataDir options +:+ "-server"; "extensions"])
                   "vscode-notebook-tests"]
           else [])
     else []) ∧
  (∀ config, (resolveElectronConfiguration options).2 = Returned config →
     if remote options then
       env config !! "TESTRESOLVER_DATA_FOLDER" = Some (userDataDir options +:+ "-server") ∧
       env config !! "TESTRESOLVER_LOGS_FOLDER" = Some (join [logsPath options; "server"]) ∧
       env config !! "TESTRESOLVER_LOG_LEVEL"
         = (if verbose options then Some "trace"
            else process_env !! "TESTRESOLVER_LOG_LEVEL") ∧
       (∀ name, name ≠ "TESTRESOLVER_DATA_FOLDER" → name ≠ "TESTRESOLVER_LOGS_FOLDER" →
                name ≠ "TESTRESOLVER_LOG_LEVEL" →
                env config !! name = process_env !! name)
     else env config = process_env).
Proof.
  split; [apply resolve_effects|].
  intros config Hconfig.
  assert (resolveElectronConfiguration options
          = ((resolveElectronConfiguration options).1, Returned config)) as Hresolved.
  { rewrite <- Hconfig. by destruct (resolveElectronConfiguration options). }
  apply resolve_env in Hresolved. rewrite Hresolved.
  destruct (remote options); [|done]. cbv zeta.
  destruct (verbose options).
  - split; [by simplify_map_eq|]. split; [by simplify_map_eq|].
    split; [by simplify_map_eq|]. intros name ? ? ?. by simplify_map_eq.
  - split; [by simplify_map_eq|]. split; [by simplify_map_eq|].
    split; [by simplify_map_eq|]. intros name ? ? ?. by simplify_map_eq.
Qed.

(** X21.  The Electron binary and the unsupported platform.  On [darwin],
    [linux] and [win32] both path functions return, and the launch resolves
    with the path of the build when a build is given ([codePath] neither
    undefined nor empty) and with the path of the development build
    otherwise.  On any other platform both path functions throw 'Unsupported
    platform.', and so does the launch, after its effects on the file
    system. *)
Theorem electronPath_by_platform (options : LaunchOptions) :
  (∀ buildRoot,
     (∃ p, getBuildElectronPath buildRoot = Returned p) ↔ supported = true) ∧
  ((∃ p, getDevElectronPath = Returned p) ↔ supported = true) ∧
  (supported = false →
   (∀ buildRoot, getBuildElectronPath buildRoot = Thrown "Unsupported platform.") ∧
   getDevElectronPath = Thrown "Unsupported platform." ∧
   (resolveElectronConfiguration options).2 = Thrown "Unsupported platform.") ∧
  (supported = true →
   ∃ config, (resolveElectronConfiguration options).2 = Returned config ∧
     Returned (electronPath config)
     = if truthy (codePath options)
       then getBuildElectronPath (default "" (codePath options))
       else getDevElectronPath).
Proof.
  unfold supported. split; [|split; [|split]].
  - intros buildRoot. unfold getBuildElectronPath.
    destruct platform; split; eauto; try done. by intros [? [=]].
  - unfold getDevElectronPath. destruct platform; split; eauto; try done.
    by intros [? [=]].
  - intros Hp. unfold resolveElectronConfiguration.
    rewrite electronPath_outcome. unfold getBuildElectronPath, getDevElectronPath.
    destruct platform; try done.
    split; [done|]. split; [done|].
    destruct (remote options), (truthy (codePath options)); done.
  - intros Hp. unfold resolveElectronConfiguration.
    rewrite electronPath_outcome. unfold getBuildElectronPath, getDevElectronPath.
    destruct platform; try done;
      destruct (remote options), (truthy (codePath options)); cbn -[String.append];
        eexists; (split; [reflexivity|done]).
Qed.

End host.

(** *** A remote launch against a build, on Linux *)

Definition example_join (parts : list string) : string := String.concat "/" parts.

Definition example_product (file : string) : Product :=
  {| nameLong := "Code - OSS"; applicationName := "code-oss"; nameShort := "Code - OSS" |}.

Definition example_options : LaunchOptions :=
  {| codePath := Some "/build";
     workspacePath := "/w/test.code-workspace";
     extensionsPath := "/ext";
     userDataDir := "/data";
     remote := true;
     verbose := false;
     logsPath := "/logs";
     crashesPath := "/crashes";
     extraArgs := Some ["--foo"] |}.

Definition example_configuration : IElectronConfiguration :=
  {| electronPath := "/build/code-oss";
     args := [ "--file-uri=vscode-remote://test+test//w/test.code-workspace";
               "--skip-release-notes"; "--skip-welcome"; "--disable-telemetry";
               "--no-cached-data"; "--disable-updates"; "--disable-keytar";
               "--crash-reporter-directory=/crashes"; "--disable-workspace-trust";
               "--extensions-dir=/ext"; "--user-data-dir=/data"; "--logsPath=/logs";
               "--disable-gpu";
               "--enable-proposed-api=vscode.vscode-test-resolver";
               "--enable-proposed-api=vscode.vscode-notebook-tests";
               "--foo" ];
     env := {[ "TESTRESOLVER_DATA_FOLDER" := "/data-server";
               "TESTRESOLVER_LOGS_FOLDER" := "/logs/server" ]} |}.

Definition example_effects : list Effect :=
  [ CopyExtension "/repo" "/ext" "vscode-test-resolver";
    Mkdirp "/data-server";
    Mkdirp "/data-server/extensions";
    CopyExtension "/repo" "/data-server/extensions" "vscode-notebook-tests" ].

Example resolveElectronConfiguration_example :
  resolveElectronConfiguration "/repo" linux example_join id example_product ∅
    example_options
  = (example_effects, Returned example_configuration).
Proof. vm_compute. reflexivity. Qed.

Lemma resolved_args_layout_witness :
  resolveElectronConfiguration "/repo" linux example_join id example_product ∅
    example_options = (example_effects, Returned example_configuration) ∧
  ["--foo"] `suffix_of` args example_configuration.
Proof.
  assert (resolveElectronConfiguration "/repo" linux example_join id example_product ∅
            example_options = (example_effects, Returned example_configuration))
    as Hresolved by (vm_compute; reflexivity).
  split; [exact Hresolved|].
  exact (proj1 (proj2 (resolved_args_layout "/repo" linux example_join id example_product ∅
                         example_options example_effects example_configuration
                         Hresolved))).
Defined.

End Electron.

(** ** The alignment view zones of the merge editor *)

Module Alignment.

(** Modelled from the spec: [LineRange] and [ModifiedBaseRange] are declared
    in the merge editor's [model], whose source this development does not
    have; they are given with the fields the alignment autorun reads. *)
Record LineRange : Type := mkLineRange {
  startLineNumber : Z;
  lineCount : Z;
}.

Definition endLineNumberExclusive (r : LineRange) : Z :=
  (startLineNumber r + lineCount r)%Z.

Record ModifiedBaseRange : Type := mkModifiedBaseRange {
  input1Range : LineRange;
  input2Range : LineRange;
}.

(** A view zone, by the two numbers the autorun sets; the DOM node is the
    same for all. *)
Record IViewZone : Type := mkViewZone {
  afterLineNumber : Z;
  heightInLines : Z;
}.

(** Modelled from the spec: the view zones of a code editor, as
    [changeViewZones] exposes them: [addZone] stores the zone under an
    identifier that was not used before and returns the identifier,
    [removeZone] drops the zone of an identifier. *)
Record ViewZones : Type := mkViewZones {
  zones : gmap nat IViewZone;
  next_zone : nat;
}.

Definition addZone (zone : IViewZone) (e : ViewZones) : nat * ViewZones :=
  (next_zone e,
   {| zones := <[next_zone e := zone]> (zones e); next_zone := S (next_zone e) |}).

Definition removeZone (id : nat) (e : ViewZones) : ViewZones :=
  {| zones := delete id (zones e); next_zone := next_zone e |}.

(** [Math.max(m.input1Range.lineCount, m.input2Range.lineCount, 1)] *)
Definition maxLines (m : ModifiedBaseRange) : Z :=
  Z.max (Z.max (lineCount (input1Range m)) (lineCount (input2Range m))) 1.

(** The zones added for one modified base range. *)
Definition input1Zone (m : ModifiedBaseRange) : IViewZone :=
  {| afterLineNumber := (endLineNumberExclusive (input1Range m) - 1)%Z;
     heightInLines := (maxLines m - lineCount (input1Range m))%Z |}.

Definition input2Zone (m : ModifiedBaseRange) : IViewZone :=
  {| afterLineNumber := (endLineNumberExclusive (input2Range m) - 1)%Z;
     heightInLines := (maxLines m - lineCount (input2Range m))%Z |}.

(** The state of the autorun 'update alignment view zones': the zones of the
    two input editors and the identifiers pushed so far. *)
Record AlignmentState : Type := mkAlignment {
  input1Editor : ViewZones;
  input1ViewZoneIds : list nat;
  input2Editor : ViewZones;
  input2ViewZoneIds : list nat;
}.

(** The body of the loop over [model.modifiedBaseRanges]. *)
Definition alignRange (st : AlignmentState) (m : ModifiedBaseRange) : AlignmentState :=
  let '(id1, e1) := addZone (input1Zone m) (input1Editor st) in
  let '(id2, e2) := addZone (input2Zone m) (input2Editor st) in
  {| input1Editor := e1; input1ViewZoneIds := input1ViewZoneIds st ++ [id1];
     input2Editor := e2; input2ViewZoneIds := input2ViewZoneIds st ++ [id2] |}.

(** One run of the autorun on the editors [e1] and [e2]. *)
Definition updateAlignmentViewZones (ranges : list ModifiedBaseRange)
    (e1 e2 : ViewZones) : AlignmentState :=
  foldl alignRange
    {| input1Editor := e1; input1ViewZoneIds := [];
       input2Editor := e2; input2ViewZoneIds := [] |} ranges.

(** The [dispose] added to the store of the run. *)
Definition removeZones (ids : list nat) (e : ViewZones) : ViewZones :=
  foldl (λ e id, removeZone id e) e ids.

Definition dispose (st : AlignmentState) : ViewZones * ViewZones :=
  (removeZones (input1ViewZoneIds st) (input1Editor st),
   removeZones (input2ViewZoneIds st) (input2Editor st)).

(** Identifiers are handed out in order, so the zones of an editor lie
    below its next identifier. *)
Definition fresh_ok (e : ViewZones) : Prop :=
  ∀ id, is_Some (zones e !! id) → id < next_zone e.

(** The height an input editor shows for a range: its lines and the zone. *)
Definition shownHeight (r : LineRange) (zone : IViewZone) : Z :=
  (lineCount r + heightInLines zone)%Z.

(** X23.  The alignment zones make the two inputs of a modified range
    equally high: the lines of a range and its zone add up to the larger
    line count of the two ranges, and to one line where both ranges are
    empty.  No zone has a negative height, and where a range has a line one
    of the two zones has height zero.  Each zone sits after the last line of
    its range.  So the total shown height of all ranges is the same in the
    two inputs. *)
Theorem alignment_zones_level_the_inputs (ranges : list ModifiedBaseRange) :
  Forall (λ m,
    shownHeight (input1Range m) (input1Zone m) = shownHeight (input2Range m) (input2Zone m) ∧
    shownHeight (input1Range m) (input1Zone m)
      = Z.max (Z.max (lineCount (input1Range m)) (lineCount (input2Range m))) 1 ∧
    (0 ≤ heightInLines (input1Zone m))%Z ∧
    (0 ≤ heightInLines (input2Zone m))%Z ∧
    ((1 ≤ lineCount (input1Range m) ∨ 1 ≤ lineCount (input2Range m))%Z →
     heightInLines (input1Zone m) = 0%Z ∨ heightInLines (input2Zone m) = 0%Z) ∧
    (afterLineNumber (input1Zone m) + 1
     = startLineNumber (input1Range m) + lineCount (input1Range m))%Z ∧
    (afterLineNumber (input2Zone m) + 1
     = startLineNumber (input2Range m) + lineCount (input2Range m))%Z) ranges ∧
  foldr Z.add 0%Z ((λ m, shownHeight (input1Range m) (input1Zone m)) <$> ranges)
  = foldr Z.add 0%Z ((λ m, shownHeight (input2Range m) (input2Zone m)) <$> ranges).
Proof.
  assert (∀ m, shownHeight (input1Range m) (input1Zone m)
               = shownHeight (input2Range m) (input2Zone m)) as Hlevel.
  { intros m. unfold shownHeight, input1Zone, input2Zone, maxLines. simpl. lia. }
  split.
  - apply Forall_forall. intros m _. split; [apply Hlevel|].
    unfold shownHeight, input1Zone, input2Zone, maxLines, endLineNumberExclusive.
    simpl. lia.
  - induction ranges as [|m ranges IH]; [done|]. rewrite !fmap_cons. simpl.
    by rewrite IH, Hlevel.
Qed.

Lemma removeZones_next ids e : next_zone (removeZones ids e) = next_zone e.
Proof.
  revert e. induction ids as [|id ids IH]; intros e; [done|].
  unfold removeZones in *. cbn [foldl]. by rewrite IH.
Qed.

Lemma removeZones_lookup ids e id :
  zones (removeZones ids e) !! id = if decide (id ∈ ids) then None else zones e !! id.
Proof.
  revert e. induction ids as [|x ids IH]; intros e.
  { by rewrite decide_False by apply not_elem_of_nil. }
  unfold removeZones in *. cbn [foldl]. rewrite IH.
  destruct (decide (id ∈ ids)) as [Hin|Hnin].
  - rewrite decide_True; [done|]. by right.
  - destruct (decide (id = x)) as [->|Hne].
    + rewrite decide_True by (by left). apply lookup_delete_eq.
    + rewrite decide_False by (intros [?|?]%elem_of_cons; done).
      by apply lookup_delete_ne.
Qed.

(** The state of a run over [ranges] from the editors [e1] and [e2]. *)
Lemma updateAlignmentViewZones_spec ranges e1 e2 :
  let st := updateAlignmentViewZones ranges e1 e2 in
  input1ViewZoneIds st = seq (next_zone e1) (length ranges) ∧
  input2ViewZoneIds st = seq (next_zone e2) (length ranges) ∧
  next_zone (input1Editor st) = next_zone e1 + length ranges ∧
  next_zone (input2Editor st) = next_zone e2 + length ranges ∧
  (∀ id, zones (input1Editor st) !! id =
         if decide (next_zone e1 ≤ id < next_zone e1 + length ranges)
         then input1Zone <$> ranges !! (id - next_zone e1)
         else zones e1 !! id) ∧
  (∀ id, zones (input2Editor st) !! id =
         if decide (next_zone e2 ≤ id < next_zone e2 + length ranges)
         then input2Zone <$> ranges !! (id - next_zone e2)
         else zones e2 !! id).
Proof.
  unfold updateAlignmentViewZones.
  induction ranges as [|m ranges IH] using rev_ind.
  { simpl. split; [done|]. split; [done|]. split; [lia|]. split; [lia|].
    split; intros id; by rewrite decide_False by lia. }
  rewrite foldl_app. cbn [foldl].
  set (st := foldl alignRange _ ranges) in *.
  destruct IH as (Hids1 & Hids2 & Hn1 & Hn2 & Hz1 & Hz2).
  rewrite length_app. cbn [length]. unfold alignRange, addZone.
  cbn [input1Editor input2Editor input1ViewZoneIds input2ViewZoneIds zones next_zone].
  rewrite Hids1, Hids2, Hn1, Hn2, !seq_app. cbn [seq].
  split; [done|]. split; [done|]. split; [lia|]. split; [lia|].
  split; intros id.
  - destruct (decide (id = next_zone e1 + length ranges)) as [->|Hne].
    + rewrite lookup_insert_eq, decide_True by lia.
      replace (next_zone e1 + length ranges - next_zone e1) with (length ranges) by lia.
      by rewrite list_lookup_middle.
    + rewrite lookup_insert_ne, Hz1 by done.
      destruct (decide (next_zone e1 ≤ id < next_zone e1 + length ranges)) as [Hin|Hout].
      * rewrite decide_True by lia. by rewrite lookup_app_l by lia.
      * by rewrite decide_False by lia.
  - destruct (decide (id = next_zone e2 + length ranges)) as [->|Hne].
    + rewrite lookup_insert_eq, decide_True by lia.
      replace (next_zone e2 + length ranges - next_zone e2) with (length ranges) by lia.
      by rewrite list_lookup_middle.
    + rewrite lookup_insert_ne, Hz2 by done.
      destruct (decide (next_zone e2 ≤ id < next_zone e2 + length ranges)) as [Hin|Hout].
      * rewrite decide_True by lia. by rewrite lookup_app_l by lia.
      * by rewrite decide_False by lia.
Qed.

Lemma removeZones_seq e e' n :
  fresh_ok e →
  (∀ id, zones e' !! id = if decide (next_zone e ≤ id < next_zone e + n)
                          then zones e' !! id else zones e !! id) →
  zones (removeZones (seq (next_zone e) n) e') = zones e.
Proof.
  intros Hfresh He'. apply map_eq. intros id. rewrite removeZones_lookup.
  destruct (decide (id ∈ seq (next_zone e) n)) as [Hin%elem_of_seq|Hnin].
  - destruct (zones e !! id) eqn:E; [|done].
    assert (id < next_zone e) by (apply Hfresh; by eexists). lia.
  - rewrite He'. rewrite decide_False; [done|]. by rewrite elem_of_seq in Hnin.
Qed.

(** X24.  One run of the alignment autorun adds to each input editor one
    zone per modified range, in the order of the ranges and with the heights
    and positions of X23, and changes no zone that was there; disposing the
    run removes exactly the zones it added, so that the editors have the
    zones they had before the run. *)
Theorem alignment_run_adds_and_dispose_removes
    (ranges : list ModifiedBaseRange) (e1 e2 : ViewZones)
    (Hfresh1 : fresh_ok e1) (Hfresh2 : fresh_ok e2) :
  let st := updateAlignmentViewZones ranges e1 e2 in
  length (input1ViewZoneIds st) = length ranges ∧
  length (input2ViewZoneIds st) = length ranges ∧
  NoDup (input1ViewZoneIds st) ∧ NoDup (input2ViewZoneIds st) ∧
  (∀ i, (input1ViewZoneIds st !! i) ≫= (λ id, zones (input1Editor st) !! id)
        = input1Zone <$> ranges !! i) ∧
  (∀ i, (input2ViewZoneIds st !! i) ≫= (λ id, zones (input2Editor st) !! id)
        = input2Zone <$> ranges !! i) ∧
  (∀ id zone, zones e1 !! id = Some zone → zones (input1Editor st) !! id = Some zone) ∧
  (∀ id zone, zones e2 !! id = Some zone → zones (input2Editor st) !! id = Some zone) ∧
  zones (dispose st).1 = zones e1 ∧ zones (dispose st).2 = zones e2.
Proof.
  intros st.
  destruct (updateAlignmentViewZones_spec ranges e1 e2)
    as (Hids1 & Hids2 & Hn1 & Hn2 & Hz1 & Hz2).
  fold st in Hids1, Hids2, Hn1, Hn2, Hz1, Hz2.
  rewrite Hids1, Hids2.
  split; [apply length_seq|]. split; [apply length_seq|].
  split; [apply NoDup_seq|]. split; [apply NoDup_seq|].
  split; [|split; [|split; [|split; [|split]]]].
  - intros i. destruct (decide (i < length ranges)) as [Hi|Hi].
    + rewrite lookup_seq_lt by done. cbn [mbind option_bind]. rewrite Hz1.
      rewrite decide_True by lia. f_equal. f_equal. lia.
    + rewrite lookup_seq_ge by lia. rewrite lookup_ge_None_2 by lia. done.
  - intros i. destruct (decide (i < length ranges)) as [Hi|Hi].
    + rewrite lookup_seq_lt by done. cbn [mbind option_bind]. rewrite Hz2.
      rewrite decide_True by lia. f_equal. f_equal. lia.
    + rewrite lookup_seq_ge by lia. rewrite lookup_ge_None_2 by lia. done.
  - intros id zone Hid. rewrite Hz1.
    assert (id < next_zone e1) by (apply Hfresh1; by eexists).
    by rewrite decide_False by lia.
  - intros id zone Hid. rewrite Hz2.
    assert (id < next_zone e2) by (apply Hfresh2; by eexists).
    by rewrite decide_False by lia.
  - unfold dispose. cbn [fst]. rewrite Hids1. apply removeZones_seq; [done|].
    intros id. rewrite Hz1. by destruct (decide _).
  - unfold dispose. cbn [snd]. rewrite Hids2. apply removeZones_seq; [done|].
    intros id. rewrite Hz2. by destruct (decide _).
Qed.

(** *** Two conflicts in editors that already show a zone *)

Definition example_ranges : list ModifiedBaseRange :=
  [ {| input1Range := mkLineRange 3 2; input2Range := mkLineRange 3 5 |};
    {| input1Range := mkLineRange 9 0; input2Range := mkLineRange 12 0 |} ].

Definition example_zones : ViewZones :=
  {| zones := {[ 0 := mkViewZone 1 4 ]}; next_zone := 1 |}.

Example updateAlignmentViewZones_example :
  let st := updateAlignmentViewZones example_ranges example_zones example_zones in
  map_to_list (zones (input1Editor st))
    ≡ₚ [(0, mkViewZone 1 4); (1, mkViewZone 4 3); (2, mkViewZone 8 1)] ∧
  map_to_list (zones (input2Editor st))
    ≡ₚ [(0, mkViewZone 1 4); (1, mkViewZone 7 0); (2, mkViewZone 11 1)].
Proof.
  split.
  - assert (zones (input1Editor
              (updateAlignmentViewZones example_ranges example_zones example_zones))
            = list_to_map [(0, mkViewZone 1 4); (1, mkViewZone 4 3); (2, mkViewZone 8 1)])
      as -> by (apply map_eq; intros i; vm_compute; reflexivity).
    apply map_to_list_to_map. vm_compute. repeat constructor; set_solver.
  - assert (zones (input2Editor
              (updateAlignmentViewZones example_ranges example_zones example_zones))
            = list_to_map [(0, mkViewZone 1 4); (1, mkViewZone 7 0); (2, mkViewZone 11 1)])
      as -> by (apply map_eq; intros i; vm_compute; reflexivity).
    apply map_to_list_to_map. vm_compute. repeat constructor; set_solver.
Qed.

Lemma example_zones_fresh : fresh_ok example_zones.
Proof.
  intros id [zone Hid]. unfold example_zones in *. cbn [zones next_zone] in *.
  apply lookup_singleton_Some in Hid as [<- _]. lia.
Qed.

Lemma alignment_run_witness :
  fresh_ok example_zones ∧
  zones (dispose (updateAlignmentViewZones example_ranges example_zones example_zones)).1
  = zones example_zones.
Proof.
  split; [exact example_zones_fresh|].
  exact (proj1 (proj2 (proj2 (proj2 (proj2 (proj2 (proj2 (proj2 (proj2
           (alignment_run_adds_and_dispose_removes example_ranges example_zones
              example_zones example_zones_fresh example_zones_fresh)))))))))).
Defined.

End Alignment.

(** ** [VSCodeDiagnosticConfiguration.getOptions] *)

Module Configuration.

Import Computer FileLinks.

(** The settings [getOptions] asks for, by the name it passes to
    [config.get]. *)
Definition enabledKey : string := "experimental.validate.enabled".
Definition referenceLinksKey : string := "experimental.validate.referenceLinks.enabled".
Definition fragmentLinksKey : string := "experimental.validate.fragmentLinks.enabled".
Definition fileLinksKey : string := "experimental.validate.fileLinks.enabled".
Definition markdownFragmentLinksKey : string :=
  "markdown.experimental.validate.fileLinks.markdownFragmentLinks".
Definition ignoreLinksKey : string := "experimental.validate.ignoreLinks".

(** The names under which [getOptions] reads a level. *)
Definition levelKeys : list string :=
  [referenceLinksKey; fragmentLinksKey; fileLinksKey; markdownFragmentLinksKey].

Section host.

(** The host's side: [config.get(name)] of
    [vscode.workspace.getConfiguration('markdown', resource)], by the type
    the caller asks for; [None] is [undefined]. *)
Variable get_boolean : Uri → string → option bool.
Variable get_level : Uri → string → option DiagnosticLevel.
Variable get_strings : Uri → string → option (list string).

(** [getOptions(resource)]; [config.get(name, defaultValue)] is the default
    where the host has no value. *)
Definition getOptions (resource : Uri) : DiagnosticOptions :=
  let validateFragmentLinks := get_level resource fragmentLinksKey in
  {| Options.enabled := default false (get_boolean resource enabledKey);
     Options.validateReferences := get_level resource referenceLinksKey;
     Options.validateFragmentLinks := validateFragmentLinks;
     Options.validateFileLinks := get_level resource fileLinksKey;
     Options.validateMarkdownFileLinkFragments :=
       match get_level resource markdownFragmentLinksKey with
       | Some level => Some level
       | None => validateFragmentLinks
       end;
     Options.ignoreLinks := default [] (get_strings resource ignoreLinksKey) |}.

End host.

Section fragments.

Variable get_boolean : Uri → string → option bool.
Variable get_level : Uri → string → option DiagnosticLevel.
Variable get_strings : Uri → string → option (list string).
Variable isMatch : string → string → bool.
Variable tryFindMdDocumentForLink : string → option SkinnyTextDocument.
Variable pathExists : string → bool.
Variable fsPath : string → string.
Variable tocLookup : SkinnyTextDocument → string → bool.
Variable withStartTranslated : Range → Range.

#[local] Abbreviation options_of := (getOptions get_boolean get_level get_strings).
#[local] Abbreviation validateFileLinks :=
  (Computer.validateFileLinks isMatch tryFindMdDocumentForLink pathExists fsPath
     tocLookup withStartTranslated).

(** X25.  [getOptions] reads the level of the links to headers of other
    files under the name
    'markdown.experimental.validate.fileLinks.markdownFragmentLinks' inside
    the section 'markdown'.  Where the section has no value under that name,
    the option is the level of [fragmentLinks.enabled], and every diagnostic
    of the file pass that is not 'File does not exist' has the severity of
    that level; with that level [ignore] or undefined there is none. *)
Theorem markdownFragmentLinks_falls_back_to_fragmentLinks
    (resource : Uri) (links : list MdLink) (token : checkpoint → bool)
    (Hkey : get_level resource markdownFragmentLinksKey = None) :
  Options.validateMarkdownFileLinkFragments (options_of resource)
    = get_level resource "experimental.validate.fragmentLinks.enabled" ∧
  Forall (λ d, isMissingFile d = false →
               Some (severity d)
               = toSeverity (get_level resource "experimental.validate.fragmentLinks.enabled"))
    (validateFileLinks (options_of resource) links token).
Proof.
  assert (Options.validateMarkdownFileLinkFragments (options_of resource)
          = get_level resource fragmentLinksKey) as Hoption.
  { unfold getOptions. cbn [Options.validateMarkdownFileLinkFragments]. by rewrite Hkey. }
  split; [exact Hoption|].
  apply Forall_forall. intros d.
  rewrite (validateFileLinks_per_link isMatch tryFindMdDocumentForLink pathExists fsPath
             tocLookup withStartTranslated).
  intros (mdLink & Hd & _)%list_elem_of_bind. revert Hd.
  unfold fileLinkReport, emitLink, reportLinkData, fragmentErrorSeverity.
  rewrite Hoption.
  assert (Options.validateFragmentLinks (options_of resource)
          = get_level resource fragmentLinksKey) as -> by done.
  change fragmentLinksKey with "experimental.validate.fragmentLinks.enabled".
  destruct (toSeverity (Options.validateFileLinks _)); [|by intros ?%elem_of_nil].
  destruct (startsWithHash _); [by intros ?%elem_of_nil|].
  destruct (href mdLink) as [|path fragment|];
    [by intros ?%elem_of_nil| |by intros ?%elem_of_nil].
  destruct (token _); [by intros ?%elem_of_nil|].
  destruct (tryFindMdDocumentForLink _) as [hrefDoc|].
  - assert (∀ o : option DiagnosticLevel,
              match o with Some level => Some level | None => o end = o) as Hsame
      by (by intros []).
    rewrite Hsame.
    destruct (toSeverity (get_level resource _)) as [fragmentSeverity|];
      [|by intros ?%elem_of_nil].
    destruct (_ && _); [|by intros ?%elem_of_nil].
    by intros ->%list_elem_of_singleton.
  - destruct (_ || _); [by intros ?%elem_of_nil|].
    intros ->%list_elem_of_singleton Hd.
    by rewrite isMissingFile_missing in Hd.
Qed.

End fragments.

(** X26.  [getOptions] depends on the host through six names only, and the
    name 'experimental.validate.fileLinks.markdownFragmentLinks' is not one
    of them: two configurations that agree on [enabled], on the four names
    of [levelKeys] and on [ignoreLinks] give the same options, whatever
    they hold elsewhere. *)
Theorem getOptions_reads_six_names
    (get_boolean get_boolean' : Uri → string → option bool)
    (get_level get_level' : Uri → string → option DiagnosticLevel)
    (get_strings get_strings' : Uri → string → option (list string))
    (resource : Uri)
    (Henabled : get_boolean' resource enabledKey = get_boolean resource enabledKey)
    (Hlevels : Forall (λ name, get_level' resource name = get_level resource name) levelKeys)
    (HignoreLinks : get_strings' resource ignoreLinksKey = get_strings resource ignoreLinksKey) :
  getOptions get_boolean' get_level' get_strings' resource
  = getOptions get_boolean get_level get_strings resource ∧
  "experimental.validate.fileLinks.markdownFragmentLinks" ∉ levelKeys.
Proof.
  split.
  - unfold getOptions. rewrite Henabled, HignoreLinks.
    apply Forall_cons in Hlevels as [-> Hlevels].
    apply Forall_cons in Hlevels as [-> Hlevels].
    apply Forall_cons in Hlevels as [-> Hlevels].
    apply Forall_cons in Hlevels as [-> _]. done.
  - unfold levelKeys. rewrite !not_elem_of_cons. repeat split; try done.
    apply not_elem_of_nil.
Qed.

(** *** A workspace that sets the level of header links in other files *)

Definition example_levels (resource : Uri) (name : string) : option DiagnosticLevel :=
  if String.eqb name "experimental.validate.fileLinks.enabled" then Some error
  else if String.eqb name "experimental.validate.fragmentLinks.enabled" then Some warning
  else if String.eqb name "experimental.validate.fileLinks.markdownFragmentLinks"
       then Some ignore
  else None.

Definition other_levels (resource : Uri) (name : string) : option DiagnosticLevel :=
  if String.eqb name "experimental.validate.fileLinks.enabled" then Some error
  else if String.eqb name "experimental.validate.fragmentLinks.enabled" then Some warning
  else None.

Definition example_booleans (resource : Uri) (name : string) : option bool := Some true.
Definition example_strings (resource : Uri) (name : string) : option (list string) := None.

Lemma markdownFragmentLinks_witness :
  example_levels uri_doc markdownFragmentLinksKey = None ∧
  Options.validateMarkdownFileLinkFragments
    (getOptions example_booleans example_levels example_strings uri_doc) = Some warning.
Proof.
  assert (example_levels uri_doc markdownFragmentLinksKey = None) as Hkey by reflexivity.
  split; [exact Hkey|].
  exact (proj1 (markdownFragmentLinks_falls_back_to_fragmentLinks example_booleans
                  example_levels example_strings no_match some_document no_path
                  fsPath_of no_header translateStart uri_doc example_links
                  not_cancelled Hkey)).
Defined.

Lemma getOptions_reads_six_names_witness :
  example_booleans uri_doc enabledKey = example_booleans uri_doc enabledKey ∧
  Forall (λ name, other_levels uri_doc name = example_levels uri_doc name) levelKeys ∧
  example_strings uri_doc ignoreLinksKey = example_strings uri_doc ignoreLinksKey ∧
  getOptions example_booleans other_levels example_strings uri_doc
  = getOptions example_booleans example_levels example_strings uri_doc.
Proof.
  assert (Forall (λ name, other_levels uri_doc name = example_levels uri_doc name)
            levelKeys) as Hlevels by (repeat constructor).
  split; [reflexivity|]. split; [exact Hlevels|]. split; [reflexivity|].
  exact (proj1 (getOptions_reads_six_names example_booleans example_booleans
                  example_levels other_levels example_strings example_strings uri_doc
                  eq_refl Hlevels eq_refl)).
Defined.

End Configuration.

(** ** [toConcatStream] *)

Module Bundle.

Import Optimize.

(** An element of [bundle.sources]; [source_path] is [None] for [null]. *)
Record Source : Type := mkSource {
  source_path : option string;
  source_contents : string;
}.

(** [source.path ? ... : ...]: neither [null] nor the empty string. *)
Definition hasPath (source : Source) : bool :=
  match source_path source with
  | Some (String _ _) => true
  | _ => false
  end.

(** The letters of a string in lower case, as the flag [i] of a regular
    expression compares them. *)
Definition lower (a : ascii) : ascii :=
  let n := nat_of_ascii a in
  if (65 <=? n) && (n <=? 90) then ascii_of_nat (n + 32) else a.

Fixpoint startsWithIgnoringCase (searchString s : string) : bool :=
  match searchString with
  | EmptyString => true
  | String a rest =>
      match s with
      | EmptyString => false
      | String b s' => Ascii.eqb (lower a) (lower b) && startsWithIgnoringCase rest s'
      end
  end.

Fixpoint includesIgnoringCase (searchString s : string) : bool :=
  startsWithIgnoringCase searchString s
  || match s with
     | EmptyString => false
     | String _ s' => includesIgnoringCase searchString s'
     end.

(** [IS_OUR_COPYRIGHT_REGEXP.test(fileContents)] *)
Definition IS_OUR_COPYRIGHT (fileContents : string) : bool :=
  includesIgnoringCase "Copyright (C) Microsoft Corporation" fileContents.

Definition DEFAULT_FILE_HEADER : string :=
  String.concat newLine
    [ "/*!--------------------------------------------------------";
      " * Copyright (C) Microsoft Corporation. All rights reserved.";
      " *--------------------------------------------------------*/" ].

Section host.

(** The host's side: [REPO_ROOT_PATH], the replacement of backslashes by
    slashes, and the [fileContentMapper] of the caller. *)
Variable REPO_ROOT_PATH : string.
Variable slashes : string → string.
Variable fileContentMapper : string → string → string.

(** The loop that looks for the copyright, up to its [break]. *)
Definition containsOurCopyright (sources : list Source) : bool :=
  existsb (λ source, IS_OUR_COPYRIGHT (source_contents source)) sources.

(** The function mapped over [sources]. *)
Definition treat (src : string) (source : Source) : VinylFile :=
  let root := if hasPath source then slashes REPO_ROOT_PATH else "" in
  let base := if hasPath source then root +:+ "/" +:+ src else "." in
  let path := if hasPath source
              then root +:+ "/" +:+ slashes (default "" (source_path source))
              else "fake" in
  let contents := if hasPath source
                  then fileContentMapper (source_contents source) path
                  else source_contents source in
  {| path := path; base := base; contents := contents |}.

(** [toConcatStream(src, bundledFileHeader, sources, dest, fileContentMapper)]:
    the array [sources] as the call leaves it, and the files it hands to
    [concat(dest)]. *)
Definition toConcatStream (src bundledFileHeader : string) (sources : list Source)
    : list Source * list VinylFile :=
  let sources :=
    if containsOurCopyright sources
    then {| source_path := None; source_contents := bundledFileHeader |} :: sources
    else sources in
  (sources, treat src <$> sources).

(** Calling [toConcatStream] [n] times on the same array. *)
Fixpoint toConcatStreamTimes (n : nat) (src bundledFileHeader : string)
    (sources : list Source) : list Source * list VinylFile :=
  match n with
  | 0 => (sources, [])
  | S n =>
      let '(sources, _) := toConcatStreamTimes n src bundledFileHeader sources in
      toConcatStream src bundledFileHeader sources
  end.

Lemma treat_header src bundledFileHeader :
  treat src {| source_path := None; source_contents := bundledFileHeader |}
  = fake bundledFileHeader.
Proof. reflexivity. Qed.

Lemma toConcatStreamTimes_sources n src bundledFileHeader sources :
  IS_OUR_COPYRIGHT bundledFileHeader = true →
  containsOurCopyright sources = true →
  (toConcatStreamTimes n src bundledFileHeader sources).1
  = replicate n {| source_path := None; source_contents := bundledFileHeader |} ++ sources.
Proof.
  intros Hheader Hsources. induction n as [|n IH]; [done|].
  cbn [toConcatStreamTimes].
  destruct (toConcatStreamTimes n src bundledFileHeader sources) as [sources' files].
  cbn [fst] in IH. subst sources'. unfold toConcatStream.
  assert (containsOurCopyright
            (replicate n {| source_path := None; source_contents := bundledFileHeader |}
             ++ sources) = true) as ->.
  { unfold containsOurCopyright. rewrite existsb_app. fold (containsOurCopyright sources).
    rewrite Hsources. apply orb_true_r. }
  done.
Qed.

(** X27.  [toConcatStream] puts the bundle header first exactly when the
    contents of some source carry the copyright line, in any letter case.
    The header is handed on as it is, as a file 'fake' with base '.'; the
    sources follow in their order, each with a path mapped through
    [fileContentMapper] under its path below the repository root.  The
    header is also written into the array [sources] itself: with a header
    that carries the copyright line, as the default header does, [n] calls
    on the same array put [n] headers in front of the sources. *)
Theorem toConcatStream_header_when_copyright
    (src bundledFileHeader : string) (sources : list Source) :
  let header := {| source_path := None; source_contents := bundledFileHeader |} in
  (toConcatStream src bundledFileHeader sources).2
  = (if containsOurCopyright sources then [fake bundledFileHeader] else [])
    ++ (treat src <$> sources) ∧
  (containsOurCopyright sources = true ↔
   ∃ source, source ∈ sources ∧ IS_OUR_COPYRIGHT (source_contents source) = true) ∧
  (toConcatStream src bundledFileHeader sources).1
  = (if containsOurCopyright sources then [header] else []) ++ sources ∧
  (∀ source, hasPath source = true →
     treat src source
     = {| path := slashes REPO_ROOT_PATH +:+ "/" +:+ slashes (default "" (source_path source));
          base := slashes REPO_ROOT_PATH +:+ "/" +:+ src;
          contents :=
            fileContentMapper (source_contents source)
              (slashes REPO_ROOT_PATH +:+ "/"
               +:+ slashes (default "" (source_path source))) |}) ∧
  (∀ source, hasPath source = false →
     treat src source = {| path := "fake"; base := "."; contents := source_contents source |}) ∧
  IS_OUR_COPYRIGHT DEFAULT_FILE_HEADER = true ∧
  (IS_OUR_COPYRIGHT bundledFileHeader = true → containsOurCopyright sources = true →
   ∀ n, (toConcatStreamTimes n src bundledFileHeader sources).1
        = replicate n header ++ sources).
Proof.
  intros header. unfold toConcatStream.
  split; [by destruct (containsOurCopyright sources)|].
  split.
  { unfold containsOurCopyright. rewrite existsb_exists.
    setoid_rewrite list_elem_of_In. done. }
  split; [by destruct (containsOurCopyright sources)|].
  split; [intros source Hpath; unfold treat; by rewrite Hpath|].
  split; [intros source Hpath; unfold treat; by rewrite Hpath|].
  split; [vm_compute; reflexivity|].
  intros Hheader Hsources n. by apply toConcatStreamTimes_sources.
Qed.

End host.

End Bundle.

(** ** The promises a reporter waits for *)

Module ReporterFacts.

Import Reporter.

(** The callback [signalTriggered] hands to [recompute.finally]. *)
Definition onFinally (uri : Uri) (recompute : nat) (st : t) : t :=
  if decide (ResourceMap.get uri (pending st) = Some recompute)
  then {| pending := ResourceMap.delete uri (pending st); collection := collection st |}
  else st.

(** What happens to a reporter: a promise is signalled for a resource, a
    promise settles, the entry of a resource is deleted, or the reporter is
    cleared. *)
Inductive event : Type :=
  | EvSignal (uri : Uri) (recompute : nat)
  | EvSettle (recompute : nat)
  | EvDelete (uri : Uri)
  | EvClear.

(** A reporter with the promises that settled and the callbacks that wait
    for a promise, in the order of their registration. *)
Record config : Type := mkConfig {
  reporter : t;
  settled : gset nat;
  callbacks : list (nat * Uri);
}.

Definition init : config := {| reporter := empty; settled := ∅; callbacks := [] |}.

(** The callbacks of [recompute] run in the order they were registered. *)
Definition runCallbacks (recompute : nat) (callbacks : list (nat * Uri)) (st : t) : t :=
  foldl (λ st cb, if decide (cb.1 = recompute) then onFinally cb.2 recompute st else st)
    st callbacks.

(** A callback added to a promise that has settled runs at once. *)
Definition apply_event (c : config) (ev : event) : config :=
  match ev with
  | EvSignal uri recompute =>
      let st := signalTriggered uri recompute (reporter c) in
      if decide (recompute ∈ settled c)
      then {| reporter := onFinally uri recompute st; settled := settled c;
              callbacks := callbacks c |}
      else {| reporter := st; settled := settled c;
              callbacks := callbacks c ++ [(recompute, uri)] |}
  | EvSettle recompute =>
      {| reporter := runCallbacks recompute (callbacks c) (reporter c);
         settled := {[ recompute ]} ∪ settled c;
         callbacks := filter (λ cb, cb.1 ≠ recompute) (callbacks c) |}
  | EvDelete uri =>
      {| reporter := delete uri (reporter c); settled := settled c;
         callbacks := callbacks c |}
  | EvClear =>
      {| reporter := clear (reporter c); settled := settled c; callbacks := callbacks c |}
  end.

Definition run (evs : list event) : config := foldl apply_event init evs.

(** [[...this.pending.values()]], what [waitAllPending] waits for. *)
Definition pendingValues (st : t) : list nat := (map_to_list (pending st)).*2.

(** The resources for which a callback of [recompute] waits. *)
Definition waiting (recompute : nat) (callbacks : list (nat * Uri)) : list string :=
  (λ cb, uri_str cb.2) <$> filter (λ cb, cb.1 = recompute) callbacks.

(** Every entry of [pending] holds a promise that has not settled and whose
    callback for the resource is still waiting. *)
Definition pending_ok (c : config) : Prop :=
  ∀ key recompute, pending (reporter c) !! key = Some recompute →
    (recompute ∉ settled c) ∧ key ∈ waiting recompute (callbacks c).

Lemma waiting_cons recompute cb callbacks key :
  key ∈ waiting recompute (cb :: callbacks) ↔
  (cb.1 = recompute ∧ key = uri_str cb.2) ∨ key ∈ waiting recompute callbacks.
Proof.
  unfold waiting. rewrite filter_cons. destruct (decide (cb.1 = recompute)).
  - rewrite fmap_cons, elem_of_cons. naive_solver.
  - naive_solver.
Qed.

Lemma waiting_app recompute callbacks1 callbacks2 key :
  key ∈ waiting recompute (callbacks1 ++ callbacks2) ↔
  key ∈ waiting recompute callbacks1 ∨ key ∈ waiting recompute callbacks2.
Proof. unfold waiting. by rewrite filter_app, fmap_app, elem_of_app. Qed.

Lemma waiting_filter recompute other callbacks key :
  recompute ≠ other →
  key ∈ waiting recompute (filter (λ cb, cb.1 ≠ other) callbacks) ↔
  key ∈ waiting recompute callbacks.
Proof.
  intros Hne. unfold waiting. rewrite !list_elem_of_fmap. split.
  - intros (cb & -> & [Hcb [_ Hin]%list_elem_of_filter]%list_elem_of_filter).
    exists cb. split; [done|]. by apply list_elem_of_filter.
  - intros (cb & -> & [Hcb Hin]%list_elem_of_filter).
    exists cb. split; [done|]. apply list_elem_of_filter. split; [done|].
    apply list_elem_of_filter. split; [congruence|done].
Qed.

Lemma onFinally_lookup uri recompute st key :
  pending (onFinally uri recompute st) !! key =
  if decide (key = uri_str uri ∧ pending st !! key = Some recompute) then None
  else pending st !! key.
Proof.
  unfold onFinally, ResourceMap.get, ResourceMap.delete.
  destruct (decide (pending st !! uri_str uri = Some recompute)) as [Hp|Hp];
    cbn [pending].
  - destruct (decide (key = uri_str uri)) as [->|Hne].
    + rewrite lookup_delete_eq. by rewrite decide_True.
    + rewrite lookup_delete_ne by done. rewrite decide_False; [done|]. naive_solver.
  - rewrite decide_False; [done|]. intros [-> ?]. done.
Qed.

Lemma runCallbacks_lookup recompute callbacks st key :
  pending (runCallbacks recompute callbacks st) !! key =
  if decide (pending st !! key = Some recompute ∧ key ∈ waiting recompute callbacks)
  then None else pending st !! key.
Proof.
  revert st. induction callbacks as [|[p uri] callbacks IH]; intros st.
  { rewrite decide_False; [done|]. by intros (_ & []%elem_of_nil). }
  unfold runCallbacks in *. cbn [foldl fst snd]. rewrite IH. clear IH.
  destruct (decide (p = recompute)) as [->|Hne].
  - rewrite !onFinally_lookup.
    destruct (decide (pending st !! key = Some recompute
                      ∧ key ∈ waiting recompute ((recompute, uri) :: callbacks)))
      as [[Hp Hin]|Hnot].
    + apply waiting_cons in Hin. cbn [fst snd] in Hin.
      destruct (decide (key = uri_str uri ∧ pending st !! key = Some recompute))
        as [|Hn1]; [by destruct (decide _)|].
      destruct Hin as [[_ ->]|Hin]; [by destruct Hn1|]. by rewrite decide_True.
    + destruct (decide (key = uri_str uri ∧ pending st !! key = Some recompute))
        as [[-> Hp]|_].
      { destruct Hnot. split; [done|]. apply waiting_cons. by left. }
      rewrite decide_False; [done|]. intros [Hp Hin]. apply Hnot.
      split; [done|]. apply waiting_cons. by right.
  - destruct (decide (pending st !! key = Some recompute
                      ∧ key ∈ waiting recompute ((p, uri) :: callbacks)))
      as [[Hp Hin]|Hnot].
    + apply waiting_cons in Hin as [[? _]|Hin]; [done|]. by rewrite decide_True.
    + rewrite decide_False; [done|]. intros [Hp Hin]. apply Hnot.
      split; [done|]. apply waiting_cons. by right.
Qed.

Lemma pending_ok_step c ev : pending_ok c → pending_ok (apply_event c ev).
Proof.
  intros Hok key p. destruct ev as [uri recompute|recompute|uri|];
    cbn [apply_event].
  - destruct (decide (recompute ∈ settled c)) as [Hs|Hs];
      cbn [reporter settled callbacks].
    + rewrite onFinally_lookup. unfold signalTriggered, ResourceMap.set. cbn [pending].
      destruct (decide (key = uri_str uri)) as [->|Hne].
      * rewrite lookup_insert_eq. by rewrite decide_True.
      * rewrite lookup_insert_ne by done.
        rewrite decide_False by (by intros [? _]). apply Hok.
    + unfold signalTriggered, ResourceMap.set. cbn [pending]. rewrite waiting_app.
      destruct (decide (key = uri_str uri)) as [->|Hne].
      * rewrite lookup_insert_eq. intros [= <-]. split; [done|].
        right. apply waiting_cons. by left.
      * rewrite lookup_insert_ne by done. intros Hp.
        destruct (Hok _ _ Hp) as [Hns Hin]. by split; [|left].
  - cbn [reporter settled callbacks]. rewrite runCallbacks_lookup.
    destruct (decide _) as [|Hnot]; [done|]. intros Hp.
    destruct (Hok _ _ Hp) as [Hns Hin].
    assert (p ≠ recompute) as Hne.
    { intros ->. by destruct Hnot. }
    split; [set_solver|]. by apply waiting_filter.
  - cbn [reporter settled callbacks]. unfold delete, ResourceMap.delete. cbn [pending].
    intros [_ Hp]%lookup_delete_Some. by apply Hok.
  - cbn [reporter settled callbacks]. unfold clear. cbn [pending].
    by rewrite lookup_empty.
Qed.

Lemma pending_ok_run evs : pending_ok (run evs).
Proof.
  unfold run. induction evs as [|ev evs IH] using rev_ind.
  - intros key p. cbn. by rewrite lookup_empty.
  - rewrite foldl_app. cbn [foldl]. by apply pending_ok_step.
Qed.

(** X28.  Whatever promises were signalled, settled, deleted or cleared,
    [waitAllPending] waits only for promises that have not settled: no entry
    of [pending] holds a settled promise.  When a promise settles, the
    entries that hold it are removed and every other entry stays, also the
    entry of a resource for which a newer promise was signalled. *)
Theorem pending_holds_unsettled_promises (evs : list event) :
  let c := run evs in
  Forall (λ recompute, recompute ∉ settled c) (pendingValues (reporter c)) ∧
  (∀ recompute key,
     pending (reporter (apply_event c (EvSettle recompute))) !! key =
     if decide (pending (reporter c) !! key = Some recompute) then None
     else pending (reporter c) !! key) ∧
  (∀ uri recompute newer, newer ≠ recompute →
     pending (onFinally uri recompute (signalTriggered uri newer (reporter c)))
       !! uri_str uri = Some newer).
Proof.
  intros c. pose proof (pending_ok_run evs) as Hok. fold c in Hok.
  split; [|split].
  - apply Forall_forall. intros p. unfold pendingValues.
    intros ([key p'] & -> & Hin%elem_of_map_to_list)%list_elem_of_fmap.
    by apply Hok in Hin as [? _].
  - intros recompute key. cbn [apply_event reporter]. rewrite runCallbacks_lookup.
    destruct (decide (pending (reporter c) !! key = Some recompute)) as [Hp|Hp].
    + rewrite decide_True; [done|]. split; [done|]. by apply Hok in Hp as [_ ?].
    + rewrite decide_False; [done|]. by intros [? _].
  - intros uri recompute newer Hne. rewrite onFinally_lookup.
    unfold signalTriggered, ResourceMap.set. cbn [pending]. rewrite lookup_insert_eq.
    rewrite decide_False; [done|]. intros [_ [= ?]]. done.
Qed.

End ReporterFacts.
